(** * MacLab: the banking employee behaviour simulator

    A shallow embedding of [SettingUpDummyEnv.py] (class
    [BankingEmployeeSimulator] and [main]) together with the properties of
    its work-day scheduler, its stop operation, its daily report, its backup
    operation and its security-event sink.

    The Python program is effectful: it reads the wall clock, draws from the
    global random source, writes files, logs, prints and sleeps.  Every
    method is therefore embedded as a computation in a state-and-exception
    monad [M] over an explicit [World], which holds the clock, the random
    source (an oracle), the file system, the trace of observable events, the
    flag [is_running], and the external events still to come (a [stop()]
    from another thread, the interrupt signal).  Floats are the rationals
    they denote.  The scheduler loop need not end and runs on fuel. *)

From Stdlib Require Import ZArith QArith Qround Lqa Ascii String Lia.
From stdpp Require Import base gmap strings list fin_maps pretty.

Close Scope Q_scope.
Set Warnings "-register-all".
Open Scope string_scope.
Open Scope list_scope.
Open Scope Z_scope.

(** ** Values shared by the whole program *)

(** A [pathlib.Path]: the list of its components below the root. *)
Abbreviation path := (list string).

(** [Path / name]. *)
Definition div_path (p : path) (name : string) : path := p ++ [name].
Infix "//" := div_path (at level 40, left associativity).

(** [str(path)]. *)
Definition path_str (p : path) : string :=
  match p with
  | [] => "/"
  | _ => String.concat "" (map (fun c => "/" +:+ c) p)
  end.

(** Python values that reach [json.dump] / [json.dumps]. *)
Inductive json :=
| JStr (s : string)
| JInt (z : Z)
| JFloat (q : Q)
| JList (l : list json)
| JDict (kv : list (string * json)).

(** What is written to a file or to standard output: literal text, or a
    value serialised by [json.dump(..., indent=n)] (kept structured). *)
Inductive piece :=
| Text (s : string)
| JsonDump (indent : option nat) (v : json).

Inductive node :=
| Dir
| File (content : list piece).

(** The exceptions the program can meet.  All but [KeyboardInterrupt] are
    subclasses of [Exception]. *)
Inductive exn :=
| KeyboardInterrupt
| FileNotFoundError (p : path)
| NotADirectoryError (p : path)
| IsADirectoryError (p : path)
| FileExistsError (p : path)
| IndexError (msg : string)
| ValueError (msg : string).

(** [isinstance(e, Exception)]. *)
Definition is_Exception (e : exn) : bool :=
  match e with
  | KeyboardInterrupt => false
  | _ => true
  end.

(** [str(e)], as interpolated into log messages. *)
Definition str_exn (e : exn) : string :=
  match e with
  | KeyboardInterrupt => ""
  | FileNotFoundError p => "[Errno 2] No such file or directory: '" +:+ path_str p +:+ "'"
  | NotADirectoryError p => "[Errno 20] Not a directory: '" +:+ path_str p +:+ "'"
  | IsADirectoryError p => "[Errno 21] Is a directory: '" +:+ path_str p +:+ "'"
  | FileExistsError p => "[Errno 17] File exists: '" +:+ path_str p +:+ "'"
  | IndexError msg => msg
  | ValueError msg => msg
  end.

Inductive level := INFO | ERROR.

(** Observable events, in program order: a record handed to the logger
    (which formats it into [banking_simulation.log] and the console), a
    completed or started [time.sleep], a [print]. *)
Inductive event :=
| EvLog (lvl : level) (msg : string)
| EvSleep (d : Q)
| EvPrint (out : list piece).

(** What the environment may do to the process while it sleeps: another
    thread of control calls [stop_simulation()], or the user sends the
    interrupt signal (Ctrl-C). *)
Inductive ext := ExtStop | ExtInterrupt.

(** ** The world *)

Record World := mkWorld {
  clock : Q;                       (* local wall clock, seconds since the epoch *)
  draws : nat -> N;                (* raw output of the random source *)
  cursor : nat;                    (* how many draws were consumed *)
  fs : gmap path node;             (* the file system below the root *)
  trace : list (Q * event);        (* events so far, each with its time *)
  is_running : bool;               (* [self.is_running] *)
  pending : list (Q * ext);        (* external events still to come, by time *)
  env_home : path                  (* what [Path.home()] answers *)
}.

Definition set_clock (t : Q) (w : World) : World :=
  mkWorld t (draws w) (cursor w) (fs w) (trace w) (is_running w) (pending w) (env_home w).
Definition set_cursor (c : nat) (w : World) : World :=
  mkWorld (clock w) (draws w) c (fs w) (trace w) (is_running w) (pending w) (env_home w).
Definition set_fs (f : gmap path node) (w : World) : World :=
  mkWorld (clock w) (draws w) (cursor w) f (trace w) (is_running w) (pending w) (env_home w).
Definition set_trace (tr : list (Q * event)) (w : World) : World :=
  mkWorld (clock w) (draws w) (cursor w) (fs w) tr (is_running w) (pending w) (env_home w).
Definition set_is_running (b : bool) (w : World) : World :=
  mkWorld (clock w) (draws w) (cursor w) (fs w) (trace w) b (pending w) (env_home w).
Definition set_pending (l : list (Q * ext)) (w : World) : World :=
  mkWorld (clock w) (draws w) (cursor w) (fs w) (trace w) (is_running w) l (env_home w).

Definition emit (e : event) (w : World) : World :=
  set_trace (trace w ++ [(clock w, e)]) w.

(** ** The monad of Python computations *)

Inductive Result (A : Type) :=
| Ok (a : A)
| Raise (e : exn).
Arguments Ok {A} a.
Arguments Raise {A} e.

Definition M (A : Type) : Type := World -> Result A * World.

Definition ret {A} (a : A) : M A := fun w => (Ok a, w).
Definition raise {A} (e : exn) : M A := fun w => (Raise e, w).
Definition bind {A B} (c : M A) (k : A -> M B) : M B :=
  fun w => match c w with
           | (Ok a, w') => k a w'
           | (Raise e, w') => (Raise e, w')
           end.

Declare Scope py_scope.
Delimit Scope py_scope with py.
Notation "x <- c ;; k" := (bind c (fun x => k))
  (at level 100, c at next level, right associativity) : py_scope.
Notation "c ;; k" := (bind c (fun _ => k))
  (at level 100, right associativity) : py_scope.
Open Scope py_scope.

(** [try: body  except ...: handler]: [handler e] is [None] when no
    [except] clause matches [e].  An exception raised by the handler itself
    is not caught by the same statement. *)
Definition try_except {A} (body : M A) (handler : exn -> option (M A)) : M A :=
  fun w => match body w with
           | (Ok a, w') => (Ok a, w')
           | (Raise e, w') =>
               match handler e with
               | Some h => h w'
               | None => (Raise e, w')
               end
           end.

Definition get {A} (f : World -> A) : M A := fun w => (Ok (f w), w).
Definition modify (f : World -> World) : M unit := fun w => (Ok tt, f w).

(** ** [logging] and [print]

    A record handed to the logger is kept in the trace.  The handlers also
    print it and append it to [banking_simulation.log] in the home
    directory: the content of that file is the log records of the trace and
    is not kept a second time in [fs], where the file only exists (the
    constructor creates it).  What is stated of [fs] is therefore stated of
    the entries other than that file. *)

Definition logger_info (msg : string) : M unit := modify (emit (EvLog INFO msg)).
Definition logger_error (msg : string) : M unit := modify (emit (EvLog ERROR msg)).
Definition print (out : list piece) : M unit := modify (emit (EvPrint out)).

(** ** The simulator's stop operation

    [stop_simulation] comes first because the environment may run it (from
    another thread of control) while the scheduler sleeps. *)

(** [BankingEmployeeSimulator.stop_simulation]. *)
Definition stop_simulation : M unit :=
  modify (set_is_running false) ;;
  logger_info "Banking employee simulation stopped".

(** ** [time] and [datetime]

    Computation takes no time: the clock moves only inside [time.sleep],
    and it is only there that the environment reaches the process.  A sleep
    of [d] seconds that starts at [t] ends at [t + d].  External events due
    by then happen during the sleep, in the order of [pending] (which lists
    them by time, and is [evs] below): a [stop()] issued by another thread
    runs [stop_simulation] at its time and the sleep goes on (nothing in
    [time.sleep] looks at [is_running]); the interrupt signal makes the
    sleep raise [KeyboardInterrupt] at once.  The process spends its time
    asleep, so this is where an interrupt falls but for the instants of
    computation in between: an interrupt that falls there is not modelled,
    and what is stated of where an exception can come from is stated of
    runs in which no interrupt is sent. *)

Definition q_max (a b : Q) : Q := if Qle_bool a b then b else a.

Fixpoint sleep_until (t_end : Q) (evs : list (Q * ext)) (w : World) : Result unit * World :=
  match evs with
  | [] => (Ok tt, set_clock t_end w)
  | (s, ev) :: rest =>
      if Qle_bool s t_end then
        let w1 := set_clock (q_max (clock w) s) (set_pending rest w) in
        match ev with
        | ExtStop => sleep_until t_end rest (snd (stop_simulation w1))
        | ExtInterrupt => (Raise KeyboardInterrupt, w1)
        end
      else (Ok tt, set_clock t_end w)
  end.

(** [time.sleep(d)]. *)
Definition time_sleep (d : Q) : M unit :=
  fun w =>
    if Qle_bool 0 d then
      let w0 := emit (EvSleep d) w in
      sleep_until (clock w + d)%Q (pending w0) w0
    else (Raise (ValueError "sleep length must be non-negative"), w).

(** [datetime.now()]: the local time, kept as seconds since the epoch. *)
Definition datetime := Q.
Definition datetime_now : M datetime := get clock.

(** [timedelta(days=n)] added to a datetime. *)
Definition add_days (dt : datetime) (n : Z) : datetime := (dt + inject_Z (n * 86400))%Q.

Definition dt_seconds (dt : datetime) : Z := Qfloor dt.
Definition dt_hour (dt : datetime) : Z := (dt_seconds dt / 3600) mod 24.
Definition dt_minute (dt : datetime) : Z := (dt_seconds dt / 60) mod 60.
Definition dt_second (dt : datetime) : Z := dt_seconds dt mod 60.
Definition dt_microsecond (dt : datetime) : Z :=
  Qfloor ((dt - inject_Z (dt_seconds dt)) * inject_Z 1000000)%Q.

(** Days since the epoch to the proleptic Gregorian (year, month, day). *)
Definition civil_from_days (days : Z) : Z * Z * Z :=
  let z := days + 719468 in
  let era := z / 146097 in
  let doe := z - era * 146097 in
  let yoe := (doe - doe / 1460 + doe / 36524 - doe / 146096) / 365 in
  let doy := doe - (365 * yoe + yoe / 4 - yoe / 100) in
  let mp := (5 * doy + 2) / 153 in
  let d := doy - (153 * mp + 2) / 5 + 1 in
  let m := if mp <? 10 then mp + 3 else mp - 9 in
  let y := yoe + era * 400 + (if m <=? 2 then 1 else 0) in
  (y, m, d).

Definition dt_date (dt : datetime) : Z * Z * Z := civil_from_days (dt_seconds dt / 86400).
Definition dt_year (dt : datetime) : Z := fst (fst (dt_date dt)).
Definition dt_month (dt : datetime) : Z := snd (fst (dt_date dt)).
Definition dt_day (dt : datetime) : Z := snd (dt_date dt).

(** A number printed in at least [width] digits, zero-padded on the left. *)
Fixpoint zeros (n : nat) : string :=
  match n with
  | O => ""
  | S n' => "0" +:+ zeros n'
  end.
Definition pad (width : nat) (z : Z) : string :=
  let s := pretty z in zeros (width - String.length s) +:+ s.

(** [strftime('%Y%m%d')]. *)
Definition strftime_Ymd (dt : datetime) : string :=
  pad 4 (dt_year dt) +:+ pad 2 (dt_month dt) +:+ pad 2 (dt_day dt).

(** [strftime('%Y-%m-%d')]. *)
Definition strftime_Y_m_d (dt : datetime) : string :=
  pad 4 (dt_year dt) +:+ "-" +:+ pad 2 (dt_month dt) +:+ "-" +:+ pad 2 (dt_day dt).

Definition strftime_HMS (dt : datetime) : string :=
  pad 2 (dt_hour dt) +:+ ":" +:+ pad 2 (dt_minute dt) +:+ ":" +:+ pad 2 (dt_second dt).

(** [strftime('%Y-%m-%d %H:%M:%S')]. *)
Definition strftime_Y_m_d_HMS (dt : datetime) : string :=
  strftime_Y_m_d dt +:+ " " +:+ strftime_HMS dt.

(** [datetime.isoformat()]: the fraction is printed only when non-zero. *)
Definition isoformat (dt : datetime) : string :=
  strftime_Y_m_d dt +:+ "T" +:+ strftime_HMS dt +:+
  (if dt_microsecond dt =? 0 then "" else "." +:+ pad 6 (dt_microsecond dt)).

(** ** [random]

    The random source is an oracle: [draws] holds its raw output and every
    call consumes one draw.  [random.random()] has 53 bits of resolution, as
    in CPython; floats are modelled by the rationals they denote. *)

Definition next_draw : M N :=
  fun w => (Ok (draws w (cursor w)), set_cursor (S (cursor w)) w).

Definition two53 : positive := 9007199254740992.

(** [random.random()]: a multiple of 2^-53 in [0, 1). *)
Definition random_random : M Q :=
  r <- next_draw ;; ret (Qmake (Z.of_N r mod Z.pos two53) two53).

(** [random.uniform(a, b)] is [a + (b - a) * random()]. *)
Definition random_uniform (a b : Q) : M Q :=
  u <- random_random ;; ret (a + (b - a) * u)%Q.

(** [random.randint(a, b)]: an integer of [a, b], both ends included. *)
Definition random_randint (a b : Z) : M Z :=
  if b <? a then raise (ValueError "empty range for randrange()")
  else r <- next_draw ;; ret (a + Z.of_N r mod (b - a + 1)).

(** [random.choice(seq)]. *)
Definition random_choice {A} (seq : list A) : M A :=
  match seq with
  | [] => raise (IndexError "Cannot choose from an empty sequence")
  | x :: _ =>
      r <- next_draw ;;
      ret (nth (N.to_nat (r mod N.of_nat (length seq))) seq x)
  end.

(** [itertools.accumulate]: the running sums. *)
Fixpoint accumulate_from (acc : Q) (ws : list Q) : list Q :=
  match ws with
  | [] => []
  | x :: rest => let s := (acc + x)%Q in s :: accumulate_from s rest
  end.
Definition accumulate (ws : list Q) : list Q :=
  match ws with
  | [] => []
  | x :: rest => x :: accumulate_from x rest
  end.

Definition Qlt_bool (x y : Q) : bool := negb (Qle_bool y x).

(** [bisect.bisect_right(a, x, lo, hi)]: binary search. *)
Fixpoint bisect_loop (fuel : nat) (a : list Q) (x : Q) (lo hi : nat) : nat :=
  match fuel with
  | O => lo
  | S fuel' =>
      if (lo <? hi)%nat then
        let mid := ((lo + hi) / 2)%nat in
        if Qlt_bool x (nth mid a 0%Q)
        then bisect_loop fuel' a x lo mid
        else bisect_loop fuel' a x (S mid) hi
      else lo
  end.
Definition bisect (a : list Q) (x : Q) (lo hi : nat) : nat :=
  bisect_loop (S hi) a x lo hi.

(** [random.choices(population, weights=weights)] with [k = 1] (CPython 3.9
    and later): the checks come before any draw.  The partial sums of the
    weights and the scaled variate are exact rationals here and floats in
    the code, which may differ in the last place: a variate that close to a
    bound may select the neighbouring element there. *)
Definition random_choices {A} (population : list A) (weights : list Q) : M (list A) :=
  let n := length population in
  let cum_weights := accumulate weights in
  if negb (length cum_weights =? n)%nat
  then raise (ValueError "The number of weights does not match the population")
  else
    match last cum_weights, population with
    | None, _ | _, [] => raise (IndexError "list index out of range")
    | Some total, x :: _ =>
        if Qle_bool total 0
        then raise (ValueError "Total of weights must be greater than zero")
        else
          u <- random_random ;;
          ret [nth (bisect cum_weights (u * total)%Q 0 (n - 1)) population x]
    end.

(** [l[0]]. *)
Definition item0 {A} (l : list A) : M A :=
  match l with
  | [] => raise (IndexError "list index out of range")
  | x :: _ => ret x
  end.

(** [round(x, ndigits)]: to the nearest multiple of 10^-ndigits, ties to
    even. *)
Definition round_half_even (y : Q) : Z :=
  let f := Qfloor y in
  let r := (y - inject_Z f)%Q in
  if Qlt_bool r (1 # 2) then f
  else if Qlt_bool (1 # 2) r then f + 1
  else if Z.even f then f else f + 1.
Definition py_round (x : Q) (ndigits : nat) : Q :=
  let scale := 10 ^ Z.of_nat ndigits in
  (inject_Z (round_half_even (x * inject_Z scale)) / inject_Z scale)%Q.

(** ** [json.dumps]

    The compact form (no [indent]): items separated by a comma and a space,
    keys from values by a colon and a space, non-printable and non-ASCII
    characters escaped.  A character of a [string] stands for the code point
    of the same number. *)

Definition dquote : string := String (ascii_of_nat 34) "".
Definition backslash : string := String (ascii_of_nat 92) "".

Definition hex_digit (n : N) : string :=
  String (nth (N.to_nat n) (list_ascii_of_string "0123456789abcdef") "0"%char) "".

Definition json_escape_char (c : ascii) : string :=
  let n := N_of_ascii c in
  if (n =? 34)%N then backslash +:+ dquote
  else if (n =? 92)%N then backslash +:+ backslash
  else if (n =? 10)%N then backslash +:+ "n"
  else if (n =? 13)%N then backslash +:+ "r"
  else if (n =? 9)%N then backslash +:+ "t"
  else if (n =? 8)%N then backslash +:+ "b"
  else if (n =? 12)%N then backslash +:+ "f"
  else if ((32 <=? n) && (n <=? 126))%N then String c ""
  else backslash +:+ "u00" +:+ hex_digit (n / 16) +:+ hex_digit (n mod 16).

Fixpoint json_escape (s : string) : string :=
  match s with
  | EmptyString => ""
  | String c rest => json_escape_char c +:+ json_escape rest
  end.

Definition json_string (s : string) : string := dquote +:+ json_escape s +:+ dquote.

(** The decimal digits of the fraction [r] (with [0 <= r < 1]), at most
    [fuel] of them, without trailing zeros. *)
Fixpoint frac_digits (fuel : nat) (r : Q) : string :=
  match fuel with
  | O => ""
  | S fuel' =>
      if Qeq_bool r 0 then ""
      else let y := (r * 10)%Q in
           let d := Qfloor y in
           pretty d +:+ frac_digits fuel' (y - inject_Z d)%Q
  end.

(** [repr] of a float that denotes a short decimal. *)
Definition float_repr (q : Q) : string :=
  let a := (if Qlt_bool q 0 then - q else q)%Q in
  let f := Qfloor a in
  let digits := frac_digits 17 (a - inject_Z f)%Q in
  (if Qlt_bool q 0 then "-" else "") +:+ pretty f +:+ "." +:+
  (if String.eqb digits "" then "0" else digits).

Fixpoint json_dumps (v : json) : string :=
  match v with
  | JStr s => json_string s
  | JInt z => pretty z
  | JFloat q => float_repr q
  | JList l =>
      "[" +:+ String.concat ", " (map json_dumps l) +:+ "]"
  | JDict kv =>
      "{" +:+ String.concat ", "
                (map (fun p => json_string (fst p) +:+ ": " +:+ json_dumps (snd p)) kv)
          +:+ "}"
  end.

(** ** The file system *)

(** The root is always a directory. *)
Definition is_dir (f : gmap path node) (p : path) : bool :=
  match p with
  | [] => true
  | _ => match f !! p with Some Dir => true | _ => false end
  end.

(** [Path.is_file()]. *)
Definition is_file (f : gmap path node) (p : path) : bool :=
  match f !! p with Some (File _) => true | _ => false end.

(** [Path.exists()]. *)
Definition path_exists (f : gmap path node) (p : path) : bool :=
  is_dir f p || is_file f p.

(** [Path.mkdir(parents=True, exist_ok=True)]: walks down from the root,
    creating what is missing; a file in the way is an error (and what was
    created above it stays). [pre] is the part already known to be a
    directory. *)
Fixpoint mkdir_from (target pre : path) (rest : list string) (f : gmap path node)
  : Result unit * gmap path node :=
  match rest with
  | [] => (Ok tt, f)
  | c :: rest' =>
      let q := pre // c in
      match f !! q with
      | Some Dir => mkdir_from target q rest' f
      | Some (File _) =>
          (Raise (match rest' with
                  | [] => FileExistsError target
                  | _ => NotADirectoryError target
                  end), f)
      | None => mkdir_from target q rest' (<[q := Dir]> f)
      end
  end.

Definition mkdir_parents_exist_ok (p : path) : M unit :=
  fun w => let '(r, f) := mkdir_from p [] p (fs w) in (r, set_fs f w).

(** Why [open(p, mode)] fails for a writing mode, if it does: every proper
    prefix of [p] has to be a directory and [p] itself must not be one. *)
Fixpoint open_error_from (target pre : path) (rest : list string) (f : gmap path node)
  : option exn :=
  match rest with
  | [] => None
  | [c] => if is_dir f (pre // c) then Some (IsADirectoryError target) else None
  | c :: rest' =>
      let q := pre // c in
      match f !! q with
      | Some Dir => open_error_from target q rest' f
      | Some (File _) => Some (NotADirectoryError target)
      | None => Some (FileNotFoundError target)
      end
  end.
Definition open_error (f : gmap path node) (p : path) : option exn :=
  match p with
  | [] => Some (IsADirectoryError [])
  | _ => open_error_from p [] p f
  end.

(** [with open(p, 'w') as f: <write content>]. *)
Definition open_write (p : path) (content : list piece) : M unit :=
  fun w => match open_error (fs w) p with
           | Some e => (Raise e, w)
           | None => (Ok tt, set_fs (<[p := File content]> (fs w)) w)
           end.

(** [with open(p, 'a') as f: <write content>]. *)
Definition open_append (p : path) (content : list piece) : M unit :=
  fun w => match open_error (fs w) p with
           | Some e => (Raise e, w)
           | None =>
               let old := match fs w !! p with Some (File c) => c | _ => [] end in
               (Ok tt, set_fs (<[p := File (old ++ content)]> (fs w)) w)
           end.

(** [Path.iterdir()]: the entries directly below [p], in the order of the
    map. *)
Definition children (f : gmap path node) (p : path) : list path :=
  filter (fun q => q ≠ [] ∧ removelast q = p) (map fst (map_to_list f)).
Definition iterdir (p : path) : M (list path) :=
  fun w => if is_dir (fs w) p then (Ok (children (fs w) p), w)
           else if is_file (fs w) p then (Raise (NotADirectoryError p), w)
           else (Raise (FileNotFoundError p), w).

(** ** [BankingEmployeeSimulator]

    The attributes that never change after [__init__] form the record;
    [self.is_running] lives in the world.  The logger's records are kept in
    the trace: of the log file only its creation is modelled. *)

Record Simulator := mkSimulator {
  employee_name : string;
  department : string;
  home_dir : path;
  work_dir : path;
  temp_dir : path;
  applications : list string;
  banking_websites : list string
}.

Definition nl : string := String (ascii_of_nat 10) "".

(** [for x in xs: body(x)]. *)
Fixpoint for_each {A} (xs : list A) (body : A -> M unit) : M unit :=
  match xs with
  | [] => ret tt
  | x :: rest => body x ;; for_each rest body
  end.

(** [x in xs] for strings. *)
Definition str_in (x : string) (xs : list string) : bool :=
  existsb (String.eqb x) xs.

Section Methods.
Variable self : Simulator.

(** [setup_workspace]. *)
Definition setup_workspace : M unit :=
  let directories :=
    [ work_dir self // "Financial_Reports";
      work_dir self // "Client_Data";
      work_dir self // "Regulatory_Docs";
      work_dir self // "Internal_Memos";
      work_dir self // "Risk_Analysis";
      work_dir self // "Compliance";
      temp_dir self ] in
  for_each directories mkdir_parents_exist_ok ;;
  logger_info ("Workspace setup complete for " +:+ employee_name self).

(** [create_financial_report]. *)
Definition create_financial_report : M unit :=
  let report_types := ["Monthly_P&L"; "Cash_Flow_Analysis"; "Budget_Variance";
                       "Credit_Risk_Report"; "Investment_Summary"] in
  report_type <- random_choice report_types ;;
  now <- datetime_now ;;
  let filename := report_type +:+ "_" +:+ strftime_Ymd now +:+ ".xlsx" in
  let filepath := work_dir self // "Financial_Reports" // filename in
  timestamp <- datetime_now ;;
  total_assets <- random_randint 1000000 10000000 ;;
  total_liabilities <- random_randint 500000 8000000 ;;
  net_income <- random_randint 50000 500000 ;;
  risk <- random_uniform 1 10 ;;
  let fake_data := JDict [
    ("report_type", JStr report_type);
    ("generated_by", JStr (employee_name self));
    ("timestamp", JStr (isoformat timestamp));
    ("department", JStr (department self));
    ("data", JDict [
      ("total_assets", JInt total_assets);
      ("total_liabilities", JInt total_liabilities);
      ("net_income", JInt net_income);
      ("risk_score", JFloat (py_round risk 2)) ]) ] in
  open_write filepath [JsonDump (Some 2%nat) fake_data] ;;
  logger_info ("Created financial report: " +:+ filename) ;;
  d <- random_uniform 2 5 ;;
  time_sleep d.

(** [update_client_data]. *)
Definition update_client_data : M unit :=
  let client_files := ["High_Net_Worth_Clients.csv"; "Corporate_Accounts.xlsx";
                       "Loan_Portfolio.json"; "Investment_Clients.csv"] in
  filename <- random_choice client_files ;;
  let filepath := work_dir self // "Client_Data" // filename in
  last_updated <- datetime_now ;;
  clients_processed <- random_randint 10 50 ;;
  accounts_reviewed <- random_randint 25 100 ;;
  flags_raised <- random_randint 0 5 ;;
  let client_data := JDict [
    ("last_updated", JStr (isoformat last_updated));
    ("updated_by", JStr (employee_name self));
    ("clients_processed", JInt clients_processed);
    ("accounts_reviewed", JInt accounts_reviewed);
    ("flags_raised", JInt flags_raised) ] in
  open_write filepath [JsonDump (Some 2%nat) client_data] ;;
  logger_info ("Updated client data file: " +:+ filename) ;;
  d <- random_uniform 1 3 ;;
  time_sleep d.

(** [create_compliance_document]. *)
Definition create_compliance_document : M unit :=
  let compliance_docs := ["AML_Review"; "KYC_Updates"; "Regulatory_Filing";
                          "Audit_Response"; "Policy_Update"] in
  doc_type <- random_choice compliance_docs ;;
  now <- datetime_now ;;
  let filename := doc_type +:+ "_" +:+ strftime_Ymd now +:+ ".docx" in
  let filepath := work_dir self // "Compliance" // filename in
  generated <- datetime_now ;;
  today <- datetime_now ;;
  let compliance_content :=
    nl +:+ "CONFIDENTIAL - INTERNAL USE ONLY" +:+ nl +:+
    nl +:+ doc_type +:+ " Document" +:+ nl +:+
    "Generated: " +:+ strftime_Y_m_d_HMS generated +:+ nl +:+
    "Author: " +:+ employee_name self +:+ nl +:+
    "Department: " +:+ department self +:+ nl +:+
    nl +:+ "Summary:" +:+ nl +:+
    "- Compliance review completed" +:+ nl +:+
    "- No significant issues identified" +:+ nl +:+
    "- Recommendations for improvement documented" +:+ nl +:+
    "- Next review scheduled for " +:+ strftime_Y_m_d (add_days today 30) +:+ nl +:+
    nl +:+ "Classification: Internal" +:+ nl +:+
    "Distribution: Compliance Team Only" +:+ nl in
  open_write filepath [Text compliance_content] ;;
  logger_info ("Created compliance document: " +:+ filename) ;;
  d <- random_uniform 3 7 ;;
  time_sleep d.

(** [generate_risk_analysis]. *)
Definition generate_risk_analysis : M unit :=
  let risk_types := ["Credit_Risk"; "Market_Risk"; "Operational_Risk";
                     "Liquidity_Risk"; "Regulatory_Risk"] in
  risk_type <- random_choice risk_types ;;
  now <- datetime_now ;;
  let filename := risk_type +:+ "_Analysis_" +:+ strftime_Ymd now +:+ ".json" in
  let filepath := work_dir self // "Risk_Analysis" // filename in
  date <- datetime_now ;;
  risk_level <- random_choice ["Low"; "Medium"; "High"; "Critical"] ;;
  probability <- random_uniform (1 # 10) (9 # 10) ;;
  impact_score <- random_randint 1 10 ;;
  let risk_data := JDict [
    ("analysis_type", JStr risk_type);
    ("analyst", JStr (employee_name self));
    ("date", JStr (isoformat date));
    ("risk_level", JStr risk_level);
    ("probability", JFloat (py_round probability 2));
    ("impact_score", JInt impact_score);
    ("mitigation_strategies", JList [
      JStr "Implement additional controls";
      JStr "Increase monitoring frequency";
      JStr "Review policy limits";
      JStr "Escalate to management" ]) ] in
  open_write filepath [JsonDump (Some 2%nat) risk_data] ;;
  logger_info ("Generated risk analysis: " +:+ filename) ;;
  d <- random_uniform 2 4 ;;
  time_sleep d.

(** The body of [backup_files]'s inner loop: nothing is copied, the copy
    is simulated by a sleep. *)
Definition backup_one (backup_dir file_path : path) : M unit :=
  is_f <- get (fun w => is_file (fs w) file_path) ;;
  if is_f : bool then
    let backup_path := backup_dir // List.last file_path "" in
    time_sleep (1 # 10)
  else ret tt.

(** [backup_files]. *)
Definition backup_files : M unit :=
  now <- datetime_now ;;
  let backup_dir := work_dir self // "Backups" // strftime_Ymd now in
  mkdir_parents_exist_ok backup_dir ;;
  let source_dirs := [work_dir self // "Financial_Reports"; work_dir self // "Client_Data"] in
  for_each source_dirs (fun source_dir =>
    ex <- get (fun w => path_exists (fs w) source_dir) ;;
    if ex : bool then
      files <- iterdir source_dir ;;
      for_each files (backup_one backup_dir)
    else ret tt) ;;
  logger_info ("Backup operation completed to " +:+ path_str backup_dir) ;;
  d <- random_uniform 5 10 ;;
  time_sleep d.

(** [access_regulatory_docs]. *)
Definition access_regulatory_docs : M unit :=
  let reg_docs := ["Basel_III_Guidelines.pdf"; "FDIC_Regulations.pdf";
                   "SOX_Compliance.docx"; "GDPR_Banking.pdf"; "AML_Guidelines.txt"] in
  doc_name <- random_choice reg_docs ;;
  let filepath := work_dir self // "Regulatory_Docs" // doc_name in
  accessed <- datetime_now ;;
  let reg_content :=
    nl +:+ "REGULATORY DOCUMENT - " +:+ doc_name +:+ nl +:+
    "Last Accessed: " +:+ isoformat accessed +:+ nl +:+
    "Accessed By: " +:+ employee_name self +:+ nl +:+
    nl +:+ "This document contains regulatory guidelines and compliance requirements." +:+ nl +:+
    "Classification: Restricted Access" +:+ nl +:+
    "Review Required: Yes" +:+ nl in
  open_write filepath [Text reg_content] ;;
  logger_info ("Accessed regulatory document: " +:+ doc_name) ;;
  d <- random_uniform 10 20 ;;
  time_sleep d.

(** [simulate_file_operations]. *)
Definition simulate_file_operations : M unit :=
  let operations := [create_financial_report; update_client_data;
                     create_compliance_document; generate_risk_analysis;
                     backup_files; access_regulatory_docs] in
  operation <- random_choice operations ;;
  operation.

(** The body of the [try] statement of [simulate_application_usage]. *)
Definition application_usage_body (app : string) : M unit :=
  if str_in app ["Microsoft Excel"; "Microsoft Word"; "Microsoft Outlook"] then
    logger_info ("Opening " +:+ app +:+ " for banking work") ;;
    d <- random_uniform 3 8 ;;
    time_sleep d
  else if str_in app ["Safari"; "Chrome"] then
    website <- random_choice (banking_websites self) ;;
    logger_info ("Accessing " +:+ website +:+ " via " +:+ app) ;;
    d <- random_uniform 5 15 ;;
    time_sleep d
  else if String.eqb app "Terminal" then
    let commands := ["ls -la ~/Documents/BankWork";
                     "du -sh ~/Documents/BankWork/*";
                     "find . -name '*.xlsx' -mtime -1";
                     "grep -r 'CONFIDENTIAL' ~/Documents/BankWork/"] in
    cmd <- random_choice commands ;;
    logger_info ("Executing terminal command: " +:+ cmd) ;;
    d <- random_uniform 1 3 ;;
    time_sleep d
  else
    logger_info ("Using " +:+ app +:+ " for banking operations") ;;
    d <- random_uniform 2 5 ;;
    time_sleep d.

(** [simulate_application_usage]. *)
Definition simulate_application_usage : M unit :=
  app <- random_choice (applications self) ;;
  try_except
    (application_usage_body app)
    (fun e =>
       if is_Exception e
       then Some (logger_error ("Error simulating " +:+ app +:+ ": " +:+ str_exn e))
       else None).

(** [simulate_network_activity]. *)
Definition simulate_network_activity : M unit :=
  let activities := ["VPN connection check"; "Internal banking portal access";
                     "Email server synchronization"; "Database query execution";
                     "File server backup"; "Regulatory reporting upload"] in
  activity <- random_choice activities ;;
  logger_info ("Network activity: " +:+ activity) ;;
  d <- random_uniform 1 5 ;;
  time_sleep d.

Definition security_actions : list string :=
  ["Password policy compliance check"; "Two-factor authentication verification";
   "Security certificate validation"; "Encrypted file access";
   "Audit log review"; "Security policy acknowledgment"].

(** The dictionary [security_log] of [simulate_security_actions]. *)
Definition security_log (timestamp : datetime) (action : string) (n : Z) : json :=
  JDict [
    ("timestamp", JStr (isoformat timestamp));
    ("employee", JStr (employee_name self));
    ("action", JStr action);
    ("result", JStr "Success");
    ("ip_address", JStr ("192.168.1." +:+ pretty n));
    ("department", JStr (department self)) ].

(** [simulate_security_actions]. *)
Definition simulate_security_actions : M unit :=
  action <- random_choice security_actions ;;
  logger_info ("Security action: " +:+ action) ;;
  timestamp <- datetime_now ;;
  n <- random_randint 100 200 ;;
  let security_log_path := home_dir self // "security_events.log" in
  open_append security_log_path [Text (json_dumps (security_log timestamp action n) +:+ nl)] ;;
  d <- random_uniform 2 4 ;;
  time_sleep d.

(** *** The work-day scheduler *)

(** The condition [9 <= current_hour <= 17] of [simulate_work_day], named
    after the two regimes it separates. *)
Inductive Regime := WorkHours | AfterHours.
Definition regime_for (current_hour : Z) : Regime :=
  if (9 <=? current_hour) && (current_hour <=? 17) then WorkHours else AfterHours.

(** How one pass through the body of the [while] ends: at its end, or by
    [break]. *)
Inductive ctl := Continue | Break.

(** The catalog of [simulate_work_day]: each unit of work and its weight. *)
Definition work_activities : list (M unit * Q) :=
  [ (simulate_file_operations, (4 # 10)%Q);
    (simulate_application_usage, (3 # 10)%Q);
    (simulate_network_activity, (2 # 10)%Q);
    (simulate_security_actions, (1 # 10)%Q) ].

(** The branch taken during work hours. *)
Definition work_hours_branch (activities : list (M unit)) (weights : list Q) : M unit :=
  chosen <- random_choices activities weights ;;
  activity <- item0 chosen ;;
  activity ;;
  pause_time <- random_uniform 30 300 ;;
  time_sleep pause_time.

(** The branch taken outside work hours. *)
Definition after_hours_branch : M unit :=
  r <- random_random ;;
  (if Qlt_bool r (1 # 10) then simulate_security_actions else ret tt) ;;
  d <- random_uniform 300 1800 ;;
  time_sleep d.

(** The body of the [try] statement inside the loop. *)
Definition try_body (activities : list (M unit)) (weights : list Q) : M unit :=
  now <- datetime_now ;;
  let current_hour := dt_hour now in
  match regime_for current_hour with
  | WorkHours => work_hours_branch activities weights
  | AfterHours => after_hours_branch
  end.

(** One pass through the body of [while self.is_running]. *)
Definition loop_iteration (activities : list (M unit)) (weights : list Q) : M ctl :=
  try_except
    (try_body activities weights ;; ret Continue)
    (fun e =>
       match e with
       | KeyboardInterrupt =>
           Some (logger_info "Simulation interrupted by user" ;; ret Break)
       | _ =>
           Some (logger_error ("Error in work simulation: " +:+ str_exn e) ;;
                 time_sleep 60 ;;
                 ret Continue)
       end).

(** [while self.is_running: body].  The loop need not end, so it runs on
    fuel, one unit per test of the flag: [None] means the loop was still
    going when the fuel ran out. *)
Fixpoint while_running (fuel : nat) (body : M ctl) (w : World)
  : option (Result unit * World) :=
  match fuel with
  | O => None
  | S fuel' =>
      if is_running w then
        match body w with
        | (Ok Continue, w') => while_running fuel' body w'
        | (Ok Break, w') => Some (Ok tt, w')
        | (Raise e, w') => Some (Raise e, w')
        end
      else Some (Ok tt, w)
  end.

(** [simulate_work_day]: the catalog is the local list of the method, and
    the two lists are filled from it by its first loop. *)
Definition simulate_work_day (fuel : nat) (w : World) : option (Result unit * World) :=
  let activities := map fst work_activities in
  let weights := map snd work_activities in
  while_running fuel (loop_iteration activities weights) w.

(** [start_simulation]. *)
Definition start_simulation (fuel : nat) (w : World) : option (Result unit * World) :=
  match (modify (set_is_running true) ;;
         logger_info ("Starting banking employee simulation for " +:+ employee_name self)) w with
  | (Raise e, w') => Some (Raise e, w')
  | (Ok _, w') =>
      match simulate_work_day fuel w' with
      | None => None
      | Some (Raise KeyboardInterrupt, w'') => Some (stop_simulation w'')
      | Some r => Some r
      end
  end.

(** *** The daily report *)

Record DailyReport := mkDailyReport {
  date : string;
  employee : string;
  report_department : string;
  files_created : Z;
  applications_used : Z;
  network_activities : Z;
  security_events : Z;
  work_hours : Q;
  suspicious_activities : Z
}.

(** The dictionary as [json.dump] sees it, keys in insertion order. *)
Definition report_json (r : DailyReport) : json :=
  JDict [
    ("date", JStr (date r));
    ("employee", JStr (employee r));
    ("department", JStr (report_department r));
    ("files_created", JInt (files_created r));
    ("applications_used", JInt (applications_used r));
    ("network_activities", JInt (network_activities r));
    ("security_events", JInt (security_events r));
    ("work_hours", JFloat (work_hours r));
    ("suspicious_activities", JInt (suspicious_activities r)) ].

(** [generate_daily_report]. *)
Definition generate_daily_report : M DailyReport :=
  today <- datetime_now ;;
  fc <- random_randint 5 15 ;;
  au <- random_randint 3 8 ;;
  na <- random_randint 10 25 ;;
  se <- random_randint 2 8 ;;
  wh <- random_uniform (75 # 10) 9 ;;
  sa <- random_randint 0 2 ;;
  let report := mkDailyReport (strftime_Y_m_d today) (employee_name self) (department self)
                              fc au na se (py_round wh 1) sa in
  now <- datetime_now ;;
  let report_path := work_dir self // ("daily_report_" +:+ strftime_Ymd now +:+ ".json") in
  open_write report_path [JsonDump (Some 2%nat) (report_json report)] ;;
  logger_info ("Daily report generated: " +:+ path_str report_path) ;;
  ret report.

End Methods.

(** [BankingEmployeeSimulator(employee_name, department)]: [__init__]
    fills the attributes, configures logging (which creates the log file)
    and sets the workspace up. *)
Definition new_simulator (name dept : string) : M Simulator :=
  home <- get env_home ;;
  let self := mkSimulator name dept home
                (home // "Documents" // "BankWork")
                (home // "Downloads" // "temp_banking")
                ["Microsoft Excel"; "Microsoft Word"; "Microsoft Outlook";
                 "Safari"; "Chrome"; "Calculator"; "Preview"; "Numbers";
                 "Terminal"; "Activity Monitor"; "Keychain Access"]
                ["https://internal-banking-portal.testbank.com";
                 "https://core-banking.testbank.com";
                 "https://regulatory-reporting.testbank.com";
                 "https://risk-management.testbank.com";
                 "https://customer-portal.testbank.com"] in
  modify (set_is_running false) ;;
  open_append (home // "banking_simulation.log") [] ;;
  setup_workspace self ;;
  ret self.

(** [s * n] for a string. *)
Fixpoint str_mul (s : string) (n : nat) : string :=
  match n with
  | O => ""
  | S n' => s +:+ str_mul s n'
  end.

Definition employees : list (string * string) :=
  [ ("Sarah Chen", "Finance");
    ("Michael Rodriguez", "Risk Management");
    ("Jennifer Miller", "Compliance");
    ("David Wilson", "IT");
    ("Lisa Thompson", "Operations") ].

(** What [main] does when [KeyboardInterrupt] reaches it. *)
Definition main_on_interrupt (simulator : Simulator) : M unit :=
  print [Text (nl +:+ "Stopping simulation...")] ;;
  stop_simulation ;;
  print [Text "Generating daily report..."] ;;
  report <- generate_daily_report simulator ;;
  print [Text "Final Report: "; JsonDump (Some 2%nat) (report_json report)].

(** [main] up to its [try] statement: the banner, the choice of the
    employee and the construction of the simulator. *)
Definition main_setup : M Simulator :=
  print [Text "Banking Employee Behavior Simulator for macOS"] ;;
  print [Text (str_mul "=" 50)] ;;
  chosen <- random_choice employees ;;
  let '(name, dept) := chosen in
  simulator <- new_simulator name dept ;;
  print [Text ("Simulating behavior for: " +:+ name +:+ " (" +:+ dept +:+ ")")] ;;
  print [Text "Press Ctrl+C to stop the simulation"] ;;
  print [Text (str_mul "-" 50)] ;;
  ret simulator.

(** [main]. *)
Definition main (fuel : nat) (w : World) : option (Result unit * World) :=
  match main_setup w with
  | (Raise e, w') => Some (Raise e, w')
  | (Ok simulator, w') =>
      match start_simulation simulator fuel w' with
      | None => None
      | Some (Raise KeyboardInterrupt, w'') => Some (main_on_interrupt simulator w'')
      | Some r => Some r
      end
  end.

(** The exit status of the process: 0 when [main] returns, 1 when an
    exception escapes it. *)
Definition exit_status (r : Result unit) : Z :=
  match r with
  | Ok _ => 0
  | Raise _ => 1
  end.

(** ** Notions used to state the properties *)

(** The number of ERROR records in a trace. *)
Definition is_error_record (e : Q * event) : bool :=
  match snd e with
  | EvLog ERROR _ => true
  | _ => false
  end.
Definition error_records (tr : list (Q * event)) : nat :=
  length (filter (fun e => is_error_record e = true) tr).

(** A computation that logs no ERROR record. *)
Definition logs_no_error {A} (c : M A) : Prop :=
  forall w r w', c w = (r, w') -> error_records (trace w') = error_records (trace w).

(** A computation that only the interrupt can make raise. *)
Definition only_interrupt {A} (c : M A) : Prop :=
  forall w e w', c w = (Raise e, w') -> e = KeyboardInterrupt.

(** A computation that leaves the file system as it found it. *)
Definition keeps_fs {A} (c : M A) : Prop :=
  forall w r w', c w = (r, w') -> fs w' = fs w.


(** The events of a trace, without their times. *)
Definition events (w : World) : list event := map snd (trace w).

(** One source directory of [backup_files]. *)
Definition backup_source (backup_dir source_dir : path) : M unit :=
  ex <- get (fun w => path_exists (fs w) source_dir) ;;
  if ex : bool then
    files <- iterdir source_dir ;;
    for_each files (backup_one backup_dir)
  else ret tt.

(** What [backup_files] does once the backup directory is there. *)
Definition backup_walk (self : Simulator) (backup_dir : path) : M unit :=
  for_each [work_dir self // "Financial_Reports"; work_dir self // "Client_Data"]
    (fun source_dir =>
       ex <- get (fun w => path_exists (fs w) source_dir) ;;
       if ex : bool then
         files <- iterdir source_dir ;;
         for_each files (backup_one backup_dir)
       else ret tt) ;;
  logger_info ("Backup operation completed to " +:+ path_str backup_dir) ;;
  d <- random_uniform 5 10 ;;
  time_sleep d.


(** The files that [backup_files] walks over in one source directory. *)
Definition files_in (f : gmap path node) (dir : path) : list path :=
  if is_dir f dir then filter (fun q => is_file f q = true) (children f dir) else [].

(** No external event is due within the next [d] seconds. *)
Definition quiet (d : Q) (w : World) : bool :=
  match pending w with
  | [] => true
  | (s, _) :: _ => negb (Qle_bool s (clock w + d))
  end.

(** The world in which the loop goes on after it absorbed the error [e],
    raised in the world [w1]. *)
Definition after_backoff (e : exn) (w1 : World) : World :=
  set_clock (clock w1 + 60)%Q
    (emit (EvSleep 60)
       (emit (EvLog ERROR ("Error in work simulation: " +:+ str_exn e)) w1)).

(** The variate that the [k]-th coming call of [random.random()] returns. *)
Definition variate (w : World) (k : nat) : Q :=
  Qmake (Z.of_N (draws w (cursor w + k)%nat) mod Z.pos two53) two53.

(** ** Observations on traces *)

(** The number of records [Banking employee simulation stopped] in a
    trace. *)
Definition is_stopped_record (e : Q * event) : bool :=
  match snd e with
  | EvLog INFO msg => String.eqb msg "Banking employee simulation stopped"
  | _ => false
  end.
Definition stopped_records (tr : list (Q * event)) : nat :=
  length (filter (fun e => is_stopped_record e = true) tr).

(** Whether a text holds a line feed. *)
Fixpoint has_newline (s : string) : bool :=
  match s with
  | EmptyString => false
  | String c rest => (N_of_ascii c =? 10)%N || has_newline rest
  end.

(** [d.get(k)] on a dictionary value. *)
Definition dict_get (k : string) (v : json) : option json :=
  match v with
  | JDict kv => snd <$> List.find (fun p => String.eqb (fst p) k) kv
  | _ => None
  end.

(** The content of a file, empty when there is none. *)
Definition content_of (f : gmap path node) (p : path) : list piece :=
  match f !! p with Some (File c) => c | _ => [] end.

(** What was printed, in order. *)
Definition printed (tr : list (Q * event)) : list (list piece) :=
  omap (fun e => match snd e with EvPrint out => Some out | _ => None end) tr.

(** A trace with its times and durations as reduced fractions. *)
Definition reduced_trace (tr : list (Q * event)) : list (Q * event) :=
  map (fun e => (Qred (fst e),
                 match snd e with
                 | EvSleep d => EvSleep (Qred d)
                 | ev => ev
                 end)) tr.

(** What a run of the loop or of [main] left behind: how it returned, the
    time at which it ended, the flag, and the reduced trace. *)
Record Outcome := mkOutcome {
  returned : Result unit;
  ended_at : Q;
  still_running : bool;
  happened : list (Q * event)
}.
Definition outcome (run : option (Result unit * World)) : option Outcome :=
  match run with
  | None => None
  | Some (r, w) =>
      Some (mkOutcome r (Qred (clock w)) (is_running w) (reduced_trace (trace w)))
  end.

(** ** Concrete scenarios, used to exercise the theorems *)

Module Scenario.

Definition home : path := ["Users"; "sarah"].

(** The simulator [BankingEmployeeSimulator("Sarah Chen", "Finance")]. *)
Definition sarah : Simulator :=
  mkSimulator "Sarah Chen" "Finance" home
    (home // "Documents" // "BankWork") (home // "Downloads" // "temp_banking")
    ["Microsoft Excel"; "Microsoft Word"; "Microsoft Outlook";
     "Safari"; "Chrome"; "Calculator"; "Preview"; "Numbers";
     "Terminal"; "Activity Monitor"; "Keychain Access"]
    ["https://internal-banking-portal.testbank.com";
     "https://core-banking.testbank.com";
     "https://regulatory-reporting.testbank.com";
     "https://risk-management.testbank.com";
     "https://customer-portal.testbank.com"].

(** 2025-11-03 at 10:00:00 and at 20:00:00, local time. *)
Definition ten_am : Q := inject_Z 1762164000.
Definition eight_pm : Q := inject_Z 1762200000.

(** A machine on which only the home directory exists. *)
Definition bare_fs : gmap path node := {[ ["Users"] := Dir; home := Dir ]}.

(** A process that has not started the simulation yet: every draw is 0. *)
Definition idle (t : Q) : World :=
  mkWorld t (fun _ => 0%N) 0 bare_fs [] false [] home.

(** A machine whose home directory is gone, with the simulation running. *)
Definition homeless (t : Q) : World :=
  mkWorld t (fun _ => 0%N) 0 ∅ [] true [] home.

(** The same after [__init__] and [self.is_running = True]. *)
Definition started (t : Q) : World :=
  set_is_running true (snd (new_simulator "Sarah Chen" "Finance" (idle t))).

(** The started process after one financial report and one client-data
    update were written. *)
Definition with_files : World :=
  snd ((create_financial_report sarah ;; update_client_data sarah) (started ten_am)).

End Scenario.


(** ** Notions used to state further properties *)

(** A computation whose every run takes the file system from [f] to some
    [f'] with [R f f']. *)
Definition fs_moves (R : gmap path node -> gmap path node -> Prop) {A} (c : M A) : Prop :=
  forall w r w', c w = (r, w') -> R (fs w) (fs w').

(** An entry that was written: it appeared, or it was a file and is a file
    of another content. *)
Definition rewritten (o o' : option node) : Prop :=
  (o = None /\ is_Some o') \/
  (exists c c', o = Some (File c) /\ o' = Some (File c')).

(** Two file systems that differ only by entries written where [W] allows
    and by directories created where [D] allows.  Nothing goes away and
    nothing changes its kind. *)
Definition moved (W D : path -> Prop) (f f' : gmap path node) : Prop :=
  forall p, f' !! p = f !! p \/
            (W p /\ rewritten (f !! p) (f' !! p)) \/
            (D p /\ f !! p = None /\ f' !! p = Some Dir).

(** All writing is confined to the tree of [root]: entries are written on
    or below it, and its missing ancestors may be created. *)
Definition confined (root : path) : gmap path node -> gmap path node -> Prop :=
  moved (fun p => root `prefix_of` p) (fun p => p `prefix_of` root).

(** The same, with writing also allowed at the one path [sink]. *)
Definition confined_or_at (root sink : path) : gmap path node -> gmap path node -> Prop :=
  moved (fun p => root `prefix_of` p \/ p = sink) (fun p => p `prefix_of` root).

(** The same, with writing also allowed at each of the paths [others]. *)
Definition confined_or_among (root : path) (others : list path)
  : gmap path node -> gmap path node -> Prop :=
  moved (fun p => root `prefix_of` p \/ In p others) (fun p => p `prefix_of` root).

(** The file at [sink] only grew. *)
Definition grew_at (sink : path) (f f' : gmap path node) : Prop :=
  exists extra, content_of f' sink = content_of f sink ++ extra.

(** Whether a run on fuel ended, and the result and the world it ended with
    (those of [d] when it did not), for closed statements. *)
Definition has_ended (run : option (Result unit * World)) : bool :=
  match run with Some _ => true | None => false end.
Definition ended (d : Result unit * World) (run : option (Result unit * World))
  : Result unit * World := default d run.

(** A computation that, run while no external event is pending, leaves none
    pending, leaves the flag alone, does not turn the clock back and does
    not raise [KeyboardInterrupt]. *)
Definition calm {A} (c : M A) : Prop :=
  forall w r w', pending w = [] -> c w = (r, w') ->
    pending w' = [] /\ is_running w' = is_running w /\
    (clock w <= clock w')%Q /\ r <> Raise KeyboardInterrupt.

(** A computation that, run while no external event is pending, takes at
    least [n] seconds whenever it returns. *)
Definition advances (n : Q) (c : M unit) : Prop :=
  forall w w', pending w = [] -> c w = (Ok tt, w') -> (clock w + n <= clock w')%Q.

(** The list [directories] of [setup_workspace]. *)
Definition directories (self : Simulator) : list path :=
  [ work_dir self // "Financial_Reports";
    work_dir self // "Client_Data";
    work_dir self // "Regulatory_Docs";
    work_dir self // "Internal_Memos";
    work_dir self // "Risk_Analysis";
    work_dir self // "Compliance";
    temp_dir self ].

(** A file lies in the way of the directory [d]: at [d] itself or at a
    place above it. *)
Definition file_in_the_way (f : gmap path node) (d : path) : Prop :=
  exists q content, q `prefix_of` d /\ f !! q = Some (File content).

(** The records [tr] carry times in order, from [lo] on and up to [hi]. *)
Fixpoint in_order (lo : Q) (tr : list (Q * event)) (hi : Q) : Prop :=
  match tr with
  | [] => (lo <= hi)%Q
  | (t, _) :: rest => (lo <= t)%Q /\ in_order t rest hi
  end.

(** The flag went from [b] to [b'] while the records [added] were logged:
    it is as it was, or it was cleared and a record says so. *)
Definition flag_told (b b' : bool) (added : list (Q * event)) : Prop :=
  b' = b \/
  (b' = false /\
   exists t, In (t, EvLog INFO "Banking employee simulation stopped") added).

(** A computation that only adds records to the trace, stamped in order
    between the time at which it starts and the time at which it ends, and
    that clears the flag only with a record of it. *)
Definition orderly {A} (c : M A) : Prop :=
  forall w r w', c w = (r, w') ->
    exists added, trace w' = trace w ++ added /\
      in_order (clock w) added (clock w') /\
      flag_told (is_running w) (is_running w') added.

(** *** A workspace in which no unit of work can fail *)

(** The subdirectories of the work directory in which the units of work
    write their files. *)
Definition written_subdirs : list string :=
  ["Financial_Reports"; "Client_Data"; "Compliance"; "Risk_Analysis"; "Regulatory_Docs"].

(** Every directory on the way from [pre] down [rest] exists. *)
Fixpoint dirs_from (f : gmap path node) (pre : path) (rest : list string) : bool :=
  match rest with
  | [] => true
  | c :: rest' => is_dir f (pre // c) && dirs_from f (pre // c) rest'
  end.
Definition dirs_down (f : gmap path node) (p : path) : bool := dirs_from f [] p.

(** [p] lies directly below [dir]. *)
Definition child_of (dir p : path) : bool :=
  bool_decide (p <> [] /\ removelast p = dir).

(** An entry that is in nobody's way: not a directory where a unit of work
    writes a file (directly below a written subdirectory, or at the sink
    of the security events), and not a file where [backup_files] makes its
    directories. *)
Definition entry_ok (home work : path) (p : path) (n : node) : bool :=
  match n with
  | Dir => negb (bool_decide (p = home // "security_events.log")) &&
           forallb (fun sub => negb (child_of (work // sub) p)) written_subdirs
  | File _ => negb (bool_decide (p = work // "Backups")) &&
              negb (child_of (work // "Backups") p)
  end.

(** The workspace of [self] is in order: the written subdirectories and
    the home directory exist, and no entry is in the way. *)
Definition healthy (self : Simulator) (f : gmap path node) : Prop :=
  Forall (fun sub => dirs_down f (work_dir self // sub) = true) written_subdirs /\
  dirs_down f (home_dir self) = true /\
  map_Forall (fun p n => entry_ok (home_dir self) (work_dir self) p n = true) f.

(** A computation that keeps the workspace in order and that, started in
    such a workspace, only the interrupt can make raise. *)
Definition safe (self : Simulator) {A} (c : M A) : Prop :=
  forall w r w', healthy self (fs w) -> c w = (r, w') ->
    healthy self (fs w') /\ forall e, r = Raise e -> e = KeyboardInterrupt.

(** The home directory exists and is empty. *)
Definition empty_home (home : path) (f : gmap path node) : Prop :=
  dirs_down f home = true /\
  map_Forall (fun p (_ : node) => ~ (home `prefix_of` p /\ p <> home)) f.

(** *** Runs in which only [stop()] is called *)

(** Only calls of [stop()] are pending: the interrupt is not sent. *)
Definition stops_only (evs : list (Q * ext)) : bool :=
  forallb (fun e => match snd e with ExtStop => true | ExtInterrupt => false end) evs.

(** The time asked for by the sleeps that a trace records. *)
Fixpoint slept (tr : list (Q * event)) : Q :=
  match tr with
  | [] => 0
  | (_, EvSleep d) :: rest => d + slept rest
  | _ :: rest => slept rest
  end.

(** The next external event is due: its time has come. *)
Definition due (w : World) : bool :=
  match pending w with
  | (s, _) :: _ => Qle_bool s (clock w)
  | [] => false
  end.

(** From [w] to [w'] every sleep was slept in full: the clock of [w'] is
    where the sleeps begun since [w] end when none is cut short; a stop
    that was met cleared the flag and was logged; and if time has passed,
    no stop is left that was due by now. *)
Definition slept_through (w w' : World) : Prop :=
  stops_only (pending w') = true /\
  (clock w <= clock w')%Q /\
  (due w' = false \/ (pending w' = pending w /\ clock w' = clock w)) /\
  exists added,
    trace w' = trace w ++ added /\
    (clock w' == clock w + slept added)%Q /\
    ((pending w' = pending w /\ is_running w' = is_running w) \/
     (is_running w' = false /\
      exists t, In (t, EvLog INFO "Banking employee simulation stopped") added)).

(** A computation that calls of [stop()] do not hurry: run while only
    stops are pending, it is not interrupted and sleeps every sleep in
    full. *)
Definition unhurried {A} (c : M A) : Prop :=
  forall w r w', stops_only (pending w) = true -> c w = (r, w') ->
    r <> Raise KeyboardInterrupt /\ slept_through w w'.

(** A computation that, while only stops are pending, takes at least [n]
    seconds whenever it returns. *)
Definition paced (n : Q) (c : M unit) : Prop :=
  forall w w', stops_only (pending w) = true -> c w = (Ok tt, w') ->
    (clock w + n <= clock w')%Q.
(** * Properties *)

(** ** Running the monad symbolically *)

Ltac run_py :=
  cbn [bind ret raise get modify try_except next_draw random_random random_uniform
       random_randint datetime_now logger_info logger_error print emit
       open_write open_append
       set_clock set_cursor set_fs set_trace set_is_running set_pending
       clock draws cursor fs trace is_running pending env_home
       Z.ltb Z.compare Pos.compare Pos.compare_cont fst snd].

Lemma bind_unfold {A B} (c : M A) (k : A -> M B) w :
  bind c k w = match c w with (Ok a, w') => k a w' | (Raise e, w') => (Raise e, w') end.
Proof. reflexivity. Qed.

(** ** The random source stays in range *)

Lemma random_random_spec w :
  exists u, random_random w = (Ok u, set_cursor (S (cursor w)) w) /\ (0 <= u)%Q /\ (u < 1)%Q.
Proof.
  eexists. split; [reflexivity|].
  pose proof (Z.mod_pos_bound (Z.of_N (draws w (cursor w))) (Z.pos two53) eq_refl) as [H1 H2].
  split; [unfold Qle | unfold Qlt]; simpl; lia.
Qed.

Lemma uniform_range (a b u : Q) :
  (a <= b)%Q -> (0 <= u)%Q -> (u < 1)%Q -> (a <= a + (b - a) * u)%Q /\ (a + (b - a) * u <= b)%Q.
Proof. intros. split; nra. Qed.

Lemma random_uniform_spec a b w :
  (a <= b)%Q ->
  exists d, random_uniform a b w = (Ok d, set_cursor (S (cursor w)) w) /\ (a <= d)%Q /\ (d <= b)%Q.
Proof.
  intros Hab. destruct (random_random_spec w) as (u & Hu & H0 & H1).
  exists (a + (b - a) * u)%Q. split.
  - unfold random_uniform, bind. rewrite Hu. reflexivity.
  - by apply uniform_range.
Qed.

Lemma random_randint_spec a b w :
  a <= b ->
  exists z, random_randint a b w = (Ok z, set_cursor (S (cursor w)) w) /\ a <= z <= b.
Proof.
  intros Hab. unfold random_randint.
  destruct (b <? a) eqn:E; [lia|].
  eexists. split; [reflexivity|].
  pose proof (Z.mod_pos_bound (Z.of_N (draws w (cursor w))) (b - a + 1)). lia.
Qed.

Lemma randint_value_range (a b : Z) (r : N) :
  a <= b -> a <= a + Z.of_N r mod (b - a + 1) <= b.
Proof. intros H. pose proof (Z.mod_pos_bound (Z.of_N r) (b - a + 1)). lia. Qed.

Lemma random_value_range (r : N) :
  (0 <= Z.of_N r mod Z.pos two53 # two53)%Q /\ (Z.of_N r mod Z.pos two53 # two53 < 1)%Q.
Proof.
  pose proof (Z.mod_pos_bound (Z.of_N r) (Z.pos two53) eq_refl) as [H1 H2].
  split; [unfold Qle | unfold Qlt]; simpl; lia.
Qed.

(** ** Comparisons and rounding *)

Lemma Qlt_bool_false x y : Qlt_bool x y = false -> (y <= x)%Q.
Proof. unfold Qlt_bool. intros H. apply Qle_bool_iff. by destruct (Qle_bool y x). Qed.

Lemma Qlt_bool_true x y : Qlt_bool x y = true -> (x < y)%Q.
Proof.
  unfold Qlt_bool. intros H. apply Qnot_le_lt. intros Hle.
  apply Qle_bool_iff in Hle. rewrite Hle in H. discriminate.
Qed.

Lemma round_half_even_bounds (lo hi : Z) (y : Q) :
  (inject_Z lo <= y)%Q -> (y <= inject_Z hi)%Q ->
  lo <= round_half_even y <= hi.
Proof.
  intros Hlo Hhi. unfold round_half_even.
  assert (Hf1 : lo <= Qfloor y).
  { rewrite <- (Qfloor_Z lo). by apply Qfloor_resp_le. }
  assert (Hf2 : Qfloor y <= hi).
  { rewrite <- (Qfloor_Z hi). by apply Qfloor_resp_le. }
  assert (Hup : (1 # 2 <= y - inject_Z (Qfloor y))%Q -> Qfloor y + 1 <= hi).
  { intros Hr.
    assert (Hlt : (inject_Z (Qfloor y) < inject_Z hi)%Q) by lra.
    rewrite <- Zlt_Qlt in Hlt. lia. }
  destruct (Qlt_bool (y - inject_Z (Qfloor y)) (1 # 2)) eqn:E1; [lia|].
  apply Qlt_bool_false in E1. specialize (Hup E1).
  destruct (Qlt_bool (1 # 2) (y - inject_Z (Qfloor y))); [lia|].
  destruct (Z.even (Qfloor y)); lia.
Qed.

Lemma py_round_work_hours (x : Q) :
  (75 # 10 <= x)%Q -> (x <= 9)%Q ->
  (75 # 10 <= py_round x 1)%Q /\ (py_round x 1 <= 9)%Q.
Proof.
  intros H1 H2. unfold py_round.
  change (10 ^ Z.of_nat 1) with 10.
  pose proof (round_half_even_bounds 75 90 (x * inject_Z 10)) as Hb.
  destruct Hb as [Hb1 Hb2].
  { change (inject_Z 75) with 75%Q. change (inject_Z 10) with 10%Q. lra. }
  { change (inject_Z 90) with 90%Q. change (inject_Z 10) with 10%Q. lra. }
  set (z := round_half_even (x * inject_Z 10)) in *.
  unfold Qdiv, Qle, Qmult, Qinv; simpl. lia.
Qed.

(** ** Sleeping *)

Lemma time_sleep_calm d w :
  Qle_bool 0 d = true -> pending w = [] ->
  time_sleep d w = (Ok tt, set_clock (clock w + d)%Q (emit (EvSleep d) w)).
Proof.
  intros Hd Hp. unfold time_sleep. rewrite Hd. simpl. rewrite Hp. reflexivity.
Qed.

Lemma sleep_until_raises t evs w e w' :
  sleep_until t evs w = (Raise e, w') -> e = KeyboardInterrupt.
Proof.
  revert w. induction evs as [|[s ev] rest IH]; intros w; simpl.
  - discriminate.
  - destruct (Qle_bool s t); [|discriminate].
    destruct ev; [apply IH | congruence].
Qed.

Lemma time_sleep_raises d w e w' :
  Qle_bool 0 d = true -> time_sleep d w = (Raise e, w') -> e = KeyboardInterrupt.
Proof.
  intros Hd. unfold time_sleep. rewrite Hd. apply sleep_until_raises.
Qed.

Lemma sleep_until_fs t evs w : fs (snd (sleep_until t evs w)) = fs w.
Proof.
  revert w. induction evs as [|[s ev] rest IH]; intros w; simpl; [reflexivity|].
  destruct (Qle_bool s t); [|reflexivity].
  destruct ev; [rewrite IH|]; reflexivity.
Qed.

Lemma time_sleep_fs d w : fs (snd (time_sleep d w)) = fs w.
Proof.
  unfold time_sleep. destruct (Qle_bool 0 d); [|reflexivity].
  rewrite sleep_until_fs. reflexivity.
Qed.


(** ** Business hours *)

Lemma regime_for_work (h : Z) : regime_for h = WorkHours <-> 9 <= h <= 17.
Proof.
  unfold regime_for.
  destruct (9 <=? h) eqn:E1; destruct (h <=? 17) eqn:E2; simpl;
    split; intros H; try discriminate; try reflexivity; lia.
Qed.

Lemma regime_for_after (h : Z) : regime_for h = AfterHours <-> ~ (9 <= h <= 17).
Proof.
  rewrite <- regime_for_work. destruct (regime_for h); split; congruence.
Qed.

Lemma try_body_unfold self acts ws w :
  try_body self acts ws w =
  match regime_for (dt_hour (clock w)) with
  | WorkHours => work_hours_branch acts ws w
  | AfterHours => after_hours_branch self w
  end.
Proof.
  unfold try_body, bind, datetime_now, get. simpl.
  destruct (regime_for (dt_hour (clock w))); reflexivity.
Qed.

(** C5: an hour of [9, 17], both ends included, is classified as work hours
    and sends the loop into the weighted-selection branch; any other hour
    (8 and 18 in particular) is classified as after hours and sends it into
    the low-activity branch. *)
Theorem business_hours_policy (self : Simulator) (acts : list (M unit)) (ws : list Q)
    (w : World) (h : Z) :
  h = dt_hour (clock w) ->
  (9 <= h <= 17 ->
     regime_for h = WorkHours /\
     try_body self acts ws w = work_hours_branch acts ws w) /\
  (~ (9 <= h <= 17) ->
     regime_for h = AfterHours /\
     try_body self acts ws w = after_hours_branch self w) /\
  regime_for 9 = WorkHours /\ regime_for 17 = WorkHours /\
  regime_for 8 = AfterHours /\ regime_for 18 = AfterHours.
Proof.
  intros ->. repeat split; try reflexivity.
  - by apply regime_for_work.
  - rewrite try_body_unfold. apply regime_for_work in H. by rewrite H.
  - by apply regime_for_after.
  - rewrite try_body_unfold. apply regime_for_after in H. by rewrite H.
Qed.

Lemma business_hours_policy_witness :
  regime_for 10 = WorkHours /\
  try_body Scenario.sarah [] [] (Scenario.idle Scenario.ten_am)
  = work_hours_branch [] [] (Scenario.idle Scenario.ten_am).
Proof.
  refine (proj1 (business_hours_policy Scenario.sarah [] []
                   (Scenario.idle Scenario.ten_am) 10 _) _).
  - vm_compute. reflexivity.
  - lia.
Defined.

(** ** Stopping *)

Lemma stop_simulation_unfold w :
  stop_simulation w =
  (Ok tt, emit (EvLog INFO "Banking employee simulation stopped") (set_is_running false w)).
Proof. reflexivity. Qed.

(** C7, as the code has it: [stop()] always leaves the flag false and
    touches nothing but the flag and the log, yet every call logs one more
    [stopped] record, also when the simulation was stopped already. *)
Theorem stop_idempotent_on_flag_only (w : World) :
  let w1 := snd (stop_simulation w) in
  let w2 := snd (stop_simulation w1) in
  fst (stop_simulation w) = Ok tt /\ fst (stop_simulation w1) = Ok tt /\
  is_running w1 = false /\ is_running w2 = false /\
  clock w2 = clock w1 /\ fs w2 = fs w1 /\ cursor w2 = cursor w1 /\
  pending w2 = pending w1 /\
  trace w2 = trace w1 ++ [(clock w1, EvLog INFO "Banking employee simulation stopped")] /\
  stopped_records (trace w2) = S (stopped_records (trace w1)).
Proof.
  cbv zeta. rewrite !stop_simulation_unfold. simpl.
  repeat split; try reflexivity.
  unfold stopped_records. rewrite !filter_app, !length_app. simpl. lia.
Qed.

(** C7 fails as stated: on a simulation that never ran, two calls of
    [stop()] in a row leave two [stopped] records, and the second call,
    made when already stopped, changed the log. *)
Lemma stop_twice_logs_twice :
  let w1 := snd (stop_simulation (Scenario.idle Scenario.ten_am)) in
  let w2 := snd (stop_simulation w1) in
  is_running w1 = false /\
  stopped_records (trace w1) = 1%nat /\
  stopped_records (trace w2) = 2%nat /\
  trace w2 = trace w1 ++ [(Scenario.ten_am, EvLog INFO "Banking employee simulation stopped")].
Proof. vm_compute. repeat split; reflexivity. Qed.

(** ** The daily report *)

(** C8: every report that [generate_daily_report] returns has its counters
    in their ranges (files_created in [5,15], applications_used in [3,8],
    network_activities in [10,25], security_events in [2,8], work_hours in
    [7.5,9.0], suspicious_activities in [0,2]), the date of the call, and
    the simulator's employee and department; the call returns a report
    whenever the report file can be opened, and fails only with the error
    of opening it. *)
Theorem daily_report_counters (self : Simulator) (w : World) :
  let report_path :=
    work_dir self // ("daily_report_" +:+ strftime_Ymd (clock w) +:+ ".json") in
  (forall r w', generate_daily_report self w = (Ok r, w') ->
     5 <= files_created r <= 15 /\
     3 <= applications_used r <= 8 /\
     10 <= network_activities r <= 25 /\
     2 <= security_events r <= 8 /\
     (75 # 10 <= work_hours r)%Q /\ (work_hours r <= 9)%Q /\
     0 <= suspicious_activities r <= 2 /\
     date r = strftime_Y_m_d (clock w) /\
     employee r = employee_name self /\
     report_department r = department self /\
     fs w' !! report_path = Some (File [JsonDump (Some 2%nat) (report_json r)])) /\
  (open_error (fs w) report_path = None ->
     exists r w', generate_daily_report self w = (Ok r, w')) /\
  (forall e w', generate_daily_report self w = (Raise e, w') ->
     open_error (fs w) report_path = Some e).
Proof.
  destruct w as [c dr cu f tr ir pe eh]. cbv zeta.
  unfold generate_daily_report. run_py.
  unfold bind, open_write. run_py.
  destruct (open_error f _) as [e0|] eqn:Eopen.
  - split; [|split].
    + intros r w' H. discriminate.
    + intros H. discriminate.
    + intros e w' H. congruence.
  - split; [|split].
    + intros r w' H. injection H as <- <-. simpl.
      pose proof (random_value_range (dr (S (S (S (S cu)))))) as [Hu0 Hu1].
      split; [by apply randint_value_range|].
      split; [by apply randint_value_range|].
      split; [by apply randint_value_range|].
      split; [by apply randint_value_range|].
      split; [apply py_round_work_hours; nra|].
      split; [apply py_round_work_hours; nra|].
      split; [by apply randint_value_range|].
      repeat split. apply lookup_insert_eq.
    + intros _. eauto.
    + intros e w' H. discriminate.
Qed.

Lemma daily_report_counters_witness :
  exists r w',
    generate_daily_report Scenario.sarah (Scenario.started Scenario.ten_am) = (Ok r, w').
Proof.
  apply (proj1 (proj2 (daily_report_counters Scenario.sarah
                         (Scenario.started Scenario.ten_am)))).
  vm_compute. reflexivity.
Defined.

(** ** The security-event sink *)

Lemma has_newline_app s1 s2 :
  has_newline (s1 +:+ s2) = has_newline s1 || has_newline s2.
Proof.
  induction s1 as [|c s1 IH]; simpl; [reflexivity|].
  rewrite IH. by rewrite orb_assoc.
Qed.

Lemma json_escape_char_single_line c : has_newline (json_escape_char c) = false.
Proof.
  unfold json_escape_char.
  destruct (N_of_ascii c =? 34)%N; [reflexivity|].
  destruct (N_of_ascii c =? 92)%N; [reflexivity|].
  destruct (N_of_ascii c =? 10)%N eqn:E10; [reflexivity|].
  destruct (N_of_ascii c =? 13)%N; [reflexivity|].
  destruct (N_of_ascii c =? 9)%N; [reflexivity|].
  destruct (N_of_ascii c =? 8)%N; [reflexivity|].
  destruct (N_of_ascii c =? 12)%N; [reflexivity|].
  destruct ((32 <=? N_of_ascii c)%N && (N_of_ascii c <=? 126)%N).
  - simpl. by rewrite E10.
  - destruct c as [[] [] [] [] [] [] [] []]; reflexivity.
Qed.

Lemma json_escape_single_line s : has_newline (json_escape s) = false.
Proof.
  induction s as [|c s IH]; simpl; [reflexivity|].
  by rewrite has_newline_app, json_escape_char_single_line, IH.
Qed.

Lemma json_string_single_line s : has_newline (json_string s) = false.
Proof.
  unfold json_string. by rewrite !has_newline_app, json_escape_single_line.
Qed.

Lemma concat_single_line sep l :
  has_newline sep = false -> Forall (fun s => has_newline s = false) l ->
  has_newline (String.concat sep l) = false.
Proof.
  intros Hsep Hl. induction Hl as [|s l Hs Hl IH]; simpl; [reflexivity|].
  destruct l as [|s' l']; [done|].
  by rewrite !has_newline_app, Hs, Hsep, IH.
Qed.

Lemma security_log_single_line self t action n :
  has_newline (json_dumps (security_log self t action n)) = false.
Proof.
  unfold security_log. cbn [json_dumps map fst snd].
  rewrite !has_newline_app.
  rewrite concat_single_line; [reflexivity|reflexivity|].
  repeat constructor; by rewrite !has_newline_app, !json_string_single_line.
Qed.

Lemma nth_mod_In {A} (x : A) (l : list A) (r : N) :
  In (nth (N.to_nat (r mod N.of_nat (length (x :: l)))) (x :: l) x) (x :: l).
Proof.
  apply nth_In.
  pose proof (N.mod_lt r (N.of_nat (length (x :: l)))) as H.
  simpl length in *. lia.
Qed.

Lemma time_sleep_fs_eq d w r w' : time_sleep d w = (r, w') -> fs w' = fs w.
Proof. intros H. rewrite <- (time_sleep_fs d w), H. reflexivity. Qed.

(** C10: whatever [simulate_security_actions] appends to
    [security_events.log] is one line of JSON (the serialised record holds
    no line feed and is followed by one) whose [result] is the literal
    [Success] and whose [ip_address] is [192.168.1.N] with N in [100,200];
    nothing else in the file system changes, and when the sink cannot be
    opened nothing is recorded at all, so no failure is ever written. *)
Theorem security_sink_records (self : Simulator) (w : World) (r : Result unit) (w' : World) :
  simulate_security_actions self w = (r, w') ->
  let sink := home_dir self // "security_events.log" in
  (forall q, q <> sink -> fs w' !! q = fs w !! q) /\
  match open_error (fs w) sink with
  | Some e => r = Raise e /\ fs w' = fs w
  | None =>
      exists action n,
        In action security_actions /\ 100 <= n <= 200 /\
        let record := security_log self (clock w) action n in
        fs w' !! sink
        = Some (File (content_of (fs w) sink ++ [Text (json_dumps record +:+ nl)])) /\
        has_newline (json_dumps record) = false /\
        dict_get "result" record = Some (JStr "Success") /\
        dict_get "ip_address" record = Some (JStr ("192.168.1." +:+ pretty n))
  end.
Proof.
  destruct w as [c dr cu f tr ir pe eh].
  unfold simulate_security_actions, random_choice, security_actions. run_py.
  unfold bind, open_append. run_py.
  destruct (open_error f _) as [e0|] eqn:Eopen.
  - intros H. injection H as <- <-. simpl. auto.
  - intros H. apply time_sleep_fs_eq in H. simpl in H. rewrite H. split.
    + intros q Hq. by rewrite lookup_insert_ne.
    + eexists _, _. split; [apply nth_mod_In|].
      split; [by apply randint_value_range|].
      cbv zeta. split; [apply lookup_insert_eq|].
      split; [apply security_log_single_line|].
      split; reflexivity.
Qed.

Lemma security_sink_records_witness :
  let w := Scenario.started Scenario.eight_pm in
  let run := simulate_security_actions Scenario.sarah w in
  let sink := home_dir Scenario.sarah // "security_events.log" in
  (simulate_security_actions Scenario.sarah w = (fst run, snd run)) /\
  open_error (fs w) sink = None /\
  (exists action n,
     In action security_actions /\ 100 <= n <= 200 /\
     let record := security_log Scenario.sarah (clock w) action n in
     fs (snd run) !! sink
     = Some (File (content_of (fs w) sink ++ [Text (json_dumps record +:+ nl)])) /\
     has_newline (json_dumps record) = false /\
     dict_get "result" record = Some (JStr "Success") /\
     dict_get "ip_address" record = Some (JStr ("192.168.1." +:+ pretty n))).
Proof.
  cbv zeta.
  assert (Hopen : open_error (fs (Scenario.started Scenario.eight_pm))
                    (home_dir Scenario.sarah // "security_events.log") = None)
    by (vm_compute; reflexivity).
  split; [apply surjective_pairing|]. split; [exact Hopen|].
  pose proof (proj2 (security_sink_records Scenario.sarah
                       (Scenario.started Scenario.eight_pm) _ _
                       (surjective_pairing _))) as H.
  cbv zeta in H. exact H.
Defined.

(** ** The backup operation *)
(** ** The file system under [mkdir] *)

Lemma length_div_path (p : path) (c : string) : length (p // c) = S (length p).
Proof. unfold div_path. rewrite length_app. simpl. lia. Qed.

Section Mkdir.
Variable target : path.

(** [mkdir] adds directories and nothing else, and only at most as deep
    as its argument. *)
Lemma mkdir_from_frame rest : forall pre f r f',
  mkdir_from target pre rest f = (r, f') ->
  forall p, f' !! p = f !! p \/
            (f !! p = None /\ f' !! p = Some Dir /\
             (length pre < length p <= length pre + length rest)%nat).
Proof.
  induction rest as [|c rest IH]; intros pre f r f' H p; simpl in H.
  - injection H as <- <-. by left.
  - destruct (f !! (pre // c)) as [[|content]|] eqn:E.
    + destruct (IH _ _ _ _ H p) as [Hp|(H1 & H2 & H3)]; [by left|right].
      rewrite length_div_path in H3. simpl. repeat split; auto; lia.
    + injection H as <- <-. by left.
    + destruct (IH _ _ _ _ H p) as [Hp|(H1 & H2 & H3)].
      * destruct (decide (p = pre // c)) as [->|Hne].
        -- right. rewrite Hp, lookup_insert_eq, length_div_path.
           simpl. repeat split; auto; lia.
        -- left. by rewrite Hp, lookup_insert_ne.
      * destruct (decide (p = pre // c)) as [->|Hne].
        -- rewrite lookup_insert_eq in H1. discriminate.
        -- rewrite lookup_insert_ne in H1 by done. right.
           rewrite length_div_path in H3. simpl. repeat split; auto; lia.
Qed.

Lemma mkdir_from_keeps_dirs rest pre f r f' p :
  mkdir_from target pre rest f = (r, f') -> f !! p = Some Dir -> f' !! p = Some Dir.
Proof.
  intros H Hp. destruct (mkdir_from_frame _ _ _ _ _ H p) as [E|(E & _)].
  - by rewrite E.
  - rewrite Hp in E. discriminate.
Qed.

Lemma mkdir_from_files rest pre f r f' p content :
  mkdir_from target pre rest f = (r, f') ->
  f' !! p = Some (File content) <-> f !! p = Some (File content).
Proof.
  intros H. destruct (mkdir_from_frame _ _ _ _ _ H p) as [E|(E1 & E2 & _)].
  - by rewrite E.
  - rewrite E1, E2. split; discriminate.
Qed.

(** A successful [mkdir] leaves its argument a directory. *)
Lemma mkdir_from_is_dir rest : forall pre f f',
  is_dir f pre = true ->
  mkdir_from target pre rest f = (Ok tt, f') -> is_dir f' (pre ++ rest) = true.
Proof.
  induction rest as [|c rest IH]; intros pre f f' Hpre H; simpl in H.
  - injection H as <-. by rewrite app_nil_r.
  - assert (Hq : forall g, g !! (pre // c) = Some Dir -> is_dir g (pre // c) = true).
    { intros g Hg. unfold is_dir, div_path in *. rewrite Hg. by destruct pre. }
    replace (pre ++ c :: rest) with ((pre // c) ++ rest)
      by (unfold div_path; by rewrite <- app_assoc).
    destruct (f !! (pre // c)) as [[|content]|] eqn:E.
    + eapply IH; [|exact H]. by apply Hq.
    + discriminate.
    + eapply IH; [|exact H]. apply Hq. apply lookup_insert_eq.
Qed.

(** Doing it again changes nothing. *)
Lemma mkdir_from_again rest : forall pre f f',
  mkdir_from target pre rest f = (Ok tt, f') ->
  mkdir_from target pre rest f' = (Ok tt, f').
Proof.
  induction rest as [|c rest IH]; intros pre f f' H; simpl in *.
  - reflexivity.
  - destruct (f !! (pre // c)) as [[|content]|] eqn:E.
    + rewrite (mkdir_from_keeps_dirs _ _ _ _ _ _ H E). by eapply IH.
    + discriminate.
    + rewrite (mkdir_from_keeps_dirs _ _ _ _ _ (pre // c) H) by apply lookup_insert_eq.
      by eapply IH.
Qed.

End Mkdir.

(** ** Computations that leave the file system alone *)

Lemma keeps_fs_ret {A} (a : A) : keeps_fs (ret a).
Proof. intros w r w' H. by injection H as <- <-. Qed.

Lemma keeps_fs_get {A} (f : World -> A) : keeps_fs (get f).
Proof. intros w r w' H. by injection H as <- <-. Qed.

Lemma keeps_fs_bind {A B} (c : M A) (k : A -> M B) :
  keeps_fs c -> (forall a, keeps_fs (k a)) -> keeps_fs (bind c k).
Proof.
  intros Hc Hk w r w' H. unfold bind in H.
  destruct (c w) as [[a|e] w1] eqn:E.
  - rewrite (Hk _ _ _ _ H). by eapply Hc.
  - injection H as <- <-. by eapply Hc.
Qed.

Lemma keeps_fs_logger_info msg : keeps_fs (logger_info msg).
Proof. intros w r w' H. by injection H as <- <-. Qed.

Lemma keeps_fs_time_sleep d : keeps_fs (time_sleep d).
Proof. intros w r w'. apply time_sleep_fs_eq. Qed.

Lemma keeps_fs_random_uniform a b : keeps_fs (random_uniform a b).
Proof. intros w r w' H. by injection H as <- <-. Qed.

Lemma keeps_fs_iterdir p : keeps_fs (iterdir p).
Proof.
  intros w r w' H. unfold iterdir in H.
  destruct (is_dir (fs w) p); [by injection H as <- <-|].
  destruct (is_file (fs w) p); by injection H as <- <-.
Qed.

Lemma keeps_fs_for_each {A} (xs : list A) (body : A -> M unit) :
  (forall x, keeps_fs (body x)) -> keeps_fs (for_each xs body).
Proof.
  intros Hb. induction xs as [|x xs IH]; simpl.
  - apply keeps_fs_ret.
  - apply keeps_fs_bind; auto.
Qed.

Lemma keeps_fs_backup_one bd q : keeps_fs (backup_one bd q).
Proof.
  unfold backup_one. apply keeps_fs_bind; [apply keeps_fs_get|].
  intros []; [apply keeps_fs_time_sleep | apply keeps_fs_ret].
Qed.

Lemma backup_files_unfold self w :
  backup_files self w =
  (mkdir_parents_exist_ok (work_dir self // "Backups" // strftime_Ymd (clock w)) ;;
   backup_walk self (work_dir self // "Backups" // strftime_Ymd (clock w))) w.
Proof. reflexivity. Qed.

Lemma keeps_fs_backup_walk self bd : keeps_fs (backup_walk self bd).
Proof.
  unfold backup_walk.
  apply keeps_fs_bind.
  - apply keeps_fs_for_each. intros x.
    apply keeps_fs_bind; [apply keeps_fs_get|].
    intros []; [|apply keeps_fs_ret].
    apply keeps_fs_bind; [apply keeps_fs_iterdir|].
    intros files. apply keeps_fs_for_each. apply keeps_fs_backup_one.
  - intros _. apply keeps_fs_bind; [apply keeps_fs_logger_info|].
    intros _. apply keeps_fs_bind; [apply keeps_fs_random_uniform|].
    intros d. apply keeps_fs_time_sleep.
Qed.

(** The file system after [backup_files] is the one [mkdir] left. *)
Lemma backup_files_fs self w r w' :
  backup_files self w = (r, w') ->
  let bd := work_dir self // "Backups" // strftime_Ymd (clock w) in
  fs w' = snd (mkdir_from bd [] bd (fs w)).
Proof.
  rewrite backup_files_unfold. cbv zeta.
  set (bd := work_dir self // "Backups" // strftime_Ymd (clock w)).
  unfold bind, mkdir_parents_exist_ok.
  destruct (mkdir_from bd [] bd (fs w)) as [[[]|e] f1] eqn:E; simpl.
  - intros H. apply keeps_fs_backup_walk in H. by rewrite H.
  - intros H. by injection H as <- <-.
Qed.

Lemma for_each_backup_one_calm bd files : forall w,
  pending w = [] ->
  exists w', for_each files (backup_one bd) w = (Ok tt, w') /\
             pending w' = [] /\ fs w' = fs w /\
             events w' = events w ++
               repeat (EvSleep (1 # 10))
                      (length (filter (fun q => is_file (fs w) q = true) files)).
Proof.
  induction files as [|q files IH]; intros w Hp.
  - exists w. simpl. by rewrite app_nil_r.
  - cbn [for_each]. rewrite bind_unfold. unfold backup_one at 1.
    rewrite bind_unfold. unfold get.
    rewrite filter_cons. destruct (is_file (fs w) q) eqn:Eq.
    + rewrite time_sleep_calm by done.
      destruct (IH (set_clock (clock w + (1 # 10))%Q (emit (EvSleep (1 # 10)) w)) Hp)
        as (w' & Hrun & Hp' & Hfs & Hev).
      exists w'. split; [exact Hrun|]. split; [done|]. split; [done|].
      rewrite decide_True by done. rewrite Hev. unfold events. simpl.
      rewrite map_app. simpl. by rewrite <- app_assoc.
    + destruct (IH w Hp) as (w' & Hrun & Hp' & Hfs & Hev).
      exists w'. split; [exact Hrun|]. rewrite decide_False by done. done.
Qed.

Lemma backup_source_calm bd dir w :
  pending w = [] ->
  (exists e, backup_source bd dir w = (Raise e, w)) \/
  (exists w', backup_source bd dir w = (Ok tt, w') /\
              pending w' = [] /\ fs w' = fs w /\
              events w' = events w ++
                repeat (EvSleep (1 # 10)) (length (files_in (fs w) dir))).
Proof.
  intros Hp. unfold backup_source, files_in. rewrite bind_unfold. unfold get, path_exists.
  destruct (is_dir (fs w) dir) eqn:Ed; simpl.
  - right. rewrite bind_unfold. unfold iterdir. rewrite Ed.
    destruct (for_each_backup_one_calm bd (children (fs w) dir) w Hp)
      as (w' & Hrun & Hp' & Hfs & Hev).
    exists w'. auto.
  - destruct (is_file (fs w) dir) eqn:Ef.
    + left. rewrite bind_unfold. unfold iterdir. rewrite Ed, Ef. eauto.
    + right. exists w. simpl. by rewrite app_nil_r.
Qed.

Lemma backup_walk_unfold self bd :
  backup_walk self bd =
  ((backup_source bd (work_dir self // "Financial_Reports") ;;
    backup_source bd (work_dir self // "Client_Data") ;;
    ret tt) ;;
   logger_info ("Backup operation completed to " +:+ path_str bd) ;;
   d <- random_uniform 5 10 ;;
   time_sleep d).
Proof. reflexivity. Qed.

(** All of [backup_walk] when no external event is pending. *)
Lemma backup_walk_calm self bd w w' :
  pending w = [] ->
  backup_walk self bd w = (Ok tt, w') ->
  exists d, (5 <= d)%Q /\ (d <= 10)%Q /\
    events w' = events w ++
      repeat (EvSleep (1 # 10))
             (length (files_in (fs w) (work_dir self // "Financial_Reports")) +
              length (files_in (fs w) (work_dir self // "Client_Data"))) ++
      [EvLog INFO ("Backup operation completed to " +:+ path_str bd); EvSleep d].
Proof.
  intros Hp. rewrite backup_walk_unfold.
  rewrite bind_unfold, bind_unfold.
  destruct (backup_source_calm bd (work_dir self // "Financial_Reports") w Hp)
    as [[e He]|(w1 & H1 & Hp1 & Hfs1 & Hev1)]; [rewrite He; discriminate|].
  rewrite H1. rewrite bind_unfold.
  destruct (backup_source_calm bd (work_dir self // "Client_Data") w1 Hp1)
    as [[e He]|(w2 & H2 & Hp2 & Hfs2 & Hev2)]; [rewrite He; discriminate|].
  rewrite H2. cbn [ret].
  rewrite bind_unfold. cbn [logger_info modify].
  rewrite bind_unfold.
  destruct (random_uniform_spec 5 10 (emit (EvLog INFO ("Backup operation completed to " +:+ path_str bd)) w2))
    as (d & Hd & Hd1 & Hd2); [done|].
  rewrite Hd. rewrite time_sleep_calm; [|by apply Qle_bool_iff; lra|done].
  intros H. injection H as <-.
  exists d. split; [done|]. split; [done|].
  unfold events in *. simpl. rewrite !map_app. simpl.
  rewrite Hev2, Hev1, Hfs1, repeat_app, <- !app_assoc. reflexivity.
Qed.

Lemma length_child (q : path) :
  q <> [] -> length q = S (length (removelast q)).
Proof.
  intros Hq. rewrite (app_removelast_last "" Hq) at 1.
  rewrite length_app. simpl. lia.
Qed.

(** C9: [backup_files] creates the dated directory under [Backups] and
    nothing else: no file is created, changed or removed, directories are
    only added, nothing is put into the backup directory, and making the
    directory again changes nothing.  Undisturbed, it sleeps 0.1 s for each
    file of [Financial_Reports] and [Client_Data], logs the completion and
    dwells between 5 and 10 s. *)
Theorem backup_files_frame (self : Simulator) (w : World) (r : Result unit) (w' : World) :
  backup_files self w = (r, w') ->
  let backup_dir := work_dir self // "Backups" // strftime_Ymd (clock w) in
  (forall p content,
     fs w' !! p = Some (File content) <-> fs w !! p = Some (File content)) /\
  (forall p, fs w !! p = Some Dir -> fs w' !! p = Some Dir) /\
  (forall q, q <> [] -> removelast q = backup_dir -> fs w' !! q = fs w !! q) /\
  (r = Ok tt ->
     is_dir (fs w') backup_dir = true /\
     fst (mkdir_parents_exist_ok backup_dir w') = Ok tt /\
     fs (snd (mkdir_parents_exist_ok backup_dir w')) = fs w') /\
  (r = Ok tt -> pending w = [] ->
     exists d, (5 <= d)%Q /\ (d <= 10)%Q /\
       events w' = events w ++
         repeat (EvSleep (1 # 10))
                (length (files_in (fs w') (work_dir self // "Financial_Reports")) +
                 length (files_in (fs w') (work_dir self // "Client_Data"))) ++
         [EvLog INFO ("Backup operation completed to " +:+ path_str backup_dir);
          EvSleep d]).
Proof.
  intros Hrun. cbv zeta.
  set (bd := work_dir self // "Backups" // strftime_Ymd (clock w)).
  pose proof (backup_files_fs _ _ _ _ Hrun) as Hfs. cbv zeta in Hfs. fold bd in Hfs.
  rewrite backup_files_unfold in Hrun. fold bd in Hrun.
  unfold bind, mkdir_parents_exist_ok in Hrun.
  destruct (mkdir_from bd [] bd (fs w)) as [r1 f1] eqn:Emk.
  simpl in Hfs. subst f1.
  split; [|split; [|split; [|split]]].
  - intros p content. eapply mkdir_from_files, Emk.
  - intros p. eapply mkdir_from_keeps_dirs, Emk.
  - intros q Hq Hparent.
    destruct (mkdir_from_frame _ _ _ _ _ _ Emk q) as [E|(_ & _ & Hlen)]; [done|].
    rewrite (length_child q Hq), Hparent in Hlen. simpl in Hlen. lia.
  - intros ->. destruct r1 as [[]|e]; [|by injection Hrun as Hr _].
    split; [exact (mkdir_from_is_dir bd bd [] _ _ eq_refl Emk)|].
    unfold mkdir_parents_exist_ok.
    rewrite (mkdir_from_again _ _ _ _ _ Emk). by split.
  - intros -> Hp. destruct r1 as [[]|e]; [|by injection Hrun as Hr _].
    apply backup_walk_calm in Hrun; [|done].
    exact Hrun.
Qed.

Lemma backup_files_frame_witness :
  let run := backup_files Scenario.sarah Scenario.with_files in
  (backup_files Scenario.sarah Scenario.with_files = (fst run, snd run)) /\
  fst run = Ok tt /\ pending Scenario.with_files = [] /\
  (exists d, (5 <= d)%Q /\ (d <= 10)%Q /\
     events (snd run) = events Scenario.with_files ++
       repeat (EvSleep (1 # 10)) 2 ++
       [EvLog INFO
          "Backup operation completed to /Users/sarah/Documents/BankWork/Backups/20251103";
        EvSleep d]).
Proof.
  cbv zeta.
  assert (Hok : fst (backup_files Scenario.sarah Scenario.with_files) = Ok tt)
    by (vm_compute; reflexivity).
  split; [apply surjective_pairing|]. split; [exact Hok|]. split; [reflexivity|].
  destruct (backup_files_frame Scenario.sarah Scenario.with_files _ _
              (surjective_pairing _)) as (_ & _ & _ & _ & H).
  destruct (H Hok eq_refl) as (d & Hd1 & Hd2 & Hev).
  exists d. split; [exact Hd1|]. split; [exact Hd2|].
  rewrite Hev. f_equal.
Defined.

(** ** The scheduler loop *)

Lemma time_sleep_quiet d w :
  Qle_bool 0 d = true -> quiet d w = true ->
  time_sleep d w = (Ok tt, set_clock (clock w + d)%Q (emit (EvSleep d) w)).
Proof.
  intros Hd Hq. unfold time_sleep. rewrite Hd. unfold quiet in Hq. simpl.
  destruct (pending w) as [|[s ev] rest]; [reflexivity|]. simpl.
  destruct (Qle_bool s (clock w + d)); [discriminate|reflexivity].
Qed.

Lemma loop_iteration_unfold self acts ws w :
  loop_iteration self acts ws w =
  match try_body self acts ws w with
  | (Ok _, w1) => (Ok Continue, w1)
  | (Raise KeyboardInterrupt, w1) =>
      (Ok Break, emit (EvLog INFO "Simulation interrupted by user") w1)
  | (Raise e, w1) =>
      match time_sleep 60 (emit (EvLog ERROR ("Error in work simulation: " +:+ str_exn e)) w1) with
      | (Ok _, w2) => (Ok Continue, w2)
      | (Raise e2, w2) => (Raise e2, w2)
      end
  end.
Proof.
  unfold loop_iteration, try_except. rewrite bind_unfold.
  destruct (try_body self acts ws w) as [[[]|e] w1]; [reflexivity|].
  destruct e; reflexivity.
Qed.

(** Only the interrupt can leave an iteration as an exception. *)
Lemma loop_iteration_raises self acts ws w e w' :
  loop_iteration self acts ws w = (Raise e, w') -> e = KeyboardInterrupt.
Proof.
  rewrite loop_iteration_unfold.
  destruct (try_body self acts ws w) as [[[]|e1] w1]; [discriminate|].
  destruct e1; try discriminate;
    match goal with
    | |- context [time_sleep 60 ?w0] =>
        destruct (time_sleep 60 w0) as [[[]|e2] w2] eqn:E; [discriminate|];
        intros H; injection H as <- <-;
        exact (time_sleep_raises 60 _ _ _ eq_refl E)
    end.
Qed.

Lemma while_running_raises fuel body : forall w e w',
  (forall w0 e0 w0', body w0 = (Raise e0, w0') -> e0 = KeyboardInterrupt) ->
  while_running fuel body w = Some (Raise e, w') -> e = KeyboardInterrupt.
Proof.
  induction fuel as [|fuel IH]; intros w e w' Hb; simpl; [discriminate|].
  destruct (is_running w); [|discriminate].
  destruct (body w) as [[[]|e1] w1] eqn:E.
  - by apply IH.
  - discriminate.
  - intros H. injection H as <- <-. by eapply Hb.
Qed.

(** [start_simulation] never hands an exception to its caller. *)
Lemma start_simulation_returns self fuel w r w' :
  start_simulation self fuel w = Some (r, w') -> r = Ok tt.
Proof.
  unfold start_simulation. run_py. unfold simulate_work_day.
  match goal with
  | |- context [while_running fuel ?b ?w0] =>
      destruct (while_running fuel b w0) as [[[[]|e] w1]|] eqn:E
  end.
  - intros H. by injection H as <- <-.
  - apply while_running_raises in E; [|intros; by eapply loop_iteration_raises].
    subst e. rewrite stop_simulation_unfold. intros H. by injection H as <- <-.
  - discriminate.
Qed.

(** ** Units of work do not swallow errors *)

Lemma only_interrupt_bind {A B} (c : M A) (k : A -> M B) :
  only_interrupt c -> (forall a, only_interrupt (k a)) -> only_interrupt (bind c k).
Proof.
  intros Hc Hk w e w' H. rewrite bind_unfold in H.
  destruct (c w) as [[a|e1] w1] eqn:E.
  - by eapply Hk.
  - injection H as <- <-. by eapply Hc.
Qed.

Lemma only_interrupt_logger_info msg : only_interrupt (logger_info msg).
Proof. intros w e w' H. discriminate. Qed.

Lemma only_interrupt_random_choice {A} (seq : list A) :
  seq <> [] -> only_interrupt (random_choice seq).
Proof. intros Hne w e w' H. destruct seq; [done|discriminate]. Qed.

(** Sleeping for [uniform(a, b)] seconds, with [0 <= a <= b]. *)
Lemma only_interrupt_dwell (a b : Q) :
  (0 <= a)%Q -> (a <= b)%Q ->
  only_interrupt (d <- random_uniform a b ;; time_sleep d).
Proof.
  intros Ha Hab w e w' H. rewrite bind_unfold in H.
  destruct (random_uniform_spec a b w Hab) as (d & Hd & Hd1 & Hd2).
  rewrite Hd in H. eapply time_sleep_raises; [|exact H].
  apply Qle_bool_iff. lra.
Qed.

Lemma application_usage_body_only_interrupt self app :
  banking_websites self <> [] -> only_interrupt (application_usage_body self app).
Proof.
  intros Hne. unfold application_usage_body.
  destruct (str_in app _).
  { apply only_interrupt_bind; [apply only_interrupt_logger_info|].
    intros _. by apply only_interrupt_dwell. }
  destruct (str_in app _).
  { apply only_interrupt_bind; [by apply only_interrupt_random_choice|].
    intros website.
    apply only_interrupt_bind; [apply only_interrupt_logger_info|].
    intros _. by apply only_interrupt_dwell. }
  destruct (String.eqb app "Terminal").
  { apply only_interrupt_bind; [by apply only_interrupt_random_choice|].
    intros cmd.
    apply only_interrupt_bind; [apply only_interrupt_logger_info|].
    intros _. by apply only_interrupt_dwell. }
  apply only_interrupt_bind; [apply only_interrupt_logger_info|].
  intros _. by apply only_interrupt_dwell.
Qed.

(** The [except Exception] clause of [simulate_application_usage] never
    runs: nothing in its [try] can raise an [Exception]. *)
Lemma application_usage_swallows_nothing self w :
  banking_websites self <> [] ->
  simulate_application_usage self w =
  (app <- random_choice (applications self) ;; application_usage_body self app) w.
Proof.
  intros Hne. unfold simulate_application_usage. rewrite !bind_unfold.
  destruct (random_choice (applications self) w) as [[app|e] w1]; [|reflexivity].
  unfold try_except.
  destruct (application_usage_body self app w1) as [[[]|e] w2] eqn:E; [reflexivity|].
  by rewrite (application_usage_body_only_interrupt self app Hne _ _ _ E).
Qed.

(** ** Who logs errors *)

Create HintDb no_error discriminated.

Lemma error_records_snoc tr t ev :
  error_records (tr ++ [(t, ev)])
  = (error_records tr + if is_error_record (t, ev) then 1 else 0)%nat.
Proof.
  unfold error_records. rewrite filter_app, length_app. f_equal.
  rewrite filter_cons, filter_nil. destruct (is_error_record (t, ev)); reflexivity.
Qed.

(** Computations that do not touch the trace at all. *)
Lemma logs_no_error_same_trace {A} (c : M A) :
  (forall w r w', c w = (r, w') -> trace w' = trace w) -> logs_no_error c.
Proof. intros H w r w' E. by rewrite (H _ _ _ E). Qed.

Lemma logs_no_error_ret {A} (a : A) : logs_no_error (ret a).
Proof. apply logs_no_error_same_trace. intros w r w' H. by injection H as <- <-. Qed.

Lemma logs_no_error_raise {A} e : logs_no_error (@raise A e).
Proof. apply logs_no_error_same_trace. intros w r w' H. by injection H as <- <-. Qed.

Lemma logs_no_error_get {A} (f : World -> A) : logs_no_error (get f).
Proof. apply logs_no_error_same_trace. intros w r w' H. by injection H as <- <-. Qed.

Lemma logs_no_error_bind {A B} (c : M A) (k : A -> M B) :
  logs_no_error c -> (forall a, logs_no_error (k a)) -> logs_no_error (bind c k).
Proof.
  intros Hc Hk w r w' H. rewrite bind_unfold in H.
  destruct (c w) as [[a|e] w1] eqn:E.
  - rewrite (Hk _ _ _ _ H). by eapply Hc.
  - injection H as <- <-. by eapply Hc.
Qed.

Lemma logs_no_error_logger_info msg : logs_no_error (logger_info msg).
Proof.
  intros w r w' H. injection H as <- <-. simpl.
  rewrite error_records_snoc. simpl. lia.
Qed.

Lemma logs_no_error_random_random : logs_no_error random_random.
Proof. apply logs_no_error_same_trace. intros w r w' H. by injection H as <- <-. Qed.

Lemma logs_no_error_random_uniform a b : logs_no_error (random_uniform a b).
Proof. apply logs_no_error_same_trace. intros w r w' H. by injection H as <- <-. Qed.

Lemma logs_no_error_random_randint a b : logs_no_error (random_randint a b).
Proof.
  apply logs_no_error_same_trace. intros w r w' H. unfold random_randint in H.
  destruct (b <? a); by injection H as <- <-.
Qed.

Lemma logs_no_error_random_choice {A} (seq : list A) : logs_no_error (random_choice seq).
Proof.
  apply logs_no_error_same_trace. intros w r w' H.
  destruct seq; by injection H as <- <-.
Qed.

Lemma logs_no_error_random_choices {A} (population : list A) weights :
  logs_no_error (random_choices population weights).
Proof.
  apply logs_no_error_same_trace. intros w r w' H. unfold random_choices in H.
  destruct (negb _); [by injection H as <- <-|].
  destruct (last _); [|by injection H as <- <-].
  destruct population; [by injection H as <- <-|].
  destruct (Qle_bool _ _); by injection H as <- <-.
Qed.

Lemma logs_no_error_item0 {A} (l : list A) : logs_no_error (item0 l).
Proof.
  apply logs_no_error_same_trace. intros w r w' H.
  destruct l; by injection H as <- <-.
Qed.

Lemma sleep_until_error_records t evs : forall w,
  error_records (trace (snd (sleep_until t evs w))) = error_records (trace w).
Proof.
  induction evs as [|[s ev] rest IH]; intros w; simpl; [reflexivity|].
  destruct (Qle_bool s t); [|reflexivity].
  destruct ev; [|reflexivity].
  rewrite IH. simpl. rewrite error_records_snoc. simpl. lia.
Qed.

Lemma logs_no_error_time_sleep d : logs_no_error (time_sleep d).
Proof.
  intros w r w' H. unfold time_sleep in H.
  destruct (Qle_bool 0 d); [|by injection H as <- <-].
  replace w' with (snd (sleep_until (clock w + d) (pending (emit (EvSleep d) w))
                          (emit (EvSleep d) w))) by (by rewrite H).
  rewrite sleep_until_error_records. simpl.
  rewrite error_records_snoc. simpl. lia.
Qed.

Lemma logs_no_error_open_write p content : logs_no_error (open_write p content).
Proof.
  apply logs_no_error_same_trace. intros w r w' H. unfold open_write in H.
  destruct (open_error _ _); by injection H as <- <-.
Qed.

Lemma logs_no_error_open_append p content : logs_no_error (open_append p content).
Proof.
  apply logs_no_error_same_trace. intros w r w' H. unfold open_append in H.
  destruct (open_error _ _); by injection H as <- <-.
Qed.

Lemma logs_no_error_mkdir p : logs_no_error (mkdir_parents_exist_ok p).
Proof.
  apply logs_no_error_same_trace. intros w r w' H. unfold mkdir_parents_exist_ok in H.
  destruct (mkdir_from _ _ _ _). by injection H as <- <-.
Qed.

Lemma logs_no_error_iterdir p : logs_no_error (iterdir p).
Proof.
  apply logs_no_error_same_trace. intros w r w' H. unfold iterdir in H.
  destruct (is_dir _ _); [by injection H as <- <-|].
  destruct (is_file _ _); by injection H as <- <-.
Qed.

Lemma logs_no_error_for_each {A} (xs : list A) (body : A -> M unit) :
  (forall x, logs_no_error (body x)) -> logs_no_error (for_each xs body).
Proof.
  intros Hb. induction xs as [|x xs IH]; simpl.
  - apply logs_no_error_ret.
  - apply logs_no_error_bind; auto.
Qed.

#[local] Hint Resolve logs_no_error_ret logs_no_error_raise logs_no_error_get
  logs_no_error_logger_info logs_no_error_random_random logs_no_error_random_uniform
  logs_no_error_random_randint logs_no_error_random_choice logs_no_error_random_choices
  logs_no_error_item0 logs_no_error_time_sleep logs_no_error_open_write
  logs_no_error_open_append logs_no_error_mkdir logs_no_error_iterdir : no_error.

(** Walks down a chain of binds. *)
Ltac no_error_chain :=
  repeat first
    [ apply logs_no_error_bind; [solve [auto with no_error] | intros ?]
    | solve [auto with no_error] ].

Lemma nth_default_In {A} (x : A) (l : list A) (i : nat) : In (nth i (x :: l) x) (x :: l).
Proof.
  destruct (Nat.lt_ge_cases i (length (x :: l))) as [Hlt|Hge].
  - by apply nth_In.
  - rewrite nth_overflow by done. by left.
Qed.

Lemma logs_no_error_bind_post {A B} (c : M A) (k : A -> M B) (P : A -> Prop) :
  logs_no_error c ->
  (forall w a w', c w = (Ok a, w') -> P a) ->
  (forall a, P a -> logs_no_error (k a)) ->
  logs_no_error (bind c k).
Proof.
  intros Hc HP Hk w r w' H. rewrite bind_unfold in H.
  destruct (c w) as [[a|e] w1] eqn:E.
  - rewrite (Hk a (HP _ _ _ E) _ _ _ H). by eapply Hc.
  - injection H as <- <-. by eapply Hc.
Qed.

Lemma random_choice_In {A} (seq : list A) w a w' :
  random_choice seq w = (Ok a, w') -> In a seq.
Proof.
  destruct seq as [|x l]; [discriminate|]. intros H. injection H as <- _.
  apply nth_default_In.
Qed.

Lemma random_choices_In {A} (population : list A) weights w chosen w' :
  random_choices population weights w = (Ok chosen, w') ->
  exists a, chosen = [a] /\ In a population.
Proof.
  unfold random_choices.
  destruct (negb _); [discriminate|].
  destruct (last _); [|discriminate].
  destruct population as [|x l]; [discriminate|].
  destruct (Qle_bool _ _); [discriminate|].
  intros H. injection H as <- _. eexists. split; [reflexivity|apply nth_default_In].
Qed.

(** Choosing a computation at random and running it. *)
Lemma logs_no_error_choose (seq : list (M unit)) :
  Forall logs_no_error seq ->
  logs_no_error (operation <- random_choice seq ;; operation).
Proof.
  intros Hseq.
  apply (logs_no_error_bind_post _ _ (fun a => In a seq)); [auto with no_error| |].
  - intros w a w'. apply random_choice_In.
  - intros a Ha. rewrite Forall_forall in Hseq. apply Hseq. by apply list_elem_of_In.
Qed.

Section UnitsLogNoError.
Variable self : Simulator.

Lemma logs_no_error_create_financial_report : logs_no_error (create_financial_report self).
Proof. unfold create_financial_report, datetime_now. no_error_chain. Qed.

Lemma logs_no_error_update_client_data : logs_no_error (update_client_data self).
Proof. unfold update_client_data, datetime_now. no_error_chain. Qed.

Lemma logs_no_error_create_compliance_document :
  logs_no_error (create_compliance_document self).
Proof. unfold create_compliance_document, datetime_now. no_error_chain. Qed.

Lemma logs_no_error_generate_risk_analysis : logs_no_error (generate_risk_analysis self).
Proof. unfold generate_risk_analysis, datetime_now. no_error_chain. Qed.

Lemma logs_no_error_backup_files : logs_no_error (backup_files self).
Proof.
  unfold backup_files, datetime_now.
  apply logs_no_error_bind; [auto with no_error|]. intros now.
  apply logs_no_error_bind; [auto with no_error|]. intros _.
  apply logs_no_error_bind.
  - apply logs_no_error_for_each. intros source_dir.
    apply logs_no_error_bind; [auto with no_error|]. intros [].
    + apply logs_no_error_bind; [auto with no_error|]. intros files.
      apply logs_no_error_for_each. intros file_path. unfold backup_one.
      apply logs_no_error_bind; [auto with no_error|]. intros []; auto with no_error.
    + auto with no_error.
  - intros _. no_error_chain.
Qed.

Lemma logs_no_error_access_regulatory_docs : logs_no_error (access_regulatory_docs self).
Proof. unfold access_regulatory_docs, datetime_now. no_error_chain. Qed.

Lemma logs_no_error_simulate_file_operations : logs_no_error (simulate_file_operations self).
Proof.
  unfold simulate_file_operations. apply logs_no_error_choose.
  repeat constructor;
    auto using logs_no_error_create_financial_report, logs_no_error_update_client_data,
      logs_no_error_create_compliance_document, logs_no_error_generate_risk_analysis,
      logs_no_error_backup_files, logs_no_error_access_regulatory_docs.
Qed.

Lemma logs_no_error_application_usage_body app :
  logs_no_error (application_usage_body self app).
Proof.
  unfold application_usage_body.
  destruct (str_in app _); [no_error_chain|].
  destruct (str_in app _); [no_error_chain|].
  destruct (String.eqb app "Terminal"); no_error_chain.
Qed.

Lemma logs_no_error_simulate_application_usage :
  banking_websites self <> [] -> logs_no_error (simulate_application_usage self).
Proof.
  intros Hne w r w' H. rewrite application_usage_swallows_nothing in H by done.
  revert w r w' H. apply logs_no_error_bind; [auto with no_error|].
  intros app. apply logs_no_error_application_usage_body.
Qed.

Lemma logs_no_error_simulate_network_activity :
  logs_no_error simulate_network_activity.
Proof. unfold simulate_network_activity. no_error_chain. Qed.

Lemma logs_no_error_simulate_security_actions :
  logs_no_error (simulate_security_actions self).
Proof. unfold simulate_security_actions, datetime_now. no_error_chain. Qed.

(** The body of the [try], over the catalog of the source, logs no ERROR
    record: only the handler of the loop does. *)
Lemma logs_no_error_work_activities :
  banking_websites self <> [] ->
  Forall logs_no_error (map fst (work_activities self)).
Proof.
  intros Hne. repeat constructor;
    auto using logs_no_error_simulate_file_operations,
      logs_no_error_simulate_application_usage,
      logs_no_error_simulate_network_activity,
      logs_no_error_simulate_security_actions.
Qed.

Lemma logs_no_error_try_body :
  banking_websites self <> [] ->
  logs_no_error (try_body self (map fst (work_activities self))
                               (map snd (work_activities self))).
Proof.
  intros Hne w r w'. rewrite try_body_unfold.
  pose proof (logs_no_error_work_activities Hne) as Hacts.
  rewrite Forall_forall in Hacts.
  destruct (regime_for _).
  - revert w r w'. unfold work_hours_branch.
    apply (logs_no_error_bind_post _ _
             (fun chosen => exists a, chosen = [a] /\
                                      In a (map fst (work_activities self))));
      [auto with no_error|intros w a w'; apply random_choices_In|].
    intros chosen (a & -> & Ha). cbn [item0].
    apply (logs_no_error_bind_post _ _ (fun b => b = a));
      [auto with no_error | by intros w b w' [= <-] |].
    intros activity ->.
    apply logs_no_error_bind; [apply Hacts; by apply list_elem_of_In|].
    intros _. no_error_chain.
  - revert w r w'. unfold after_hours_branch.
    apply logs_no_error_bind; [auto with no_error|]. intros u.
    apply logs_no_error_bind.
    + destruct (Qlt_bool u (1 # 10));
        [apply logs_no_error_simulate_security_actions | auto with no_error].
    + intros _. no_error_chain.
Qed.

End UnitsLogNoError.

(** C4: an error other than the interrupt, raised anywhere in the body of
    the [try] (so in particular by the unit of work), is caught by the loop:
    exactly one ERROR record is logged for it, the loop sleeps 60 seconds
    (no signal arriving meanwhile) and goes on with the next test of the
    flag; the loop is not ended, and no exception ever reaches the caller
    of [start_simulation].  No unit of work keeps an error from the loop
    (the only unit with a handler of its own never gets to run it), so over
    the catalog of the source the ERROR record of the loop is the only one
    of the whole iteration. *)
Theorem loop_absorbs_activity_errors (self : Simulator) (acts : list (M unit))
    (ws : list Q) (w : World) (e : exn) (w1 : World) :
  try_body self acts ws w = (Raise e, w1) ->
  is_Exception e = true ->
  quiet 60 w1 = true ->
  let w2 := after_backoff e w1 in
  loop_iteration self acts ws w = (Ok Continue, w2) /\
  trace w2 = trace w1 ++
    [(clock w1, EvLog ERROR ("Error in work simulation: " +:+ str_exn e));
     (clock w1, EvSleep 60)] /\
  clock w2 = (clock w1 + 60)%Q /\
  is_running w2 = is_running w1 /\
  fs w2 = fs w1 /\
  (forall fuel, is_running w = true ->
     while_running (S fuel) (loop_iteration self acts ws) w
     = while_running fuel (loop_iteration self acts ws) w2) /\
  (forall fuel w0 r w', start_simulation self fuel w0 = Some (r, w') -> r = Ok tt) /\
  (banking_websites self <> [] ->
   (forall w0,
      simulate_application_usage self w0 =
      (app <- random_choice (applications self) ;; application_usage_body self app) w0) /\
   (acts = map fst (work_activities self) -> ws = map snd (work_activities self) ->
    error_records (trace w2) = S (error_records (trace w)))).
Proof.
  intros Hbody He Hq. cbv zeta.
  assert (Hit : loop_iteration self acts ws w = (Ok Continue, after_backoff e w1)).
  { rewrite loop_iteration_unfold, Hbody.
    destruct e; try discriminate; by rewrite time_sleep_quiet. }
  split; [exact Hit|].
  split; [unfold after_backoff; simpl; by rewrite <- app_assoc|].
  split; [reflexivity|]. split; [reflexivity|]. split; [reflexivity|].
  split; [|split].
  - intros fuel Hr. simpl. by rewrite Hr, Hit.
  - intros fuel w0 r w'. apply start_simulation_returns.
  - intros Hne. split; [intros w0; by apply application_usage_swallows_nothing|].
    intros -> ->. unfold after_backoff. simpl.
    rewrite !error_records_snoc. simpl.
    rewrite (logs_no_error_try_body self Hne _ _ _ Hbody). lia.
Qed.

Lemma loop_absorbs_activity_errors_witness :
  let w := Scenario.homeless Scenario.eight_pm in
  let e := FileNotFoundError (Scenario.home // "security_events.log") in
  let w1 := snd (try_body Scenario.sarah [] [] w) in
  try_body Scenario.sarah [] [] w = (Raise e, w1) /\
  is_Exception e = true /\
  quiet 60 w1 = true /\
  loop_iteration Scenario.sarah [] [] w = (Ok Continue, after_backoff e w1).
Proof.
  cbv zeta.
  assert (H1 : try_body Scenario.sarah [] [] (Scenario.homeless Scenario.eight_pm)
               = (Raise (FileNotFoundError (Scenario.home // "security_events.log")),
                  snd (try_body Scenario.sarah [] [] (Scenario.homeless Scenario.eight_pm))))
    by (vm_compute; reflexivity).
  assert (H2 : quiet 60 (snd (try_body Scenario.sarah [] []
                                 (Scenario.homeless Scenario.eight_pm))) = true)
    by (vm_compute; reflexivity).
  split; [exact H1|]. split; [reflexivity|]. split; [exact H2|].
  exact (proj1 (loop_absorbs_activity_errors _ _ _ _ _ _ H1 eq_refl H2)).
Defined.

(** ** Outside work hours *)

Lemma time_sleep_calm' d w :
  (0 <= d)%Q -> pending w = [] ->
  time_sleep d w = (Ok tt, set_clock (clock w + d)%Q (emit (EvSleep d) w)).
Proof. intros Hd Hp. apply time_sleep_calm; [by apply Qle_bool_iff|done]. Qed.

Lemma variate_range w k : (0 <= variate w k)%Q /\ (variate w k < 1)%Q.
Proof. apply random_value_range. Qed.

Lemma loop_iteration_after_hours self acts ws w :
  regime_for (dt_hour (clock w)) = AfterHours ->
  loop_iteration self acts ws w = loop_iteration self [] [] w.
Proof.
  intros H. by rewrite !loop_iteration_unfold, !try_body_unfold, H.
Qed.

Lemma quiet_weaken (d1 d2 : Q) w :
  (d1 <= d2)%Q -> quiet d2 w = true -> quiet d1 w = true.
Proof.
  unfold quiet. destruct (pending w) as [|[s ev] rest]; [done|].
  intros Hd H. apply negb_true_iff in H. apply negb_true_iff.
  destruct (Qle_bool s (clock w + d1)) eqn:E; [|done].
  apply Qle_bool_iff in E.
  assert (Hle : Qle_bool s (clock w + d2) = true) by (apply Qle_bool_iff; lra).
  congruence.
Qed.

Lemma quiet_later (d1 d2 : Q) w w1 :
  pending w1 = pending w -> clock w1 = (clock w + d1)%Q ->
  quiet (d1 + d2) w = true -> quiet d2 w1 = true.
Proof.
  unfold quiet. intros -> ->. destruct (pending w) as [|[s ev] rest]; [done|].
  intros H. apply negb_true_iff in H. apply negb_true_iff.
  destruct (Qle_bool s (clock w + d1 + d2)) eqn:E; [|done].
  apply Qle_bool_iff in E.
  assert (Hle : Qle_bool s (clock w + (d1 + d2)) = true) by (apply Qle_bool_iff; lra).
  congruence.
Qed.

(** C6: outside work hours the catalog plays no part in the iteration.
    One variate is drawn as a coin: when it is below 0.1 the security action
    runs (its record logged, its event appended to the sink), otherwise
    nothing runs; either way the iteration then sleeps [300 + 1500 u]
    seconds for the next variate [u], a duration in [300, 1800].  This
    holds of every iteration during which no stop and no interrupt arrives
    (events may be pending for later) and, for the security action, whose
    sink can be opened. *)
Theorem after_hours_iteration (self : Simulator) (acts : list (M unit)) (ws : list Q)
    (w : World) :
  regime_for (dt_hour (clock w)) = AfterHours ->
  let coin := variate w 0 in
  let sink := home_dir self // "security_events.log" in
  loop_iteration self acts ws w = loop_iteration self [] [] w /\
  try_body self acts ws w = after_hours_branch self w /\
  (Qlt_bool coin (1 # 10) = false ->
     let d := (300 + (1800 - 300) * variate w 1)%Q in
     quiet d w = true ->
     exists w',
       loop_iteration self acts ws w = (Ok Continue, w') /\
       (300 <= d)%Q /\ (d <= 1800)%Q /\
       trace w' = trace w ++ [(clock w, EvSleep d)] /\
       clock w' = (clock w + d)%Q /\
       fs w' = fs w /\ is_running w' = is_running w /\ pending w' = pending w) /\
  (Qlt_bool coin (1 # 10) = true ->
     let dwell := (2 + (4 - 2) * variate w 3)%Q in
     let d := (300 + (1800 - 300) * variate w 4)%Q in
     quiet (dwell + d) w = true -> open_error (fs w) sink = None ->
     exists action n w',
       loop_iteration self acts ws w = (Ok Continue, w') /\
       In action security_actions /\ 100 <= n <= 200 /\
       (2 <= dwell)%Q /\ (dwell <= 4)%Q /\ (300 <= d)%Q /\ (d <= 1800)%Q /\
       events w' = events w ++
         [EvLog INFO ("Security action: " +:+ action); EvSleep dwell; EvSleep d] /\
       clock w' = (clock w + dwell + d)%Q /\
       content_of (fs w') sink =
         content_of (fs w) sink ++
         [Text (json_dumps (security_log self (clock w) action n) +:+ nl)] /\
       is_running w' = is_running w /\ pending w' = pending w).
Proof.
  intros Hreg. cbv zeta.
  split; [by apply loop_iteration_after_hours|].
  split; [by rewrite try_body_unfold, Hreg|].
  split.
  - intros Hcoin Hq.
    pose proof (variate_range w 1) as [Hu0 Hu1].
    assert (Hd : Qle_bool 0 (300 + (1800 - 300) * variate w 1) = true)
      by (apply Qle_bool_iff; nra).
    eexists. split.
    + rewrite loop_iteration_unfold, try_body_unfold, Hreg.
      unfold after_hours_branch. run_py. unfold variate in Hcoin.
      rewrite Nat.add_0_r in Hcoin. rewrite Hcoin. run_py.
      unfold variate in Hd, Hq. rewrite Nat.add_1_r in Hd, Hq.
      rewrite time_sleep_quiet; [reflexivity|exact Hd|].
      revert Hq. by destruct w.
    + clear Hq Hd. unfold variate in *. rewrite Nat.add_1_r in *. simpl.
      repeat split; try reflexivity; nra.
  - intros Hcoin Hq Hopen.
    pose proof (variate_range w 3) as [Hu0 Hu1].
    pose proof (variate_range w 4) as [Hv0 Hv1].
    assert (Hq1 : quiet (2 + (4 - 2) * variate w 3) w = true)
      by (eapply quiet_weaken; [|exact Hq]; nra).
    unfold variate in *.
    replace (cursor w + 0)%nat with (cursor w) in * by lia.
    replace (cursor w + 3)%nat with (S (S (S (cursor w)))) in * by lia.
    replace (cursor w + 4)%nat with (S (S (S (S (cursor w))))) in * by lia.
    destruct w as [c dr cu f tr ir pe eh].
    cbn [clock draws cursor fs trace is_running pending env_home] in *.
    eexists _, _, _. split.
    + rewrite loop_iteration_unfold, try_body_unfold. run_py. rewrite Hreg.
      unfold after_hours_branch. run_py. rewrite Hcoin.
      unfold simulate_security_actions, random_choice, security_actions. run_py.
      unfold bind, open_append. run_py.
      rewrite Hopen. run_py.
      rewrite time_sleep_quiet; [|apply Qle_bool_iff; nra|exact Hq1]. run_py.
      rewrite time_sleep_quiet; [reflexivity|apply Qle_bool_iff; nra|].
      eapply (quiet_later _ _ (mkWorld c dr cu f tr ir pe eh)); [| |exact Hq];
        reflexivity.
    + split; [apply nth_mod_In|].
      split; [by apply randint_value_range|].
      unfold events, content_of. simpl. rewrite !map_app, lookup_insert_eq. simpl.
      repeat split; try reflexivity; try nra.
      by rewrite <- !app_assoc.
Qed.

Lemma after_hours_iteration_witness :
  let w := set_pending [((Scenario.eight_pm + 86400)%Q, ExtStop)]
             (Scenario.started Scenario.eight_pm) in
  let sink := Scenario.home // "security_events.log" in
  let dwell := (2 + (4 - 2) * variate w 3)%Q in
  let d := (300 + (1800 - 300) * variate w 4)%Q in
  regime_for (dt_hour (clock w)) = AfterHours /\
  Qlt_bool (variate w 0) (1 # 10) = true /\
  quiet (dwell + d) w = true /\
  open_error (fs w) sink = None /\
  (exists action n w',
     loop_iteration Scenario.sarah [] [] w = (Ok Continue, w') /\
     In action security_actions /\ 100 <= n <= 200 /\
     (2 <= dwell)%Q /\ (dwell <= 4)%Q /\ (300 <= d)%Q /\ (d <= 1800)%Q /\
     events w' = events w ++
       [EvLog INFO ("Security action: " +:+ action); EvSleep dwell; EvSleep d] /\
     clock w' = (clock w + dwell + d)%Q /\
     content_of (fs w') sink =
       content_of (fs w) sink ++
       [Text (json_dumps (security_log Scenario.sarah (clock w) action n) +:+ nl)] /\
     is_running w' = is_running w /\ pending w' = pending w).
Proof.
  cbv zeta.
  set (w := set_pending [((Scenario.eight_pm + 86400)%Q, ExtStop)]
              (Scenario.started Scenario.eight_pm)).
  assert (H1 : regime_for (dt_hour (clock w)) = AfterHours) by (vm_compute; reflexivity).
  assert (H2 : Qlt_bool (variate w 0) (1 # 10) = true) by (vm_compute; reflexivity).
  assert (H3 : quiet (2 + (4 - 2) * variate w 3 + (300 + (1800 - 300) * variate w 4)) w
               = true) by (vm_compute; reflexivity).
  assert (H4 : open_error (fs w) (Scenario.home // "security_events.log") = None)
    by (vm_compute; reflexivity).
  split; [exact H1|]. split; [exact H2|]. split; [exact H3|]. split; [exact H4|].
  exact (proj2 (proj2 (proj2 (after_hours_iteration Scenario.sarah [] [] w H1)))
           H2 H3 H4).
Defined.


(** ** Selection from the catalog *)

(** The catalog of the source always yields one of its four units. *)
Lemma random_choices_work_activities self w :
  exists a, In a (map fst (work_activities self)) /\
    random_choices (map fst (work_activities self)) (map snd (work_activities self)) w
    = (Ok [a], set_cursor (S (cursor w)) w).
Proof.
  unfold random_choices, work_activities. cbn [map fst snd length accumulate accumulate_from].
  eexists. split; [|reflexivity].
  match goal with
  | |- In (nth ?i _ _) _ => generalize i
  end.
  intros i. simpl. do 4 (destruct i as [|i]; [tauto|]). destruct i; tauto.
Qed.


(** ** The running flag *)

(** *** Stops do not hurry the loop *)

Lemma slept_app tr1 tr2 : (slept (tr1 ++ tr2) == slept tr1 + slept tr2)%Q.
Proof.
  induction tr1 as [|[t ev] tr1 IH]; simpl; [ring|].
  destruct ev; try exact IH. rewrite IH. ring.
Qed.

Lemma slept_through_trans w w1 w2 :
  slept_through w w1 -> slept_through w1 w2 -> slept_through w w2.
Proof.
  intros (S1 & L1 & D1 & tr1 & T1 & C1 & F1) (S2 & L2 & D2 & tr2 & T2 & C2 & F2).
  split; [done|]. split; [by eapply Qle_trans|]. split.
  { destruct D2 as [D2|[P2 K2]]; [by left|].
    destruct D1 as [D1|[P1 K1]]; [left|right].
    - unfold due in *. by rewrite P2, K2.
    - split; congruence. }
  exists (tr1 ++ tr2). split; [by rewrite T2, T1, app_assoc|].
  split; [rewrite C2, C1, slept_app; ring|].
  destruct F2 as [[P2 R2]|[R2 [t Hin]]].
  - destruct F1 as [[P1 R1]|[R1 [t Hin]]]; [left; split; congruence|right].
    split; [congruence|]. exists t. apply in_or_app. by left.
  - right. split; [done|]. exists t. apply in_or_app. by right.
Qed.

(** Computations that take no time and do not look at the environment. *)
Lemma unhurried_frame {A} (c : M A) :
  (forall w r w', c w = (r, w') ->
     pending w' = pending w /\ is_running w' = is_running w /\ clock w' = clock w /\
     r <> Raise KeyboardInterrupt /\
     exists added, trace w' = trace w ++ added /\ slept added = 0%Q) ->
  unhurried c.
Proof.
  intros H w r w' Hs E. destruct (H _ _ _ E) as (H1 & H2 & H3 & H4 & added & H5 & H6).
  split; [done|]. unfold slept_through. rewrite H1, H3.
  split; [done|]. split; [apply Qle_refl|].
  split; [by right|]. exists added. split; [done|]. split; [rewrite H6; ring|by left].
Qed.

Ltac unhurried_by_cases H :=
  apply unhurried_frame; intros w r w' H.

Ltac nothing_added := exists []; by rewrite app_nil_r.

Lemma unhurried_ret {A} (a : A) : unhurried (ret a).
Proof. unhurried_by_cases H. injection H as <- <-. repeat split; try done. nothing_added. Qed.

Lemma unhurried_raise {A} e : is_Exception e = true -> unhurried (@raise A e).
Proof.
  intros He. unhurried_by_cases H. injection H as <- <-.
  repeat split; try done; [intros [= ->]; discriminate|nothing_added].
Qed.

Lemma unhurried_get {A} (f : World -> A) : unhurried (get f).
Proof. unhurried_by_cases H. injection H as <- <-. repeat split; try done. nothing_added. Qed.

Lemma unhurried_logger_info msg : unhurried (logger_info msg).
Proof.
  unhurried_by_cases H. injection H as <- <-. destruct w as [c dr cu f tr ir pe eh].
  repeat split; try done. by exists [(c, EvLog INFO msg)].
Qed.

Lemma unhurried_logger_error msg : unhurried (logger_error msg).
Proof.
  unhurried_by_cases H. injection H as <- <-. destruct w as [c dr cu f tr ir pe eh].
  repeat split; try done. by exists [(c, EvLog ERROR msg)].
Qed.

Lemma unhurried_random_random : unhurried random_random.
Proof.
  unhurried_by_cases H. injection H as <- <-. destruct w.
  repeat split; try done. nothing_added.
Qed.

Lemma unhurried_random_uniform a b : unhurried (random_uniform a b).
Proof.
  unhurried_by_cases H. injection H as <- <-. destruct w.
  repeat split; try done. nothing_added.
Qed.

Lemma unhurried_random_randint a b : unhurried (random_randint a b).
Proof.
  unhurried_by_cases H. unfold random_randint in H.
  destruct (b <? a); injection H as <- <-; destruct w;
    repeat split; try done; nothing_added.
Qed.

Lemma unhurried_random_choice {A} (seq : list A) : unhurried (random_choice seq).
Proof.
  unhurried_by_cases H. destruct seq; injection H as <- <-; destruct w;
    repeat split; try done; nothing_added.
Qed.

Lemma unhurried_random_choices {A} (population : list A) weights :
  unhurried (random_choices population weights).
Proof.
  unhurried_by_cases H. unfold random_choices in H.
  destruct (negb _); [injection H as <- <-; repeat split; try done; nothing_added|].
  destruct (last _); [|injection H as <- <-; repeat split; try done; nothing_added].
  destruct population; [injection H as <- <-; repeat split; try done; nothing_added|].
  destruct (Qle_bool _ _); injection H as <- <-; destruct w;
    repeat split; try done; nothing_added.
Qed.

Lemma unhurried_item0 {A} (l : list A) : unhurried (item0 l).
Proof.
  unhurried_by_cases H. destruct l; injection H as <- <-;
    repeat split; try done; nothing_added.
Qed.

Lemma open_error_from_Exception target rest : forall pre f e,
  open_error_from target pre rest f = Some e -> is_Exception e = true.
Proof.
  induction rest as [|c rest IH]; intros pre f e H; [discriminate|].
  destruct rest as [|c2 rest].
  - simpl in H. destruct (is_dir f (pre // c)); [by injection H as <-|discriminate].
  - cbn [open_error_from] in H.
    destruct (f !! (pre // c)) as [[|content]|]; [by eapply IH| |]; by injection H as <-.
Qed.

Lemma open_error_Exception f p e : open_error f p = Some e -> is_Exception e = true.
Proof.
  destruct p as [|c p]; [by intros [= <-]|]. apply open_error_from_Exception.
Qed.

Lemma mkdir_from_Exception target rest : forall pre f e f',
  mkdir_from target pre rest f = (Raise e, f') -> is_Exception e = true.
Proof.
  induction rest as [|c rest IH]; intros pre f e f' H; simpl in H; [discriminate|].
  destruct (f !! (pre // c)) as [[|content]|]; [by eapply IH| |by eapply IH].
  injection H as <- _. by destruct rest.
Qed.

Lemma unhurried_open_write p content : unhurried (open_write p content).
Proof.
  unhurried_by_cases H. unfold open_write in H.
  destruct (open_error _ _) as [e|] eqn:E; injection H as <- <-; destruct w;
    repeat split; try done; try nothing_added.
  intros [= ->]. by apply open_error_Exception in E.
Qed.

Lemma unhurried_open_append p content : unhurried (open_append p content).
Proof.
  unhurried_by_cases H. unfold open_append in H.
  destruct (open_error _ _) as [e|] eqn:E; injection H as <- <-; destruct w;
    repeat split; try done; try nothing_added.
  intros [= ->]. by apply open_error_Exception in E.
Qed.

Lemma unhurried_mkdir p : unhurried (mkdir_parents_exist_ok p).
Proof.
  unhurried_by_cases H. unfold mkdir_parents_exist_ok in H.
  destruct (mkdir_from p [] p (fs w)) as [[[]|e] f1] eqn:E; injection H as <- <-;
    destruct w; repeat split; try done; try nothing_added.
  intros [= ->]. by apply mkdir_from_Exception in E.
Qed.

Lemma unhurried_iterdir p : unhurried (iterdir p).
Proof.
  unhurried_by_cases H. unfold iterdir in H.
  destruct (is_dir _ _); [injection H as <- <-; repeat split; try done; nothing_added|].
  destruct (is_file _ _); injection H as <- <-; repeat split; try done; nothing_added.
Qed.

Lemma q_max_bounds a b c :
  (a <= c)%Q -> (b <= c)%Q -> (a <= q_max a b)%Q /\ (q_max a b <= c)%Q.
Proof.
  intros Ha Hb. unfold q_max. destruct (Qle_bool a b) eqn:E.
  - apply Qle_bool_iff in E. by split.
  - split; [apply Qle_refl|done].
Qed.

(** A sleep among stops: it lasts until its end, clears the flag and logs
    at each stop that is due, and leaves no stop that was due by its end.
    [evs] is what is pending when it begins. *)
Lemma sleep_until_stops t evs : forall w,
  pending w = evs -> stops_only evs = true -> (clock w <= t)%Q ->
  exists w' added,
    sleep_until t evs w = (Ok tt, w') /\
    clock w' = t /\ fs w' = fs w /\
    stops_only (pending w') = true /\ due w' = false /\
    trace w' = trace w ++ added /\ slept added = 0%Q /\
    ((pending w' = pending w /\ is_running w' = is_running w) \/
     (is_running w' = false /\
      exists t0, In (t0, EvLog INFO "Banking employee simulation stopped") added)) /\
    (forall s rest, evs = (s, ExtStop) :: rest -> (s <= t)%Q ->
       is_running w' = false /\
       In (q_max (clock w) s, EvLog INFO "Banking employee simulation stopped") added).
Proof.
  induction evs as [|[s ev] more IH]; intros w Hp Hs Ht.
  - exists (set_clock t w), []. simpl. rewrite app_nil_r. destruct w.
    cbn in *. subst. repeat split; try done. by left.
  - simpl in Hs. apply andb_true_iff in Hs as [Hev Hmore].
    destruct ev; [|discriminate]. simpl.
    destruct (Qle_bool s t) eqn:Es.
    + apply Qle_bool_iff in Es.
      destruct (q_max_bounds (clock w) s t Ht Es) as [Hq1 Hq2].
      match goal with
      | |- context [sleep_until t more ?w1] =>
          destruct (IH w1) as (w' & added & E & Hc & Hf & Hso & Hdue & Htr & Hsl & Hfl & _)
      end; [by destruct w|done|by destruct w|].
      exists w', ((q_max (clock w) s, EvLog INFO "Banking employee simulation stopped")
                    :: added).
      split; [exact E|]. split; [done|]. split; [rewrite Hf; by destruct w|].
      split; [done|]. split; [done|].
      split; [rewrite Htr; destruct w; simpl; by rewrite <- app_assoc|].
      split; [exact Hsl|].
      assert (Hrun : is_running w' = false).
      { destruct Hfl as [[_ Hfl]|[Hfl _]]; [|done]. rewrite Hfl. by destruct w. }
      split.
      * right. split; [done|]. eexists. by left.
      * intros s0 rest [= -> ->] _. split; [done|by left].
    + exists (set_clock t w), []. rewrite app_nil_r.
      destruct w as [c dr cu f tr ir pe eh]. cbn in *. subst.
      split; [done|]. split; [done|]. split; [done|].
      split; [by apply andb_true_iff|]. split; [exact Es|].
      split; [done|]. split; [done|]. split; [by left|].
      intros s0 rest [= -> ->] Hle. apply Qle_bool_iff in Hle. congruence.
Qed.

(** [time.sleep(d)] among stops. *)
Lemma time_sleep_stops d w :
  (0 <= d)%Q -> stops_only (pending w) = true ->
  exists w' added,
    time_sleep d w = (Ok tt, w') /\
    clock w' = (clock w + d)%Q /\ fs w' = fs w /\
    stops_only (pending w') = true /\ due w' = false /\
    trace w' = trace w ++ (clock w, EvSleep d) :: added /\ slept added = 0%Q /\
    ((pending w' = pending w /\ is_running w' = is_running w) \/
     (is_running w' = false /\
      exists t0, In (t0, EvLog INFO "Banking employee simulation stopped") added)) /\
    (forall s rest, pending w = (s, ExtStop) :: rest -> (s <= clock w + d)%Q ->
       is_running w' = false /\
       In (q_max (clock w) s, EvLog INFO "Banking employee simulation stopped") added).
Proof.
  intros Hd Hs. unfold time_sleep.
  assert (Hb : Qle_bool 0 d = true) by (by apply Qle_bool_iff). rewrite Hb.
  destruct (sleep_until_stops (clock w + d) (pending (emit (EvSleep d) w))
              (emit (EvSleep d) w))
    as (w' & added & E & Hc & Hf & Hso & Hdue & Htr & Hsl & Hfl & Hhead);
    [done|by destruct w|destruct w; simpl; lra|].
  exists w', added. split; [exact E|]. split; [done|]. split; [rewrite Hf; by destruct w|].
  split; [done|]. split; [done|].
  split; [rewrite Htr; destruct w; simpl; by rewrite <- app_assoc|].
  split; [done|]. split.
  - destruct Hfl as [[H1 H2]|H]; [left|by right]. destruct w. by split.
  - intros s rest Hp Hle. destruct (Hhead s rest) as [H1 H2]; [by destruct w|done|].
    split; [done|]. revert H2. by destruct w.
Qed.

Lemma unhurried_time_sleep d : unhurried (time_sleep d).
Proof.
  intros w r w' Hs H. destruct (Qlt_le_dec d 0) as [Hneg|Hd].
  - unfold time_sleep in H.
    assert (Hb : Qle_bool 0 d = false).
    { destruct (Qle_bool 0 d) eqn:E; [|done]. apply Qle_bool_iff in E. lra. }
    rewrite Hb in H. injection H as <- <-.
    split; [done|]. split; [done|]. split; [apply Qle_refl|]. split; [by right|].
    exists []. rewrite app_nil_r. split; [done|]. split; [simpl; ring|by left].
  - destruct (time_sleep_stops d w Hd Hs)
      as (w1 & added & E & Hc & Hf & Hso & Hdue & Htr & Hsl & Hfl & _).
    rewrite E in H. injection H as <- <-.
    split; [done|]. split; [done|]. split; [rewrite Hc; lra|]. split; [by left|].
    exists ((clock w, EvSleep d) :: added). split; [done|].
    split; [rewrite Hc; simpl; rewrite Hsl; ring|].
    destruct Hfl as [Hfl|[Hfl [t0 Hin]]]; [by left|right].
    split; [done|]. exists t0. by right.
Qed.

Lemma unhurried_bind {A B} (c : M A) (k : A -> M B) :
  unhurried c -> (forall a, unhurried (k a)) -> unhurried (bind c k).
Proof.
  intros Hc Hk w r w' Hs H. rewrite bind_unfold in H.
  destruct (c w) as [[a|e] w1] eqn:E.
  - destruct (Hc _ _ _ Hs E) as [_ H1].
    destruct (Hk _ _ _ _ (proj1 H1) H) as [R2 H2].
    split; [done|]. by eapply slept_through_trans.
  - injection H as <- <-. destruct (Hc _ _ _ Hs E) as [R1 H1].
    split; [intros [= ->]; by apply R1|done].
Qed.

Lemma unhurried_bind_post {A B} (c : M A) (k : A -> M B) (P : A -> Prop) :
  unhurried c ->
  (forall w a w', c w = (Ok a, w') -> P a) ->
  (forall a, P a -> unhurried (k a)) ->
  unhurried (bind c k).
Proof.
  intros Hc HP Hk w r w' Hs H. rewrite bind_unfold in H.
  destruct (c w) as [[a|e] w1] eqn:E.
  - destruct (Hc _ _ _ Hs E) as [_ H1].
    destruct (Hk _ (HP _ _ _ E) _ _ _ (proj1 H1) H) as [R2 H2].
    split; [done|]. by eapply slept_through_trans.
  - injection H as <- <-. destruct (Hc _ _ _ Hs E) as [R1 H1].
    split; [intros [= ->]; by apply R1|done].
Qed.

Lemma unhurried_for_each {A} (xs : list A) (body : A -> M unit) :
  (forall x, unhurried (body x)) -> unhurried (for_each xs body).
Proof.
  intros Hb. induction xs as [|x xs IH]; simpl.
  - apply unhurried_ret.
  - apply unhurried_bind; auto.
Qed.

Lemma unhurried_try_except {A} (body : M A) (handler : exn -> option (M A)) :
  unhurried body -> (forall e h, handler e = Some h -> unhurried h) ->
  unhurried (try_except body handler).
Proof.
  intros Hb Hh w r w' Hs H. unfold try_except in H.
  destruct (body w) as [[a|e] w1] eqn:E.
  - injection H as <- <-. destruct (Hb _ _ _ Hs E) as [_ H1]. by split.
  - destruct (Hb _ _ _ Hs E) as [R1 H1].
    destruct (handler e) as [h|] eqn:Eh.
    + destruct (Hh _ _ Eh _ _ _ (proj1 H1) H) as [R2 H2].
      split; [done|]. by eapply slept_through_trans.
    + injection H as <- <-. by split.
Qed.

Lemma unhurried_choose (seq : list (M unit)) :
  Forall unhurried seq -> unhurried (operation <- random_choice seq ;; operation).
Proof.
  intros Hseq. apply (unhurried_bind_post _ _ (fun a => In a seq)).
  - apply unhurried_random_choice.
  - intros w a w'. apply random_choice_In.
  - intros a Ha. rewrite Forall_forall in Hseq. apply Hseq. by apply list_elem_of_In.
Qed.

Create HintDb unhurried_db discriminated.

#[local] Hint Resolve unhurried_ret unhurried_get unhurried_logger_info
  unhurried_logger_error unhurried_random_random unhurried_random_uniform
  unhurried_random_randint unhurried_random_choice unhurried_random_choices
  unhurried_item0 unhurried_open_write unhurried_open_append unhurried_mkdir
  unhurried_iterdir unhurried_time_sleep : unhurried_db.

(** Walks down a chain of binds. *)
Ltac unhurried_chain :=
  repeat first
    [ apply unhurried_bind;
      [solve [unfold datetime_now; auto with unhurried_db] | intros ?]
    | solve [unfold datetime_now; auto with unhurried_db] ].

(** The pacing sleep. *)
Lemma paced_pace (n a b : Q) :
  (n <= a)%Q -> (0 <= a)%Q -> (a <= b)%Q ->
  paced n (d <- random_uniform a b ;; time_sleep d).
Proof.
  intros Hn Ha Hab w w' Hs H. rewrite bind_unfold in H.
  destruct (random_uniform_spec a b w Hab) as (d & Hd & Hd1 & Hd2).
  rewrite Hd in H.
  destruct (time_sleep_stops d (set_cursor (S (cursor w)) w))
    as (w1 & added & E & Hc & _); [lra|by destruct w|].
  rewrite E in H. injection H as <-. rewrite Hc. destruct w. simpl. lra.
Qed.

Lemma paced_bind {A} (c : M A) (k : A -> M unit) (n : Q) :
  unhurried c -> (forall a, paced n (k a)) -> paced n (bind c k).
Proof.
  intros Hc Hk w w' Hs H. rewrite bind_unfold in H.
  destruct (c w) as [[a|e] w1] eqn:E; [|discriminate].
  destruct (Hc _ _ _ Hs E) as (_ & S1 & L1 & _).
  pose proof (Hk _ _ _ S1 H). lra.
Qed.

Lemma paced_bind_post {A} (c : M A) (k : A -> M unit) (n : Q) (P : A -> Prop) :
  unhurried c ->
  (forall w a w', c w = (Ok a, w') -> P a) ->
  (forall a, P a -> paced n (k a)) ->
  paced n (bind c k).
Proof.
  intros Hc HP Hk w w' Hs H. rewrite bind_unfold in H.
  destruct (c w) as [[a|e] w1] eqn:E; [|discriminate].
  destruct (Hc _ _ _ Hs E) as (_ & S1 & L1 & _).
  pose proof (Hk _ (HP _ _ _ E) _ _ S1 H). lra.
Qed.

Section UnitsUnhurried.
Variable self : Simulator.

Lemma unhurried_backup_files : unhurried (backup_files self).
Proof.
  unfold backup_files.
  apply unhurried_bind; [unfold datetime_now; auto with unhurried_db|]. intros now.
  apply unhurried_bind; [auto with unhurried_db|]. intros _.
  apply unhurried_bind; [|intros _; unhurried_chain].
  apply unhurried_for_each. intros source_dir.
  apply unhurried_bind; [auto with unhurried_db|]. intros [|]; [|auto with unhurried_db].
  apply unhurried_bind; [auto with unhurried_db|]. intros files.
  apply unhurried_for_each. intros file_path. unfold backup_one.
  apply unhurried_bind; [auto with unhurried_db|]. intros [|]; auto with unhurried_db.
Qed.

Lemma unhurried_simulate_file_operations : unhurried (simulate_file_operations self).
Proof.
  unfold simulate_file_operations. apply unhurried_choose.
  constructor; [unfold create_financial_report; unhurried_chain|].
  constructor; [unfold update_client_data; unhurried_chain|].
  constructor; [unfold create_compliance_document; unhurried_chain|].
  constructor; [unfold generate_risk_analysis; unhurried_chain|].
  constructor; [apply unhurried_backup_files|].
  constructor; [unfold access_regulatory_docs; unhurried_chain|].
  constructor.
Qed.

Lemma unhurried_simulate_application_usage : unhurried (simulate_application_usage self).
Proof.
  unfold simulate_application_usage.
  apply unhurried_bind; [auto with unhurried_db|]. intros app.
  apply unhurried_try_except.
  - unfold application_usage_body.
    destruct (str_in app _); [unhurried_chain|].
    destruct (str_in app _); [unhurried_chain|].
    destruct (String.eqb app "Terminal"); unhurried_chain.
  - intros e h Hh. destruct (is_Exception e); [|discriminate].
    injection Hh as <-. auto with unhurried_db.
Qed.

Lemma unhurried_simulate_network_activity : unhurried simulate_network_activity.
Proof. unfold simulate_network_activity. unhurried_chain. Qed.

Lemma unhurried_simulate_security_actions : unhurried (simulate_security_actions self).
Proof. unfold simulate_security_actions. unhurried_chain. Qed.

Lemma unhurried_work_activities : Forall unhurried (map fst (work_activities self)).
Proof.
  constructor; [apply unhurried_simulate_file_operations|].
  constructor; [apply unhurried_simulate_application_usage|].
  constructor; [apply unhurried_simulate_network_activity|].
  constructor; [apply unhurried_simulate_security_actions|].
  constructor.
Qed.

Lemma unhurried_try_body :
  unhurried (try_body self (map fst (work_activities self))
                           (map snd (work_activities self))).
Proof.
  intros w r w'. rewrite try_body_unfold.
  pose proof unhurried_work_activities as Hacts. rewrite Forall_forall in Hacts.
  destruct (regime_for _); revert w r w'.
  - unfold work_hours_branch.
    apply (unhurried_bind_post _ _
             (fun chosen => exists a, chosen = [a] /\
                                      In a (map fst (work_activities self))));
      [auto with unhurried_db|intros w a w'; apply random_choices_In|].
    intros chosen (a & -> & Ha). cbn [item0].
    apply (unhurried_bind_post _ _ (fun b => b = a));
      [auto with unhurried_db | by intros w b w' [= <-] |].
    intros activity ->.
    apply unhurried_bind; [apply Hacts; by apply list_elem_of_In|]. intros _.
    unhurried_chain.
  - unfold after_hours_branch.
    apply unhurried_bind; [auto with unhurried_db|]. intros u.
    apply unhurried_bind; [|intros _; unhurried_chain].
    destruct (Qlt_bool u (1 # 10));
      [apply unhurried_simulate_security_actions|auto with unhurried_db].
Qed.

Lemma paced_try_body :
  paced 30 (try_body self (map fst (work_activities self))
                          (map snd (work_activities self))).
Proof.
  intros w w'. rewrite try_body_unfold.
  pose proof unhurried_work_activities as Hacts. rewrite Forall_forall in Hacts.
  destruct (regime_for _); revert w w'.
  - unfold work_hours_branch.
    apply (paced_bind_post _ _ _
             (fun chosen => exists a, chosen = [a] /\
                                      In a (map fst (work_activities self))));
      [auto with unhurried_db|intros w a w'; apply random_choices_In|].
    intros chosen (a & -> & Ha). cbn [item0].
    apply (paced_bind_post _ _ _ (fun b => b = a));
      [auto with unhurried_db | by intros w b w' [= <-] |].
    intros activity ->.
    apply paced_bind; [apply Hacts; by apply list_elem_of_In|]. intros _.
    apply paced_pace; lra.
  - unfold after_hours_branch.
    apply paced_bind; [auto with unhurried_db|]. intros u.
    apply paced_bind.
    + destruct (Qlt_bool u (1 # 10));
        [apply unhurried_simulate_security_actions|auto with unhurried_db].
    + intros _. apply paced_pace; lra.
Qed.

(** Among stops an iteration always reaches the bottom of the loop body,
    with every sleep slept in full, at least 30 seconds after it began. *)
Lemma loop_iteration_among_stops w :
  stops_only (pending w) = true ->
  exists w',
    loop_iteration self (map fst (work_activities self)) (map snd (work_activities self)) w
    = (Ok Continue, w') /\
    slept_through w w' /\ (clock w + 30 <= clock w')%Q.
Proof.
  intros Hs. rewrite loop_iteration_unfold.
  destruct (try_body self _ _ w) as [[[]|e] w1] eqn:E;
    destruct (unhurried_try_body _ _ _ Hs E) as [Hr H1].
  - exists w1. split; [done|]. split; [done|]. by apply (paced_try_body _ _ Hs E).
  - set (w2 := emit (EvLog ERROR ("Error in work simulation: " +:+ str_exn e)) w1).
    assert (H12 : slept_through w1 w2).
    { eapply (unhurried_logger_error _ w1); [exact (proj1 H1)|reflexivity]. }
    destruct (time_sleep_stops 60 w2) as (w3 & added & E3 & Hc & _);
      [done|exact (proj1 H12)|].
    assert (H23 : slept_through w2 w3).
    { eapply (unhurried_time_sleep 60 w2); [exact (proj1 H12)|exact E3]. }
    exists w3. split.
    + destruct e; [done| | | | | |]; fold w2; by rewrite E3.
    + split; [eapply slept_through_trans; [exact H1|];
              by eapply slept_through_trans|].
      destruct H1 as (_ & L1 & _). rewrite Hc. unfold w2. destruct w1. simpl in *. lra.
Qed.

End UnitsUnhurried.




(** ** The interrupt *)

(** The [except] clause of [main] never runs: [start_simulation] returns
    normally whatever happened, so [main] is [start_simulation] after the
    set-up. *)
Lemma main_handler_is_dead fuel w :
  main fuel w =
  match main_setup w with
  | (Raise e, w') => Some (Raise e, w')
  | (Ok simulator, w') => start_simulation simulator fuel w'
  end.
Proof.
  unfold main. destruct (main_setup w) as [[simulator|e] w1]; [|reflexivity].
  destruct (start_simulation simulator fuel w1) as [[r w2]|] eqn:E; [|reflexivity].
  by rewrite (start_simulation_returns _ _ _ _ _ E).
Qed.

(** C2 fails on the code: Ctrl-C at 10:01:40, during the fourth pacing
    sleep.  The loop logs the interruption and breaks, [start_simulation]
    and [main] return normally, and the process exits with status 0; but
    [stop_simulation] was never called (the flag is still set, nothing
    says [stopped]), no report was written and nothing was printed after
    the banner.  In general the handler of [main] that would do all this
    is never reached. *)
Theorem interrupt_skips_the_report :
  let w := set_pending [((Scenario.ten_am + 100)%Q, ExtInterrupt)]
             (Scenario.idle Scenario.ten_am) in
  outcome (main 10 w)
  = Some (mkOutcome (Ok tt) (inject_Z 1762164100) true
      [ (inject_Z 1762164000, EvPrint [Text "Banking Employee Behavior Simulator for macOS"]);
        (inject_Z 1762164000, EvPrint [Text "=================================================="]);
        (inject_Z 1762164000, EvLog INFO "Workspace setup complete for Sarah Chen");
        (inject_Z 1762164000, EvPrint [Text "Simulating behavior for: Sarah Chen (Finance)"]);
        (inject_Z 1762164000, EvPrint [Text "Press Ctrl+C to stop the simulation"]);
        (inject_Z 1762164000, EvPrint [Text "--------------------------------------------------"]);
        (inject_Z 1762164000,
         EvLog INFO "Starting banking employee simulation for Sarah Chen");
        (inject_Z 1762164000,
         EvLog INFO "Created financial report: Monthly_P&L_20251103.xlsx");
        (inject_Z 1762164000, EvSleep 2);
        (inject_Z 1762164002, EvSleep 30);
        (inject_Z 1762164032,
         EvLog INFO "Created financial report: Monthly_P&L_20251103.xlsx");
        (inject_Z 1762164032, EvSleep 2);
        (inject_Z 1762164034, EvSleep 30);
        (inject_Z 1762164064,
         EvLog INFO "Created financial report: Monthly_P&L_20251103.xlsx");
        (inject_Z 1762164064, EvSleep 2);
        (inject_Z 1762164066, EvSleep 30);
        (inject_Z 1762164096,
         EvLog INFO "Created financial report: Monthly_P&L_20251103.xlsx");
        (inject_Z 1762164096, EvSleep 2);
        (inject_Z 1762164098, EvSleep 30);
        (inject_Z 1762164100, EvLog INFO "Simulation interrupted by user") ]) /\
  exit_status (Ok tt) = 0 /\
  option_map (fun run => path_exists (fs (snd run))
                (Scenario.home // "Documents" // "BankWork" // "daily_report_20251103.json"))
             (main 10 w) = Some false /\
  (forall fuel w0,
     main fuel w0 =
     match main_setup w0 with
     | (Raise e, w') => Some (Raise e, w')
     | (Ok simulator, w') => start_simulation simulator fuel w'
     end).
Proof.
  cbv zeta. split; [vm_compute; reflexivity|]. split; [reflexivity|].
  split; [vm_compute; reflexivity|]. apply main_handler_is_dead.
Qed.

(** * Further properties *)

(** ** Moves of the file system *)

Lemma keeps_fs_raise {A} e : keeps_fs (@raise A e).
Proof. intros w r w' H. by injection H as <- <-. Qed.

Lemma keeps_fs_logger_error msg : keeps_fs (logger_error msg).
Proof. intros w r w' H. by injection H as <- <-. Qed.

Lemma keeps_fs_print out : keeps_fs (print out).
Proof. intros w r w' H. by injection H as <- <-. Qed.

Lemma keeps_fs_random_random : keeps_fs random_random.
Proof. intros w r w' H. by injection H as <- <-. Qed.

Lemma keeps_fs_random_randint a b : keeps_fs (random_randint a b).
Proof.
  intros w r w' H. unfold random_randint in H.
  destruct (b <? a); by injection H as <- <-.
Qed.

Lemma keeps_fs_random_choice {A} (seq : list A) : keeps_fs (random_choice seq).
Proof. intros w r w' H. destruct seq; by injection H as <- <-. Qed.

Lemma keeps_fs_random_choices {A} (population : list A) weights :
  keeps_fs (random_choices population weights).
Proof.
  intros w r w' H. unfold random_choices in H.
  destruct (negb _); [by injection H as <- <-|].
  destruct (last _); [|by injection H as <- <-].
  destruct population; [by injection H as <- <-|].
  destruct (Qle_bool _ _); by injection H as <- <-.
Qed.

Lemma keeps_fs_item0 {A} (l : list A) : keeps_fs (item0 l).
Proof. intros w r w' H. destruct l; by injection H as <- <-. Qed.

Lemma keeps_fs_stop_simulation : keeps_fs stop_simulation.
Proof. intros w r w' H. by injection H as <- <-. Qed.

Create HintDb fs_keep discriminated.

#[local] Hint Resolve keeps_fs_ret keeps_fs_get keeps_fs_raise keeps_fs_logger_info
  keeps_fs_logger_error keeps_fs_print keeps_fs_time_sleep keeps_fs_random_random
  keeps_fs_random_uniform keeps_fs_random_randint keeps_fs_random_choice
  keeps_fs_random_choices keeps_fs_item0 keeps_fs_iterdir keeps_fs_stop_simulation
  : fs_keep.

Section FsMoves.
Variable R : gmap path node -> gmap path node -> Prop.
Hypothesis R_refl : forall f, R f f.
Hypothesis R_trans : forall f g h, R f g -> R g h -> R f h.

Lemma fs_moves_keeps {A} (c : M A) : keeps_fs c -> fs_moves R c.
Proof. intros Hc w r w' H. rewrite (Hc _ _ _ H). apply R_refl. Qed.

Lemma fs_moves_bind {A B} (c : M A) (k : A -> M B) :
  fs_moves R c -> (forall a, fs_moves R (k a)) -> fs_moves R (bind c k).
Proof.
  intros Hc Hk w r w' H. rewrite bind_unfold in H.
  destruct (c w) as [[a|e] w1] eqn:E.
  - eapply R_trans; [by eapply Hc | by eapply Hk].
  - injection H as <- <-. by eapply Hc.
Qed.

Lemma fs_moves_bind_post {A B} (c : M A) (k : A -> M B) (P : A -> Prop) :
  fs_moves R c ->
  (forall w a w', c w = (Ok a, w') -> P a) ->
  (forall a, P a -> fs_moves R (k a)) ->
  fs_moves R (bind c k).
Proof.
  intros Hc HP Hk w r w' H. rewrite bind_unfold in H.
  destruct (c w) as [[a|e] w1] eqn:E.
  - eapply R_trans; [by eapply Hc | eapply Hk; [by eapply HP | exact H]].
  - injection H as <- <-. by eapply Hc.
Qed.

Lemma fs_moves_for_each {A} (xs : list A) (body : A -> M unit) :
  (forall x, fs_moves R (body x)) -> fs_moves R (for_each xs body).
Proof.
  intros Hb. induction xs as [|x xs IH]; simpl.
  - apply fs_moves_keeps, keeps_fs_ret.
  - apply fs_moves_bind; auto.
Qed.

Lemma fs_moves_try_except {A} (body : M A) (handler : exn -> option (M A)) :
  fs_moves R body ->
  (forall e h, handler e = Some h -> fs_moves R h) ->
  fs_moves R (try_except body handler).
Proof.
  intros Hb Hh w r w' H. unfold try_except in H.
  destruct (body w) as [[a|e] w1] eqn:E.
  - injection H as <- <-. by eapply Hb.
  - destruct (handler e) as [h|] eqn:Eh.
    + eapply R_trans; [by eapply Hb | by eapply Hh].
    + injection H as <- <-. by eapply Hb.
Qed.

Lemma fs_moves_choose (seq : list (M unit)) :
  Forall (fs_moves R) seq ->
  fs_moves R (operation <- random_choice seq ;; operation).
Proof.
  intros Hseq.
  apply (fs_moves_bind_post _ _ (fun a => In a seq)).
  - apply fs_moves_keeps, keeps_fs_random_choice.
  - intros w a w'. apply random_choice_In.
  - intros a Ha. rewrite Forall_forall in Hseq. apply Hseq. by apply list_elem_of_In.
Qed.

Lemma fs_moves_while_running fuel (body : M ctl) : forall w r w',
  fs_moves R body ->
  while_running fuel body w = Some (r, w') -> R (fs w) (fs w').
Proof.
  induction fuel as [|fuel IH]; intros w r w' Hb; simpl; [discriminate|].
  destruct (is_running w); [|intros H; injection H as <- <-; apply R_refl].
  destruct (body w) as [[[]|e] w1] eqn:E.
  - intros H. eapply R_trans; [by eapply Hb | by eapply IH].
  - intros H. injection H as <- <-. by eapply Hb.
  - intros H. injection H as <- <-. by eapply Hb.
Qed.

(** Walks down a chain of binds whose steps all keep the file system. *)
Ltac keeps_chain :=
  repeat first
    [ apply fs_moves_bind;
      [ solve [apply fs_moves_keeps; unfold datetime_now; auto with fs_keep] | intros ? ]
    | solve [apply fs_moves_keeps; auto with fs_keep] ].

Lemma fs_moves_network_activity : fs_moves R simulate_network_activity.
Proof. unfold simulate_network_activity. keeps_chain. Qed.

Lemma fs_moves_application_usage self : fs_moves R (simulate_application_usage self).
Proof.
  unfold simulate_application_usage.
  apply fs_moves_bind; [apply fs_moves_keeps; auto with fs_keep|]. intros app.
  apply fs_moves_try_except.
  - unfold application_usage_body.
    destruct (str_in app _); [keeps_chain|].
    destruct (str_in app _); [keeps_chain|].
    destruct (String.eqb app "Terminal"); keeps_chain.
  - intros e h Hh. destruct (is_Exception e); [|discriminate].
    injection Hh as <-. keeps_chain.
Qed.

(** The loop moves the file system as its units of work do. *)
Lemma fs_moves_try_body self acts ws :
  Forall (fs_moves R) acts ->
  fs_moves R (simulate_security_actions self) ->
  fs_moves R (try_body self acts ws).
Proof.
  intros Hacts Hsec w r w'. rewrite try_body_unfold.
  rewrite Forall_forall in Hacts.
  destruct (regime_for _); revert w r w'.
  - unfold work_hours_branch.
    apply (fs_moves_bind_post _ _ (fun chosen => exists a, chosen = [a] /\ In a acts)).
    + apply fs_moves_keeps; auto with fs_keep.
    + intros w a w'. apply random_choices_In.
    + intros chosen (a & -> & Ha). cbn [item0].
      apply (fs_moves_bind_post _ _ (fun b => b = a));
        [apply fs_moves_keeps; auto with fs_keep | by intros w b w' [= <-] |].
      intros activity ->.
      apply fs_moves_bind; [apply Hacts; by apply list_elem_of_In|].
      intros _. keeps_chain.
  - unfold after_hours_branch.
    apply fs_moves_bind; [apply fs_moves_keeps; auto with fs_keep|]. intros u.
    apply fs_moves_bind; [|intros _; keeps_chain].
    destruct (Qlt_bool u (1 # 10)); [exact Hsec|apply fs_moves_keeps; auto with fs_keep].
Qed.

Lemma fs_moves_loop_iteration self acts ws :
  Forall (fs_moves R) acts ->
  fs_moves R (simulate_security_actions self) ->
  fs_moves R (loop_iteration self acts ws).
Proof.
  intros Hacts Hsec. unfold loop_iteration. apply fs_moves_try_except.
  - apply fs_moves_bind; [by apply fs_moves_try_body|]. intros _. keeps_chain.
  - intros e h Hh. destruct e; injection Hh as <-; keeps_chain.
Qed.

Lemma fs_moves_simulate_work_day self fuel w r w' :
  fs_moves R (simulate_file_operations self) ->
  fs_moves R (simulate_security_actions self) ->
  simulate_work_day self fuel w = Some (r, w') -> R (fs w) (fs w').
Proof.
  intros Hfile Hsec. unfold simulate_work_day.
  apply fs_moves_while_running. apply fs_moves_loop_iteration; [|done].
  constructor; [done|].
  constructor; [apply fs_moves_application_usage|].
  constructor; [apply fs_moves_network_activity|].
  constructor; [done|]. constructor.
Qed.

Lemma fs_moves_start_simulation self fuel w r w' :
  fs_moves R (simulate_file_operations self) ->
  fs_moves R (simulate_security_actions self) ->
  start_simulation self fuel w = Some (r, w') -> R (fs w) (fs w').
Proof.
  intros Hfile Hsec. unfold start_simulation. run_py.
  match goal with
  | |- context [simulate_work_day self fuel ?w0] =>
      destruct (simulate_work_day self fuel w0) as [[r1 w1]|] eqn:E; [|discriminate];
      pose proof (fs_moves_simulate_work_day _ _ _ _ _ Hfile Hsec E) as Hmove
  end.
  simpl in Hmove.
  destruct r1 as [[]|e]; [intros H; by injection H as <- <-|].
  destruct e; intros H; injection H as <- <-; exact Hmove.
Qed.

Lemma fs_moves_security_actions self :
  (forall content,
     fs_moves R (open_append (home_dir self // "security_events.log") content)) ->
  fs_moves R (simulate_security_actions self).
Proof.
  intros Happend. unfold simulate_security_actions.
  apply fs_moves_bind; [apply fs_moves_keeps; auto with fs_keep|]. intros action.
  apply fs_moves_bind; [apply fs_moves_keeps; auto with fs_keep|]. intros _.
  apply fs_moves_bind; [apply fs_moves_keeps; unfold datetime_now; auto with fs_keep|].
  intros timestamp.
  apply fs_moves_bind; [apply fs_moves_keeps; auto with fs_keep|]. intros n.
  apply fs_moves_bind; [apply Happend|]. intros _. keeps_chain.
Qed.

End FsMoves.

(** ** Writing confined to a tree *)

Lemma moved_refl W D f : moved W D f f.
Proof. intros p. by left. Qed.

Lemma rewritten_trans o1 o2 o3 : rewritten o1 o2 -> rewritten o2 o3 -> rewritten o1 o3.
Proof.
  intros [[H1 H2]|(c & c' & H1 & H2)] [[H3 H4]|(d & d' & H3 & H4)]; subst.
  - by left.
  - left. eauto.
  - discriminate.
  - right. eauto.
Qed.

Lemma moved_trans W D f g h : moved W D f g -> moved W D g h -> moved W D f h.
Proof.
  intros Hfg Hgh p.
  destruct (Hfg p) as [E1|[[HW H1]|(HD & H1 & H1')]];
    destruct (Hgh p) as [E2|[[HW' H2]|(HD' & H2 & H2')]].
  - left. by rewrite E2.
  - right. left. by rewrite <- E1.
  - right. right. by rewrite <- E1.
  - right. left. by rewrite E2.
  - right. left. split; [done|]. by eapply rewritten_trans.
  - destruct H1 as [[_ [x Hx]]|(c & c' & _ & Hx)]; rewrite Hx in H2; discriminate.
  - right. right. by rewrite E2.
  - rewrite H1' in H2.
    destruct H2 as [[H2 _]|(c & c' & H2 & _)]; discriminate.
  - rewrite H1' in H2. discriminate.
Qed.

Lemma moved_weaken (W W' D : path -> Prop) f f' :
  (forall p, W p -> W' p) -> moved W D f f' -> moved W' D f f'.
Proof.
  intros HW H p. destruct (H p) as [E|[[Hp Hr]|Hd]]; [by left| |by right; right].
  right. left. split; [by apply HW|done].
Qed.

Lemma confined_refl root f : confined root f f.
Proof. apply moved_refl. Qed.

Lemma confined_trans root f g h :
  confined root f g -> confined root g h -> confined root f h.
Proof. apply moved_trans. Qed.

(** [open] for writing succeeds only where there is no directory. *)
Lemma open_error_from_not_dir target rest : forall pre f,
  rest <> [] ->
  open_error_from target pre rest f = None -> f !! (pre ++ rest) <> Some Dir.
Proof.
  induction rest as [|c rest IH]; intros pre f Hne H; [done|].
  destruct rest as [|c2 rest].
  - simpl in H. unfold is_dir, div_path in H.
    destruct (pre ++ [c]) eqn:E; [by destruct pre|].
    intros Hd. rewrite Hd in H. discriminate.
  - cbn [open_error_from] in H.
    destruct (f !! (pre // c)) as [[|content]|]; try discriminate.
    replace (pre ++ c :: c2 :: rest) with ((pre // c) ++ c2 :: rest)
      by (unfold div_path; by rewrite <- app_assoc).
    by apply IH.
Qed.

Lemma open_error_not_dir f p : open_error f p = None -> f !! p <> Some Dir.
Proof.
  destruct p as [|c p]; [discriminate|]. intros H.
  by apply (open_error_from_not_dir (c :: p) (c :: p) [] f).
Qed.

Lemma moved_insert_file (W D : path -> Prop) f p content :
  W p -> f !! p <> Some Dir -> moved W D f (<[p := File content]> f).
Proof.
  intros HW Hnd q. destruct (decide (q = p)) as [->|Hne].
  - right. left. split; [done|]. rewrite lookup_insert_eq.
    destruct (f !! p) as [[|c]|]; [done|right|left]; eauto.
  - left. by rewrite lookup_insert_ne.
Qed.

Lemma confined_open_write root p content :
  root `prefix_of` p -> fs_moves (confined root) (open_write p content).
Proof.
  intros Hpre w r w' H. unfold open_write in H.
  destruct (open_error (fs w) p) eqn:E; injection H as <- <-.
  - apply confined_refl.
  - simpl. apply moved_insert_file; [done|by apply open_error_not_dir].
Qed.

(** [mkdir] creates directories along its argument only. *)
Lemma mkdir_from_changes target rest : forall pre f r f',
  mkdir_from target pre rest f = (r, f') ->
  forall p, f' !! p = f !! p \/
            (f !! p = None /\ f' !! p = Some Dir /\ p `prefix_of` (pre ++ rest)).
Proof.
  induction rest as [|c rest IH]; intros pre f r f' H p; simpl in H.
  - injection H as <- <-. by left.
  - assert (Hq : forall q, q `prefix_of` ((pre // c) ++ rest) ->
                           q `prefix_of` (pre ++ c :: rest)).
    { intros q. unfold div_path. by rewrite <- app_assoc. }
    destruct (f !! (pre // c)) as [[|content]|] eqn:E.
    + destruct (IH _ _ _ _ H p) as [Hp|(H1 & H2 & H3)]; [by left|right; auto].
    + injection H as <- <-. by left.
    + destruct (IH _ _ _ _ H p) as [Hp|(H1 & H2 & H3)].
      * destruct (decide (p = pre // c)) as [->|Hne].
        -- right. rewrite Hp, lookup_insert_eq. repeat split; [done|].
           exists rest. unfold div_path. by rewrite <- app_assoc.
        -- left. by rewrite Hp, lookup_insert_ne.
      * destruct (decide (p = pre // c)) as [->|Hne].
        -- rewrite lookup_insert_eq in H1. discriminate.
        -- rewrite lookup_insert_ne in H1 by done. right. auto.
Qed.

Lemma prefix_of_below (root p : path) (k : list string) :
  p `prefix_of` (root ++ k) -> root `prefix_of` p \/ p `prefix_of` root.
Proof.
  intros Hp.
  destruct (prefix_weak_total p root (root ++ k)) as [H|H];
    [done|by apply prefix_app_r|by right|by left].
Qed.

Lemma confined_mkdir root (k : list string) :
  fs_moves (confined root) (mkdir_parents_exist_ok (root ++ k)).
Proof.
  intros w r w' H. unfold mkdir_parents_exist_ok in H.
  destruct (mkdir_from (root ++ k) [] (root ++ k) (fs w)) as [r1 f1] eqn:E.
  injection H as <- <-. simpl. intros p.
  destruct (mkdir_from_changes _ _ _ _ _ _ E p) as [Hp|(H1 & H2 & H3)]; [by left|].
  right. rewrite H1, H2. simpl in H3.
  destruct (prefix_of_below root p k H3) as [Hr|Hr].
  - left. split; [done|]. left. eauto.
  - by right.
Qed.

Lemma below2 (root : path) (a b : string) : root // a // b = root ++ [a; b].
Proof. unfold div_path. by rewrite <- app_assoc. Qed.

Lemma prefix_below2 (root : path) (a b : string) : root `prefix_of` (root // a // b).
Proof. rewrite below2. by apply prefix_app_r. Qed.

Lemma prefix_below1 (root : path) (a : string) : root `prefix_of` (root // a).
Proof. by apply prefix_app_r. Qed.

Lemma confined_keeps root {A} (c : M A) : keeps_fs c -> fs_moves (confined root) c.
Proof. apply fs_moves_keeps, confined_refl. Qed.

Lemma confined_bind root {A B} (c : M A) (k : A -> M B) :
  fs_moves (confined root) c -> (forall a, fs_moves (confined root) (k a)) ->
  fs_moves (confined root) (bind c k).
Proof. apply fs_moves_bind, confined_trans. Qed.

(** Walks down a chain of binds whose steps keep the file system or write
    below [root]. *)
Ltac confined_chain :=
  repeat first
    [ apply confined_bind;
      [ first [ solve [apply confined_keeps; unfold datetime_now; auto with fs_keep]
              | solve [apply confined_open_write; first [apply prefix_below2 | apply prefix_below1]] ]
      | intros ? ]
    | solve [apply confined_keeps; auto with fs_keep]
    | solve [apply confined_open_write; first [apply prefix_below2 | apply prefix_below1]] ].

Section UnitsConfined.
Variable self : Simulator.

Lemma confined_create_financial_report :
  fs_moves (confined (work_dir self)) (create_financial_report self).
Proof. unfold create_financial_report. confined_chain. Qed.

Lemma confined_update_client_data :
  fs_moves (confined (work_dir self)) (update_client_data self).
Proof. unfold update_client_data. confined_chain. Qed.

Lemma confined_create_compliance_document :
  fs_moves (confined (work_dir self)) (create_compliance_document self).
Proof. unfold create_compliance_document. confined_chain. Qed.

Lemma confined_generate_risk_analysis :
  fs_moves (confined (work_dir self)) (generate_risk_analysis self).
Proof. unfold generate_risk_analysis. confined_chain. Qed.

Lemma confined_access_regulatory_docs :
  fs_moves (confined (work_dir self)) (access_regulatory_docs self).
Proof. unfold access_regulatory_docs. confined_chain. Qed.

Lemma confined_backup_files :
  fs_moves (confined (work_dir self)) (backup_files self).
Proof.
  intros w r w' H. rewrite backup_files_unfold in H. revert w r w' H.
  intros w. generalize (strftime_Ymd (clock w)). intros day. revert w.
  change (fs_moves (confined (work_dir self))
            (mkdir_parents_exist_ok (work_dir self // "Backups" // day) ;;
             backup_walk self (work_dir self // "Backups" // day))).
  apply confined_bind.
  - rewrite below2. apply confined_mkdir.
  - intros _. apply confined_keeps, keeps_fs_backup_walk.
Qed.

Lemma confined_generate_daily_report :
  fs_moves (confined (work_dir self)) (generate_daily_report self).
Proof. unfold generate_daily_report. confined_chain. Qed.

Lemma confined_file_operations :
  fs_moves (confined (work_dir self)) (simulate_file_operations self).
Proof.
  unfold simulate_file_operations.
  apply fs_moves_choose; [apply confined_refl | apply confined_trans |].
  constructor; [apply confined_create_financial_report|].
  constructor; [apply confined_update_client_data|].
  constructor; [apply confined_create_compliance_document|].
  constructor; [apply confined_generate_risk_analysis|].
  constructor; [apply confined_backup_files|].
  constructor; [apply confined_access_regulatory_docs|].
  constructor.
Qed.

End UnitsConfined.

(** ** What the simulation may write *)

Lemma ended_Some d run :
  has_ended run = true -> run = Some (fst (ended d run), snd (ended d run)).
Proof. destruct run as [[r w]|]; [reflexivity|discriminate]. Qed.


Lemma moved_keeps_some W D f f' p :
  moved W D f f' -> is_Some (f !! p) -> is_Some (f' !! p).
Proof.
  intros H [x Hx]. destruct (H p) as [E|[[_ Hr]|(_ & Hn & _)]].
  - rewrite E. eauto.
  - destruct Hr as [[Hn _]|(c & c' & _ & ->)]; [congruence|eauto].
  - congruence.
Qed.

Lemma moved_keeps_dir W D f f' p :
  moved W D f f' -> f !! p = Some Dir -> f' !! p = Some Dir.
Proof.
  intros H Hx. destruct (H p) as [E|[[_ Hr]|(_ & Hn & _)]].
  - by rewrite E.
  - destruct Hr as [[Hn _]|(c & c' & Hn & _)]; congruence.
  - congruence.
Qed.

Lemma moved_keeps_file W D f f' p :
  moved W D f f' -> is_file f p = true -> is_file f' p = true.
Proof.
  unfold is_file. intros H Hx. destruct (H p) as [E|[[_ Hr]|(_ & Hn & _)]].
  - by rewrite E.
  - destruct Hr as [[Hn _]|(c & c' & _ & ->)]; [by rewrite Hn in Hx|done].
  - by rewrite Hn in Hx.
Qed.

Lemma moved_outside (W D : path -> Prop) f f' p :
  moved W D f f' -> ~ W p -> ~ D p -> f' !! p = f !! p.
Proof. intros H HW HD. destruct (H p) as [E|[[Hp _]|(Hp & _)]]; done. Qed.

Lemma confined_grew root sink f f' :
  ~ root `prefix_of` sink -> confined root f f' -> grew_at sink f f'.
Proof.
  intros Hout H. exists []. rewrite app_nil_r. unfold content_of.
  destruct (H sink) as [E|[[Hp _]|(_ & Hn & Hd)]]; [by rewrite E|done|].
  by rewrite Hn, Hd.
Qed.

Lemma grew_at_refl sink f : grew_at sink f f.
Proof. exists []. by rewrite app_nil_r. Qed.

Lemma grew_at_trans sink f g h : grew_at sink f g -> grew_at sink g h -> grew_at sink f h.
Proof.
  intros [x Hx] [y Hy]. exists (x ++ y). by rewrite Hy, Hx, <- app_assoc.
Qed.

Lemma grew_at_open_append sink content : fs_moves (grew_at sink) (open_append sink content).
Proof.
  intros w r w' H. unfold open_append in H.
  destruct (open_error (fs w) sink); injection H as <- <-; [apply grew_at_refl|].
  exists content. simpl. unfold content_of at 1. by rewrite lookup_insert_eq.
Qed.

Lemma moved_open_append (W D : path -> Prop) p content :
  W p -> fs_moves (moved W D) (open_append p content).
Proof.
  intros HW w r w' H. unfold open_append in H.
  destruct (open_error (fs w) p) eqn:E; injection H as <- <-; [apply moved_refl|].
  simpl. apply moved_insert_file; [done|by apply open_error_not_dir].
Qed.





(** ** Undisturbed runs *)

(** Computations that touch neither the clock, the flag nor the pending
    events, and do not raise the interrupt. *)
Lemma calm_frame {A} (c : M A) :
  (forall w r w', c w = (r, w') ->
     pending w' = pending w /\ is_running w' = is_running w /\ clock w' = clock w /\
     r <> Raise KeyboardInterrupt) ->
  calm c.
Proof.
  intros H w r w' Hp E. destruct (H _ _ _ E) as (H1 & H2 & H3 & H4).
  rewrite H1, H2, H3. repeat split; try done. apply Qle_refl.
Qed.

Ltac calm_by_cases H :=
  apply calm_frame; intros w r w' H.

Lemma calm_ret {A} (a : A) : calm (ret a).
Proof. calm_by_cases H. by injection H as <- <-. Qed.

Lemma calm_raise {A} e : is_Exception e = true -> calm (@raise A e).
Proof.
  intros He. calm_by_cases H. injection H as <- <-.
  repeat split. intros [= ->]. discriminate.
Qed.

Lemma calm_get {A} (f : World -> A) : calm (get f).
Proof. calm_by_cases H. by injection H as <- <-. Qed.

Lemma calm_logger_info msg : calm (logger_info msg).
Proof. calm_by_cases H. by injection H as <- <-. Qed.

Lemma calm_logger_error msg : calm (logger_error msg).
Proof. calm_by_cases H. by injection H as <- <-. Qed.

Lemma calm_print out : calm (print out).
Proof. calm_by_cases H. by injection H as <- <-. Qed.

Lemma calm_random_random : calm random_random.
Proof. calm_by_cases H. by injection H as <- <-. Qed.

Lemma calm_random_uniform a b : calm (random_uniform a b).
Proof. calm_by_cases H. by injection H as <- <-. Qed.

Lemma calm_random_randint a b : calm (random_randint a b).
Proof.
  calm_by_cases H. unfold random_randint in H.
  destruct (b <? a); by injection H as <- <-.
Qed.

Lemma calm_random_choice {A} (seq : list A) : calm (random_choice seq).
Proof. calm_by_cases H. destruct seq; by injection H as <- <-. Qed.

Lemma calm_random_choices {A} (population : list A) weights :
  calm (random_choices population weights).
Proof.
  calm_by_cases H. unfold random_choices in H.
  destruct (negb _); [by injection H as <- <-|].
  destruct (last _); [|by injection H as <- <-].
  destruct population; [by injection H as <- <-|].
  destruct (Qle_bool _ _); by injection H as <- <-.
Qed.

Lemma calm_item0 {A} (l : list A) : calm (item0 l).
Proof. calm_by_cases H. destruct l; by injection H as <- <-. Qed.

Lemma open_error_from_is_Exception target rest : forall pre f e,
  open_error_from target pre rest f = Some e -> is_Exception e = true.
Proof.
  induction rest as [|c rest IH]; intros pre f e H; [discriminate|].
  destruct rest as [|c2 rest].
  - simpl in H. destruct (is_dir f (pre // c)); [by injection H as <-|discriminate].
  - cbn [open_error_from] in H.
    destruct (f !! (pre // c)) as [[|content]|]; [by eapply IH| |]; by injection H as <-.
Qed.

Lemma open_error_is_Exception f p e : open_error f p = Some e -> is_Exception e = true.
Proof.
  destruct p as [|c p]; [by intros [= <-]|]. apply open_error_from_is_Exception.
Qed.

Lemma mkdir_from_is_Exception target rest : forall pre f e f',
  mkdir_from target pre rest f = (Raise e, f') -> is_Exception e = true.
Proof.
  induction rest as [|c rest IH]; intros pre f e f' H; simpl in H; [discriminate|].
  destruct (f !! (pre // c)) as [[|content]|]; [by eapply IH| |by eapply IH].
  injection H as <- _. by destruct rest.
Qed.

Lemma not_interrupt e : is_Exception e = true -> @Raise unit e <> Raise KeyboardInterrupt.
Proof. intros He [= ->]. discriminate. Qed.

Lemma calm_open_write p content : calm (open_write p content).
Proof.
  calm_by_cases H. unfold open_write in H.
  destruct (open_error _ _) as [e|] eqn:E; injection H as <- <-; [|done].
  repeat split. eapply not_interrupt, open_error_is_Exception, E.
Qed.

Lemma calm_open_append p content : calm (open_append p content).
Proof.
  calm_by_cases H. unfold open_append in H.
  destruct (open_error _ _) as [e|] eqn:E; injection H as <- <-; [|done].
  repeat split. eapply not_interrupt, open_error_is_Exception, E.
Qed.

Lemma calm_mkdir p : calm (mkdir_parents_exist_ok p).
Proof.
  calm_by_cases H. unfold mkdir_parents_exist_ok in H.
  destruct (mkdir_from p [] p (fs w)) as [[[]|e] f1] eqn:E; injection H as <- <-; [done|].
  repeat split. eapply not_interrupt, mkdir_from_is_Exception, E.
Qed.

Lemma calm_iterdir p : calm (iterdir p).
Proof.
  calm_by_cases H. unfold iterdir in H.
  destruct (is_dir _ _); [by injection H as <- <-|].
  destruct (is_file _ _); by injection H as <- <-.
Qed.

Lemma calm_time_sleep d : calm (time_sleep d).
Proof.
  intros w r w' Hp H. unfold time_sleep in H.
  destruct (Qle_bool 0 d) eqn:Hd.
  - simpl in H. rewrite Hp in H. injection H as <- <-. simpl.
    apply Qle_bool_iff in Hd. repeat split; [done| |done]. lra.
  - injection H as <- <-. repeat split; [done|apply Qle_refl|done].
Qed.

Lemma calm_bind {A B} (c : M A) (k : A -> M B) :
  calm c -> (forall a, calm (k a)) -> calm (bind c k).
Proof.
  intros Hc Hk w r w' Hp H. rewrite bind_unfold in H.
  destruct (c w) as [[a|e] w1] eqn:E.
  - destruct (Hc _ _ _ Hp E) as (H1 & H2 & H3 & _).
    destruct (Hk _ _ _ _ H1 H) as (H4 & H5 & H6 & H7).
    repeat split; [done|congruence| |done]. by eapply Qle_trans.
  - injection H as <- <-. destruct (Hc _ _ _ Hp E) as (H1 & H2 & H3 & H4).
    repeat split; try done. intros [= ->]. by apply H4.
Qed.

Lemma calm_bind_post {A B} (c : M A) (k : A -> M B) (P : A -> Prop) :
  calm c ->
  (forall w a w', c w = (Ok a, w') -> P a) ->
  (forall a, P a -> calm (k a)) ->
  calm (bind c k).
Proof.
  intros Hc HP Hk w r w' Hp H. rewrite bind_unfold in H.
  destruct (c w) as [[a|e] w1] eqn:E.
  - destruct (Hc _ _ _ Hp E) as (H1 & H2 & H3 & _).
    destruct (Hk _ (HP _ _ _ E) _ _ _ H1 H) as (H4 & H5 & H6 & H7).
    repeat split; [done|congruence| |done]. by eapply Qle_trans.
  - injection H as <- <-. destruct (Hc _ _ _ Hp E) as (H1 & H2 & H3 & H4).
    repeat split; try done. intros [= ->]. by apply H4.
Qed.

Lemma calm_for_each {A} (xs : list A) (body : A -> M unit) :
  (forall x, calm (body x)) -> calm (for_each xs body).
Proof.
  intros Hb. induction xs as [|x xs IH]; simpl.
  - apply calm_ret.
  - apply calm_bind; auto.
Qed.

Lemma calm_try_except {A} (body : M A) (handler : exn -> option (M A)) :
  calm body -> (forall e h, handler e = Some h -> calm h) ->
  calm (try_except body handler).
Proof.
  intros Hb Hh w r w' Hp H. unfold try_except in H.
  destruct (body w) as [[a|e] w1] eqn:E.
  - injection H as <- <-. destruct (Hb _ _ _ Hp E) as (H1 & H2 & H3 & _).
    repeat split; done.
  - destruct (Hb _ _ _ Hp E) as (H1 & H2 & H3 & H4).
    destruct (handler e) as [h|] eqn:Eh.
    + destruct (Hh _ _ Eh _ _ _ H1 H) as (H5 & H6 & H7 & H8).
      repeat split; [done|congruence| |done]. by eapply Qle_trans.
    + injection H as <- <-. repeat split; done.
Qed.

Lemma calm_choose (seq : list (M unit)) :
  Forall calm seq -> calm (operation <- random_choice seq ;; operation).
Proof.
  intros Hseq. apply (calm_bind_post _ _ (fun a => In a seq)).
  - apply calm_random_choice.
  - intros w a w'. apply random_choice_In.
  - intros a Ha. rewrite Forall_forall in Hseq. apply Hseq. by apply list_elem_of_In.
Qed.

Create HintDb calm_db discriminated.

#[local] Hint Resolve calm_ret calm_get calm_logger_info calm_logger_error calm_print
  calm_random_random calm_random_uniform calm_random_randint calm_random_choice
  calm_random_choices calm_item0 calm_open_write calm_open_append calm_mkdir
  calm_iterdir calm_time_sleep : calm_db.

(** Walks down a chain of binds. *)
Ltac calm_chain :=
  repeat first
    [ apply calm_bind; [solve [unfold datetime_now; auto with calm_db] | intros ?]
    | solve [unfold datetime_now; auto with calm_db] ].

Section UnitsCalm.
Variable self : Simulator.

Lemma calm_create_financial_report : calm (create_financial_report self).
Proof. unfold create_financial_report. calm_chain. Qed.

Lemma calm_update_client_data : calm (update_client_data self).
Proof. unfold update_client_data. calm_chain. Qed.

Lemma calm_create_compliance_document : calm (create_compliance_document self).
Proof. unfold create_compliance_document. calm_chain. Qed.

Lemma calm_generate_risk_analysis : calm (generate_risk_analysis self).
Proof. unfold generate_risk_analysis. calm_chain. Qed.

Lemma calm_access_regulatory_docs : calm (access_regulatory_docs self).
Proof. unfold access_regulatory_docs. calm_chain. Qed.

Lemma calm_backup_files : calm (backup_files self).
Proof.
  unfold backup_files.
  apply calm_bind; [unfold datetime_now; auto with calm_db|]. intros now.
  apply calm_bind; [auto with calm_db|]. intros _.
  apply calm_bind; [|intros _; calm_chain].
  apply calm_for_each. intros source_dir.
  apply calm_bind; [auto with calm_db|]. intros [|]; [|auto with calm_db].
  apply calm_bind; [auto with calm_db|]. intros files.
  apply calm_for_each. intros file_path. unfold backup_one.
  apply calm_bind; [auto with calm_db|]. intros [|]; auto with calm_db.
Qed.

Lemma calm_simulate_file_operations : calm (simulate_file_operations self).
Proof.
  unfold simulate_file_operations. apply calm_choose.
  constructor; [apply calm_create_financial_report|].
  constructor; [apply calm_update_client_data|].
  constructor; [apply calm_create_compliance_document|].
  constructor; [apply calm_generate_risk_analysis|].
  constructor; [apply calm_backup_files|].
  constructor; [apply calm_access_regulatory_docs|].
  constructor.
Qed.

Lemma calm_simulate_application_usage : calm (simulate_application_usage self).
Proof.
  unfold simulate_application_usage.
  apply calm_bind; [auto with calm_db|]. intros app.
  apply calm_try_except.
  - unfold application_usage_body.
    destruct (str_in app _); [calm_chain|].
    destruct (str_in app _); [calm_chain|].
    destruct (String.eqb app "Terminal"); calm_chain.
  - intros e h Hh. destruct (is_Exception e); [|discriminate].
    injection Hh as <-. auto with calm_db.
Qed.

Lemma calm_simulate_network_activity : calm simulate_network_activity.
Proof. unfold simulate_network_activity. calm_chain. Qed.

Lemma calm_simulate_security_actions : calm (simulate_security_actions self).
Proof. unfold simulate_security_actions. calm_chain. Qed.

Lemma calm_work_activities : Forall calm (map fst (work_activities self)).
Proof.
  constructor; [apply calm_simulate_file_operations|].
  constructor; [apply calm_simulate_application_usage|].
  constructor; [apply calm_simulate_network_activity|].
  constructor; [apply calm_simulate_security_actions|].
  constructor.
Qed.

End UnitsCalm.

Lemma advances_pace (n a b : Q) :
  (n <= a)%Q -> (0 <= a)%Q -> (a <= b)%Q ->
  advances n (d <- random_uniform a b ;; time_sleep d).
Proof.
  intros Hn Ha Hab w w' Hp H. rewrite bind_unfold in H.
  destruct (random_uniform_spec a b w Hab) as (d & Hd & Hd1 & Hd2).
  rewrite Hd in H. rewrite time_sleep_calm' in H; [|lra|done].
  injection H as <-. simpl. lra.
Qed.

Lemma advances_bind {A} (c : M A) (k : A -> M unit) (n : Q) :
  calm c -> (forall a, advances n (k a)) -> advances n (bind c k).
Proof.
  intros Hc Hk w w' Hp H. rewrite bind_unfold in H.
  destruct (c w) as [[a|e] w1] eqn:E; [|discriminate].
  destruct (Hc _ _ _ Hp E) as (H1 & _ & H3 & _).
  pose proof (Hk _ _ _ H1 H). lra.
Qed.

Lemma advances_bind_post {A} (c : M A) (k : A -> M unit) (n : Q) (P : A -> Prop) :
  calm c ->
  (forall w a w', c w = (Ok a, w') -> P a) ->
  (forall a, P a -> advances n (k a)) ->
  advances n (bind c k).
Proof.
  intros Hc HP Hk w w' Hp H. rewrite bind_unfold in H.
  destruct (c w) as [[a|e] w1] eqn:E; [|discriminate].
  destruct (Hc _ _ _ Hp E) as (H1 & _ & H3 & _).
  pose proof (Hk _ (HP _ _ _ E) _ _ H1 H). lra.
Qed.

Section LoopCalm.
Variable self : Simulator.
Variable acts : list (M unit).
Variable ws : list Q.
Hypothesis acts_calm : Forall calm acts.

Lemma calm_try_body : calm (try_body self acts ws).
Proof.
  intros w r w'. rewrite try_body_unfold.
  pose proof acts_calm as Hacts. rewrite Forall_forall in Hacts.
  destruct (regime_for _); revert w r w'.
  - unfold work_hours_branch.
    apply (calm_bind_post _ _ (fun chosen => exists a, chosen = [a] /\ In a acts));
      [auto with calm_db|intros w a w'; apply random_choices_In|].
    intros chosen (a & -> & Ha). cbn [item0].
    apply (calm_bind_post _ _ (fun b => b = a));
      [auto with calm_db | by intros w b w' [= <-] |].
    intros activity ->.
    apply calm_bind; [apply Hacts; by apply list_elem_of_In|]. intros _. calm_chain.
  - unfold after_hours_branch.
    apply calm_bind; [auto with calm_db|]. intros u.
    apply calm_bind; [|intros _; calm_chain].
    destruct (Qlt_bool u (1 # 10)); [apply calm_simulate_security_actions|auto with calm_db].
Qed.

Lemma advances_try_body : advances 30 (try_body self acts ws).
Proof.
  intros w w'. rewrite try_body_unfold.
  pose proof acts_calm as Hacts. rewrite Forall_forall in Hacts.
  destruct (regime_for _); revert w w'.
  - unfold work_hours_branch.
    apply (advances_bind_post _ _ _ (fun chosen => exists a, chosen = [a] /\ In a acts));
      [auto with calm_db|intros w a w'; apply random_choices_In|].
    intros chosen (a & -> & Ha). cbn [item0].
    apply (advances_bind_post _ _ _ (fun b => b = a));
      [auto with calm_db | by intros w b w' [= <-] |].
    intros activity ->.
    apply advances_bind; [apply Hacts; by apply list_elem_of_In|]. intros _.
    apply advances_pace; lra.
  - unfold after_hours_branch.
    apply advances_bind; [auto with calm_db|]. intros u.
    apply advances_bind.
    + destruct (Qlt_bool u (1 # 10)); [apply calm_simulate_security_actions|auto with calm_db].
    + intros _. apply advances_pace; lra.
Qed.

(** Undisturbed, an iteration always ends at the bottom of the loop body,
    at least 30 seconds after it began. *)
Lemma loop_iteration_undisturbed w :
  pending w = [] ->
  exists w',
    loop_iteration self acts ws w = (Ok Continue, w') /\
    pending w' = [] /\ is_running w' = is_running w /\
    (clock w + 30 <= clock w')%Q.
Proof.
  intros Hp. rewrite loop_iteration_unfold.
  destruct (try_body self acts ws w) as [[[]|e] w1] eqn:E.
  - destruct (calm_try_body _ _ _ Hp E) as (H1 & H2 & _ & _).
    pose proof (advances_try_body _ _ Hp E). eauto.
  - destruct (calm_try_body _ _ _ Hp E) as (H1 & H2 & H3 & H4).
    destruct e; [done| | | | | |];
      (rewrite time_sleep_calm'; [|lra|done]);
      (eexists; split; [reflexivity|]; simpl; repeat split; [done|done|lra]).
Qed.

Lemma while_running_undisturbed fuel : forall w,
  pending w = [] -> is_running w = true ->
  while_running fuel (loop_iteration self acts ws) w = None.
Proof.
  induction fuel as [|fuel IH]; intros w Hp Hr; [reflexivity|].
  simpl. rewrite Hr.
  destruct (loop_iteration_undisturbed w Hp) as (w' & -> & Hp' & Hr' & _).
  apply IH; [done|congruence].
Qed.

End LoopCalm.

(** X3: while no stop or interrupt arrives, every iteration of the
    scheduler loop over the catalog of the source reaches the bottom of the
    loop body, whatever its unit of work did (an error is absorbed), leaves
    the flag as it was, and lasts at least 30 seconds: the loop never spins
    without sleeping. *)
Theorem iteration_takes_half_a_minute (self : Simulator) (w : World) :
  pending w = [] ->
  exists w',
    loop_iteration self (map fst (work_activities self)) (map snd (work_activities self)) w
    = (Ok Continue, w') /\
    pending w' = [] /\ is_running w' = is_running w /\
    (clock w + 30 <= clock w')%Q.
Proof. apply loop_iteration_undisturbed, calm_work_activities. Qed.

Lemma iteration_takes_half_a_minute_witness :
  let w := Scenario.started Scenario.ten_am in
  pending w = [] /\
  exists w',
    loop_iteration Scenario.sarah (map fst (work_activities Scenario.sarah))
      (map snd (work_activities Scenario.sarah)) w
    = (Ok Continue, w') /\
    pending w' = [] /\ is_running w' = is_running w /\
    (clock w + 30 <= clock w')%Q.
Proof.
  cbv zeta. split; [reflexivity|].
  exact (iteration_takes_half_a_minute Scenario.sarah
           (Scenario.started Scenario.ten_am) eq_refl).
Defined.

(** X4: the simulation runs until it is stopped.  While no stop or
    interrupt arrives, neither the loop (entered with the flag set) nor
    [start_simulation] ever returns, however much fuel they are given: no
    error of a unit of work ends them. *)
Theorem simulation_runs_until_stopped (self : Simulator) (fuel : nat) (w : World) :
  pending w = [] ->
  (is_running w = true -> simulate_work_day self fuel w = None) /\
  start_simulation self fuel w = None.
Proof.
  intros Hp. split.
  - intros Hr. unfold simulate_work_day.
    apply while_running_undisturbed; [apply calm_work_activities|done|done].
  - unfold start_simulation. run_py.
    unfold simulate_work_day.
    rewrite while_running_undisturbed; [reflexivity|apply calm_work_activities|done|done].
Qed.

Lemma simulation_runs_until_stopped_witness :
  let w := Scenario.started Scenario.ten_am in
  pending w = [] /\ is_running w = true /\
  simulate_work_day Scenario.sarah 5 w = None /\
  start_simulation Scenario.sarah 5 w = None.
Proof.
  cbv zeta. split; [reflexivity|]. split; [reflexivity|].
  destruct (simulation_runs_until_stopped Scenario.sarah 5
              (Scenario.started Scenario.ten_am) eq_refl) as [H1 H2].
  split; [exact (H1 eq_refl)|exact H2].
Defined.

(** ** What the units of work leave behind *)

Lemma sleep_until_trace t evs : forall w,
  exists rest, trace (snd (sleep_until t evs w)) = trace w ++ rest.
Proof.
  induction evs as [|[s ev] more IH]; intros w; simpl.
  - exists []. by rewrite app_nil_r.
  - destruct (Qle_bool s t); [|exists []; by rewrite app_nil_r].
    destruct ev; [|exists []; by rewrite app_nil_r].
    match goal with
    | |- context [sleep_until t more ?w0] => destruct (IH w0) as [rest Hrest]
    end.
    rewrite Hrest. simpl. rewrite <- app_assoc. eauto.
Qed.

(** A sleep records itself first; what follows in its trace are the
    records of stops issued meanwhile. *)
Lemma time_sleep_trace d w r w' :
  (0 <= d)%Q -> time_sleep d w = (r, w') ->
  exists rest, trace w' = trace w ++ (clock w, EvSleep d) :: rest.
Proof.
  intros Hd H. unfold time_sleep in H. apply Qle_bool_iff in Hd. rewrite Hd in H.
  destruct (sleep_until_trace (clock w + d) (pending (emit (EvSleep d) w))
              (emit (EvSleep d) w)) as [rest Hrest].
  rewrite H in Hrest. simpl in Hrest. rewrite <- app_assoc in Hrest. eauto.
Qed.

(** [round(x, n)] stays between two bounds that are multiples of 10^-n. *)
Lemma py_round_bounds (lo hi : Z) (n : nat) (x : Q) :
  (inject_Z lo <= x * inject_Z (10 ^ Z.of_nat n))%Q ->
  (x * inject_Z (10 ^ Z.of_nat n) <= inject_Z hi)%Q ->
  (inject_Z lo / inject_Z (10 ^ Z.of_nat n) <= py_round x n)%Q /\
  (py_round x n <= inject_Z hi / inject_Z (10 ^ Z.of_nat n))%Q.
Proof.
  intros H1 H2. unfold py_round.
  destruct (round_half_even_bounds lo hi _ H1 H2) as [Hb1 Hb2].
  assert (Hpos : (0 < inject_Z (10 ^ Z.of_nat n))%Q).
  { change 0%Q with (inject_Z 0). rewrite <- Zlt_Qlt. apply Z.pow_pos_nonneg; lia. }
  split; apply Qmult_le_compat_r; try (by rewrite <- Zle_Qle);
    apply Qlt_le_weak, Qinv_lt_0_compat, Hpos.
Qed.

Lemma py_round_risk_score (x : Q) :
  (1 <= x)%Q -> (x <= 10)%Q -> (1 <= py_round x 2)%Q /\ (py_round x 2 <= 10)%Q.
Proof.
  intros H1 H2.
  destruct (py_round_bounds 100 1000 2 x) as [Ha Hb].
  - change (inject_Z (10 ^ Z.of_nat 2)) with 100%Q. change (inject_Z 100) with 100%Q. lra.
  - change (inject_Z (10 ^ Z.of_nat 2)) with 100%Q. change (inject_Z 1000) with 1000%Q. lra.
  - split; [eapply Qle_trans; [|exact Ha] | eapply Qle_trans; [exact Hb|]]; by vm_compute.
Qed.

Lemma py_round_probability (x : Q) :
  (1 # 10 <= x)%Q -> (x <= 9 # 10)%Q ->
  (1 # 10 <= py_round x 2)%Q /\ (py_round x 2 <= 9 # 10)%Q.
Proof.
  intros H1 H2.
  destruct (py_round_bounds 10 90 2 x) as [Ha Hb].
  - change (inject_Z (10 ^ Z.of_nat 2)) with 100%Q. change (inject_Z 10) with 10%Q. lra.
  - change (inject_Z (10 ^ Z.of_nat 2)) with 100%Q. change (inject_Z 90) with 90%Q. lra.
  - split; [eapply Qle_trans; [|exact Ha] | eapply Qle_trans; [exact Hb|]]; by vm_compute.
Qed.

(** X5: [create_financial_report] writes one file and says so afterwards.
    The file lies in [Financial_Reports], its name is made of one of the
    five report types and the date of the call; the report holds three
    integers and a risk score in their ranges.  If the file cannot be
    opened, [open]'s error leaves the method with nothing written and
    nothing logged.  Otherwise the file holds the new report only (an older
    report of that type and day is overwritten), the INFO record follows the
    write, and the dwell of 2 to 5 seconds comes last. *)
Theorem financial_report_written (self : Simulator) (w : World) (r : Result unit)
    (w' : World) :
  create_financial_report self w = (r, w') ->
  exists report_type,
    In report_type ["Monthly_P&L"; "Cash_Flow_Analysis"; "Budget_Variance";
                    "Credit_Risk_Report"; "Investment_Summary"] /\
    let filename := report_type +:+ "_" +:+ strftime_Ymd (clock w) +:+ ".xlsx" in
    let filepath := work_dir self // "Financial_Reports" // filename in
    match open_error (fs w) filepath with
    | Some e => r = Raise e /\ fs w' = fs w /\ trace w' = trace w
    | None =>
        exists total_assets total_liabilities net_income risk_score d rest,
          1000000 <= total_assets <= 10000000 /\
          500000 <= total_liabilities <= 8000000 /\
          50000 <= net_income <= 500000 /\
          (1 <= risk_score)%Q /\ (risk_score <= 10)%Q /\
          (2 <= d)%Q /\ (d <= 5)%Q /\
          fs w' = <[filepath := File [JsonDump (Some 2%nat) (JDict [
                     ("report_type", JStr report_type);
                     ("generated_by", JStr (employee_name self));
                     ("timestamp", JStr (isoformat (clock w)));
                     ("department", JStr (department self));
                     ("data", JDict [
                        ("total_assets", JInt total_assets);
                        ("total_liabilities", JInt total_liabilities);
                        ("net_income", JInt net_income);
                        ("risk_score", JFloat risk_score) ]) ])]]> (fs w) /\
          trace w' = trace w ++
            (clock w, EvLog INFO ("Created financial report: " +:+ filename)) ::
            (clock w, EvSleep d) :: rest
    end.
Proof.
  destruct w as [c dr cu f tr ir pe eh].
  unfold create_financial_report, random_choice. run_py.
  unfold bind, open_write. run_py.
  intros H. eexists. split; [apply (nth_mod_In _ _ (dr cu))|]. cbv zeta. run_py.
  revert H. destruct (open_error f _) as [e0|] eqn:Eopen; run_py; intros H.
  - injection H as <- <-. done.
  - pose proof (random_value_range (dr (S (S (S (S cu)))))) as [Hu0 Hu1].
    pose proof (random_value_range (dr (S (S (S (S (S cu))))))) as [Hv0 Hv1].
    assert (H19 : (1 <= 10)%Q) by done. assert (H25 : (2 <= 5)%Q) by done.
    destruct (uniform_range 1 10 _ H19 Hu0 Hu1) as [Hs0 Hs1].
    destruct (uniform_range 2 5 _ H25 Hv0 Hv1) as [Hd0 Hd1].
    pose proof (time_sleep_fs_eq _ _ _ _ H) as Hfs.
    apply time_sleep_trace in H; [|by eapply Qle_trans; [|exact Hd0]].
    destruct H as [rest Hrest].
    simpl in Hfs, Hrest. rewrite <- app_assoc in Hrest.
    eexists _, _, _, _, _, rest.
    split; [by apply randint_value_range|].
    split; [by apply randint_value_range|].
    split; [by apply randint_value_range|].
    split; [by apply py_round_risk_score|].
    split; [by apply py_round_risk_score|].
    split; [exact Hd0|]. split; [exact Hd1|].
    split; [exact Hfs|exact Hrest].
Qed.

Lemma financial_report_written_witness :
  let w := Scenario.started Scenario.ten_am in
  let run := create_financial_report Scenario.sarah w in
  create_financial_report Scenario.sarah w = (fst run, snd run) /\
  exists report_type,
    In report_type ["Monthly_P&L"; "Cash_Flow_Analysis"; "Budget_Variance";
                    "Credit_Risk_Report"; "Investment_Summary"].
Proof.
  cbv zeta. split; [apply surjective_pairing|].
  destruct (financial_report_written Scenario.sarah (Scenario.started Scenario.ten_am)
              _ _ (surjective_pairing _))
    as (report_type & Hin & _).
  exists report_type. exact Hin.
Defined.

(** X6: [update_client_data] rewrites one of the four client files in
    [Client_Data] with counters in their ranges; the record of the update is
    logged after the write, a dwell of 1 to 3 seconds follows.  If the file
    cannot be opened, nothing is written and nothing is logged. *)
Theorem client_data_updated (self : Simulator) (w : World) (r : Result unit)
    (w' : World) :
  update_client_data self w = (r, w') ->
  exists filename,
    In filename ["High_Net_Worth_Clients.csv"; "Corporate_Accounts.xlsx";
                 "Loan_Portfolio.json"; "Investment_Clients.csv"] /\
    let filepath := work_dir self // "Client_Data" // filename in
    match open_error (fs w) filepath with
    | Some e => r = Raise e /\ fs w' = fs w /\ trace w' = trace w
    | None =>
        exists clients_processed accounts_reviewed flags_raised d rest,
          10 <= clients_processed <= 50 /\
          25 <= accounts_reviewed <= 100 /\
          0 <= flags_raised <= 5 /\
          (1 <= d)%Q /\ (d <= 3)%Q /\
          fs w' = <[filepath := File [JsonDump (Some 2%nat) (JDict [
                      ("last_updated", JStr (isoformat (clock w)));
                      ("updated_by", JStr (employee_name self));
                      ("clients_processed", JInt clients_processed);
                      ("accounts_reviewed", JInt accounts_reviewed);
                      ("flags_raised", JInt flags_raised) ])]]> (fs w) /\
          trace w' = trace w ++
            (clock w, EvLog INFO ("Updated client data file: " +:+ filename)) ::
            (clock w, EvSleep d) :: rest
    end.
Proof.
  destruct w as [c dr cu f tr ir pe eh].
  unfold update_client_data, random_choice. run_py.
  unfold bind, open_write. run_py.
  intros H. eexists. split; [apply (nth_mod_In _ _ (dr cu))|]. cbv zeta. run_py.
  revert H. destruct (open_error f _) as [e0|] eqn:Eopen; run_py; intros H.
  - injection H as <- <-. done.
  - pose proof (random_value_range (dr (S (S (S (S cu)))))) as [Hv0 Hv1].
    assert (H13 : (1 <= 3)%Q) by done.
    destruct (uniform_range 1 3 _ H13 Hv0 Hv1) as [Hd0 Hd1].
    pose proof (time_sleep_fs_eq _ _ _ _ H) as Hfs.
    apply time_sleep_trace in H; [|by eapply Qle_trans; [|exact Hd0]].
    destruct H as [rest Hrest].
    simpl in Hfs, Hrest. rewrite <- app_assoc in Hrest.
    eexists _, _, _, _, rest.
    split; [by apply randint_value_range|].
    split; [by apply randint_value_range|].
    split; [by apply randint_value_range|].
    split; [exact Hd0|]. split; [exact Hd1|].
    split; [exact Hfs|exact Hrest].
Qed.

Lemma client_data_updated_witness :
  let w := Scenario.started Scenario.ten_am in
  let run := update_client_data Scenario.sarah w in
  update_client_data Scenario.sarah w = (fst run, snd run) /\
  exists filename,
    In filename ["High_Net_Worth_Clients.csv"; "Corporate_Accounts.xlsx";
                 "Loan_Portfolio.json"; "Investment_Clients.csv"].
Proof.
  cbv zeta. split; [apply surjective_pairing|].
  destruct (client_data_updated Scenario.sarah (Scenario.started Scenario.ten_am)
              _ _ (surjective_pairing _))
    as (filename & Hin & _).
  exists filename. exact Hin.
Defined.

(** X7: [generate_risk_analysis] writes one analysis into [Risk_Analysis],
    named after one of the five risk types and the date of the call.  Its
    risk level is one of the four levels, its probability (rounded to two
    places) lies between 0.1 and 0.9, its impact score between 1 and 10.
    The INFO record follows the write, a dwell of 2 to 4 seconds comes last;
    if the file cannot be opened, nothing is written and nothing is
    logged. *)
Theorem risk_analysis_generated (self : Simulator) (w : World) (r : Result unit)
    (w' : World) :
  generate_risk_analysis self w = (r, w') ->
  exists risk_type,
    In risk_type ["Credit_Risk"; "Market_Risk"; "Operational_Risk";
                  "Liquidity_Risk"; "Regulatory_Risk"] /\
    let filename := risk_type +:+ "_Analysis_" +:+ strftime_Ymd (clock w) +:+ ".json" in
    let filepath := work_dir self // "Risk_Analysis" // filename in
    match open_error (fs w) filepath with
    | Some e => r = Raise e /\ fs w' = fs w /\ trace w' = trace w
    | None =>
        exists risk_level probability impact_score d rest,
          In risk_level ["Low"; "Medium"; "High"; "Critical"] /\
          (1 # 10 <= probability)%Q /\ (probability <= 9 # 10)%Q /\
          1 <= impact_score <= 10 /\
          (2 <= d)%Q /\ (d <= 4)%Q /\
          fs w' = <[filepath := File [JsonDump (Some 2%nat) (JDict [
                      ("analysis_type", JStr risk_type);
                      ("analyst", JStr (employee_name self));
                      ("date", JStr (isoformat (clock w)));
                      ("risk_level", JStr risk_level);
                      ("probability", JFloat probability);
                      ("impact_score", JInt impact_score);
                      ("mitigation_strategies", JList [
                         JStr "Implement additional controls";
                         JStr "Increase monitoring frequency";
                         JStr "Review policy limits";
                         JStr "Escalate to management" ]) ])]]> (fs w) /\
          trace w' = trace w ++
            (clock w, EvLog INFO ("Generated risk analysis: " +:+ filename)) ::
            (clock w, EvSleep d) :: rest
    end.
Proof.
  destruct w as [c dr cu f tr ir pe eh].
  unfold generate_risk_analysis, random_choice. run_py.
  unfold bind, open_write. run_py.
  intros H. eexists. split; [apply (nth_mod_In _ _ (dr cu))|]. cbv zeta. run_py.
  revert H. destruct (open_error f _) as [e0|] eqn:Eopen; run_py; intros H.
  - injection H as <- <-. done.
  - pose proof (random_value_range (dr (S (S cu)))) as [Hu0 Hu1].
    pose proof (random_value_range (dr (S (S (S (S cu)))))) as [Hv0 Hv1].
    assert (H19 : (1 # 10 <= 9 # 10)%Q) by done. assert (H24 : (2 <= 4)%Q) by done.
    destruct (uniform_range _ _ _ H19 Hu0 Hu1) as [Hs0 Hs1].
    destruct (uniform_range 2 4 _ H24 Hv0 Hv1) as [Hd0 Hd1].
    pose proof (time_sleep_fs_eq _ _ _ _ H) as Hfs.
    apply time_sleep_trace in H; [|by eapply Qle_trans; [|exact Hd0]].
    destruct H as [rest Hrest].
    simpl in Hfs, Hrest. rewrite <- app_assoc in Hrest.
    eexists _, _, _, _, rest.
    split; [apply (nth_mod_In _ _ (dr (S cu)))|].
    split; [by apply py_round_probability|].
    split; [by apply py_round_probability|].
    split; [by apply randint_value_range|].
    split; [exact Hd0|]. split; [exact Hd1|].
    split; [exact Hfs|exact Hrest].
Qed.

Lemma risk_analysis_generated_witness :
  let w := Scenario.started Scenario.ten_am in
  let run := generate_risk_analysis Scenario.sarah w in
  generate_risk_analysis Scenario.sarah w = (fst run, snd run) /\
  exists risk_type,
    In risk_type ["Credit_Risk"; "Market_Risk"; "Operational_Risk";
                  "Liquidity_Risk"; "Regulatory_Risk"].
Proof.
  cbv zeta. split; [apply surjective_pairing|].
  destruct (risk_analysis_generated Scenario.sarah (Scenario.started Scenario.ten_am)
              _ _ (surjective_pairing _))
    as (risk_type & Hin & _).
  exists risk_type. exact Hin.
Defined.

(** X8: [create_compliance_document] writes one text document into
    [Compliance], named after one of the five document types and the date
    of the call.  The document is generated at the time of the call, by the
    simulator's employee and department, and schedules the next review 30
    days later.  The INFO record follows the write, a dwell of 3 to 7
    seconds comes last; if the file cannot be opened, nothing is written and
    nothing is logged. *)
Theorem compliance_document_created (self : Simulator) (w : World) (r : Result unit)
    (w' : World) :
  create_compliance_document self w = (r, w') ->
  exists doc_type,
    In doc_type ["AML_Review"; "KYC_Updates"; "Regulatory_Filing";
                 "Audit_Response"; "Policy_Update"] /\
    let filename := doc_type +:+ "_" +:+ strftime_Ymd (clock w) +:+ ".docx" in
    let filepath := work_dir self // "Compliance" // filename in
    match open_error (fs w) filepath with
    | Some e => r = Raise e /\ fs w' = fs w /\ trace w' = trace w
    | None =>
        exists d rest,
          (3 <= d)%Q /\ (d <= 7)%Q /\
          fs w' = <[filepath := File [Text (
                      nl +:+ "CONFIDENTIAL - INTERNAL USE ONLY" +:+ nl +:+
                      nl +:+ doc_type +:+ " Document" +:+ nl +:+
                      "Generated: " +:+ strftime_Y_m_d_HMS (clock w) +:+ nl +:+
                      "Author: " +:+ employee_name self +:+ nl +:+
                      "Department: " +:+ department self +:+ nl +:+
                      nl +:+ "Summary:" +:+ nl +:+
                      "- Compliance review completed" +:+ nl +:+
                      "- No significant issues identified" +:+ nl +:+
                      "- Recommendations for improvement documented" +:+ nl +:+
                      "- Next review scheduled for " +:+
                        strftime_Y_m_d (clock w + inject_Z (30 * 86400))%Q +:+ nl +:+
                      nl +:+ "Classification: Internal" +:+ nl +:+
                      "Distribution: Compliance Team Only" +:+ nl)]]> (fs w) /\
          trace w' = trace w ++
            (clock w, EvLog INFO ("Created compliance document: " +:+ filename)) ::
            (clock w, EvSleep d) :: rest
    end.
Proof.
  destruct w as [c dr cu f tr ir pe eh].
  unfold create_compliance_document, random_choice. run_py.
  unfold bind, open_write. run_py.
  intros H. eexists. split; [apply (nth_mod_In _ _ (dr cu))|]. cbv zeta. run_py.
  revert H. destruct (open_error f _) as [e0|] eqn:Eopen; run_py; intros H.
  - injection H as <- <-. done.
  - pose proof (random_value_range (dr (S cu))) as [Hv0 Hv1].
    assert (H37 : (3 <= 7)%Q) by done.
    destruct (uniform_range 3 7 _ H37 Hv0 Hv1) as [Hd0 Hd1].
    pose proof (time_sleep_fs_eq _ _ _ _ H) as Hfs.
    apply time_sleep_trace in H; [|by eapply Qle_trans; [|exact Hd0]].
    destruct H as [rest Hrest].
    simpl in Hfs, Hrest. rewrite <- app_assoc in Hrest.
    eexists _, rest.
    split; [exact Hd0|]. split; [exact Hd1|].
    split; [exact Hfs|exact Hrest].
Qed.

Lemma compliance_document_created_witness :
  let w := Scenario.started Scenario.ten_am in
  let run := create_compliance_document Scenario.sarah w in
  create_compliance_document Scenario.sarah w = (fst run, snd run) /\
  exists doc_type,
    In doc_type ["AML_Review"; "KYC_Updates"; "Regulatory_Filing";
                 "Audit_Response"; "Policy_Update"].
Proof.
  cbv zeta. split; [apply surjective_pairing|].
  destruct (compliance_document_created Scenario.sarah (Scenario.started Scenario.ten_am)
              _ _ (surjective_pairing _))
    as (doc_type & Hin & _).
  exists doc_type. exact Hin.
Defined.



(** ** The workspace and the constructor *)

(** [mkdir] fails only on a file in its way, and names its argument. *)
Lemma mkdir_from_fails target rest : forall pre f e f',
  mkdir_from target pre rest f = (Raise e, f') ->
  (e = FileExistsError target \/ e = NotADirectoryError target) /\
  exists q content, q `prefix_of` (pre ++ rest) /\ f !! q = Some (File content).
Proof.
  induction rest as [|c rest IH]; intros pre f e f' H; simpl in H; [discriminate|].
  assert (Hq : forall q, q `prefix_of` ((pre // c) ++ rest) ->
                         q `prefix_of` (pre ++ c :: rest)).
  { intros q. unfold div_path. by rewrite <- app_assoc. }
  destruct (f !! (pre // c)) as [[|content]|] eqn:E.
  - destruct (IH _ _ _ _ H) as (He & q & content & Hp & Hf). eauto 6.
  - injection H as <- <-. split; [destruct rest; auto|].
    exists (pre // c), content. split; [|done].
    exists rest. unfold div_path. by rewrite <- app_assoc.
  - destruct (IH _ _ _ _ H) as (He & q & content & Hp & Hf).
    split; [done|]. exists q, content. split; [auto|].
    destruct (decide (q = pre // c)) as [->|Hne].
    + rewrite lookup_insert_eq in Hf. discriminate.
    + by rewrite lookup_insert_ne in Hf.
Qed.

(** Where a [mkdir] has nothing left to create, it has nothing to create
    in a file system with more directories either. *)
Lemma mkdir_from_more_dirs target rest : forall pre f g,
  mkdir_from target pre rest f = (Ok tt, f) ->
  (forall p, f !! p = Some Dir -> g !! p = Some Dir) ->
  mkdir_from target pre rest g = (Ok tt, g).
Proof.
  induction rest as [|c rest IH]; intros pre f g H Hsub; simpl in *; [done|].
  destruct (f !! (pre // c)) as [[|content]|] eqn:E.
  - rewrite (Hsub _ E). by eapply IH.
  - discriminate.
  - pose proof (mkdir_from_keeps_dirs _ _ _ _ _ _ (pre // c) H) as Hk.
    rewrite lookup_insert_eq in Hk. specialize (Hk eq_refl). congruence.
Qed.

Lemma is_dir_kept (f g : gmap path node) (p : path) :
  (forall q, f !! q = Some Dir -> g !! q = Some Dir) ->
  is_dir f p = true -> is_dir g p = true.
Proof.
  intros Hsub. unfold is_dir. destruct p as [|c p]; [done|].
  destruct (f !! (c :: p)) as [[|content]|] eqn:E; try done.
  by rewrite (Hsub _ E).
Qed.

Lemma set_fs_same (w : World) : set_fs (fs w) w = w.
Proof. by destruct w. Qed.

(** The loop of [setup_workspace]. *)
Lemma for_each_mkdir ds : forall w r w',
  for_each ds mkdir_parents_exist_ok w = (r, w') ->
  w' = set_fs (fs w') w /\
  (forall p content, fs w' !! p = Some (File content) <-> fs w !! p = Some (File content)) /\
  (forall p, fs w !! p = Some Dir -> fs w' !! p = Some Dir) /\
  match r with
  | Ok _ =>
      Forall (fun d => is_dir (fs w') d = true) ds /\
      Forall (fun d => forall g, (forall p, fs w' !! p = Some Dir -> g !! p = Some Dir) ->
                                 mkdir_from d [] d g = (Ok tt, g)) ds
  | Raise e =>
      exists d, In d ds /\ (e = FileExistsError d \/ e = NotADirectoryError d) /\
                file_in_the_way (fs w) d
  end.
Proof.
  induction ds as [|d ds IH]; intros w r w' H; simpl in H.
  - injection H as <- <-. rewrite set_fs_same. repeat split; auto.
  - rewrite bind_unfold in H. unfold mkdir_parents_exist_ok in H at 1.
    destruct (mkdir_from d [] d (fs w)) as [[[]|e] f1] eqn:E.
    + destruct (IH _ _ _ H) as (Hw & Hfiles & Hdirs & Hr). simpl in Hfiles, Hdirs.
      assert (Hfiles' : forall p content,
                 fs w' !! p = Some (File content) <-> fs w !! p = Some (File content)).
      { intros p content. rewrite Hfiles. by eapply mkdir_from_files. }
      assert (Hdirs' : forall p, fs w !! p = Some Dir -> fs w' !! p = Some Dir).
      { intros p Hp. apply Hdirs. by eapply mkdir_from_keeps_dirs. }
      split; [rewrite Hw; by destruct w|]. split; [done|]. split; [done|].
      destruct r as [[]|e].
      * destruct Hr as [Hr1 Hr2]. split; constructor; try done.
        -- eapply is_dir_kept; [exact Hdirs|].
           by apply (mkdir_from_is_dir d d [] (fs w) f1).
        -- intros g Hg. eapply mkdir_from_more_dirs; [by eapply mkdir_from_again|].
           intros p Hp. apply Hg, Hdirs, Hp.
      * destruct Hr as (d' & Hin & He & q & content & Hq & Hf).
        exists d'. split; [by right|]. split; [done|].
        exists q, content. split; [done|].
        by apply (mkdir_from_files _ _ _ _ _ _ q content E).
    + injection H as <- <-. simpl.
      split; [done|]. split; [intros; by eapply mkdir_from_files|].
      split; [intros; by eapply mkdir_from_keeps_dirs|].
      destruct (mkdir_from_fails _ _ _ _ _ _ E) as (He & q & content & Hq & Hf).
      exists d. split; [by left|]. split; [done|]. by exists q, content.
Qed.

Lemma for_each_mkdir_again ds (w : World) :
  Forall (fun d => mkdir_from d [] d (fs w) = (Ok tt, fs w)) ds ->
  for_each ds mkdir_parents_exist_ok w = (Ok tt, w).
Proof.
  induction 1 as [|d ds Hd _ IH]; [done|].
  simpl. rewrite bind_unfold. unfold mkdir_parents_exist_ok at 1.
  rewrite Hd, set_fs_same. exact IH.
Qed.

Lemma setup_workspace_unfold self w :
  setup_workspace self w =
  match for_each (directories self) mkdir_parents_exist_ok w with
  | (Ok _, w1) =>
      (Ok tt, emit (EvLog INFO ("Workspace setup complete for " +:+ employee_name self)) w1)
  | (Raise e, w1) => (Raise e, w1)
  end.
Proof.
  unfold setup_workspace. rewrite bind_unfold. fold (directories self).
  by destruct (for_each (directories self) mkdir_parents_exist_ok w) as [[[]|e] w1].
Qed.

(** What [setup_workspace] leaves alone, what it leaves behind when it
    returns, and why it fails when it does. *)
Lemma setup_workspace_frame self w r w' :
  setup_workspace self w = (r, w') ->
  (forall p content, fs w' !! p = Some (File content) <-> fs w !! p = Some (File content)) /\
  (forall p, fs w !! p = Some Dir -> fs w' !! p = Some Dir).
Proof.
  rewrite setup_workspace_unfold.
  destruct (for_each (directories self) mkdir_parents_exist_ok w) as [[[]|e] w1] eqn:E;
    intros H; injection H as <- <-;
    destruct (for_each_mkdir _ _ _ _ E) as (Hw & Hfiles & Hdirs & Hr); by split.
Qed.

Lemma setup_workspace_returns self w w' :
  setup_workspace self w = (Ok tt, w') ->
  Forall (fun d => is_dir (fs w') d = true) (directories self) /\
  trace w' = trace w ++
    [(clock w, EvLog INFO ("Workspace setup complete for " +:+ employee_name self))] /\
  setup_workspace self w' =
    (Ok tt, emit (EvLog INFO ("Workspace setup complete for " +:+ employee_name self)) w').
Proof.
  rewrite setup_workspace_unfold.
  destruct (for_each (directories self) mkdir_parents_exist_ok w) as [[[]|e] w1] eqn:E;
    intros H; [|discriminate]. injection H as <-.
  destruct (for_each_mkdir _ _ _ _ E) as (Hw & Hfiles & Hdirs & Hr1 & Hr2).
  split; [done|]. split; [rewrite Hw; by destruct w|].
  rewrite setup_workspace_unfold, for_each_mkdir_again; [done|].
  simpl. eapply Forall_impl; [exact Hr2|]. intros d Hd. by apply Hd.
Qed.

Lemma setup_workspace_raises self w e w' :
  setup_workspace self w = (Raise e, w') ->
  trace w' = trace w /\
  exists d, In d (directories self) /\
            (e = FileExistsError d \/ e = NotADirectoryError d) /\
            file_in_the_way (fs w) d.
Proof.
  rewrite setup_workspace_unfold.
  destruct (for_each (directories self) mkdir_parents_exist_ok w) as [[[]|e1] w1] eqn:E;
    intros H; [discriminate|]. injection H as <- <-.
  destruct (for_each_mkdir _ _ _ _ E) as (Hw & Hfiles & Hdirs & Hr).
  split; [rewrite Hw; by destruct w|exact Hr].
Qed.



Lemma log_file_not_in_the_way (home : path) (self : Simulator) (d : path) :
  work_dir self = home // "Documents" // "BankWork" ->
  temp_dir self = home // "Downloads" // "temp_banking" ->
  In d (directories self) ->
  ~ (home // "banking_simulation.log") `prefix_of` d.
Proof.
  intros Hw Ht Hin [k Hk]. unfold directories in Hin. rewrite Hw, Ht in Hin.
  unfold div_path in *. simpl in Hin.
  repeat (destruct Hin as [<-|Hin];
          [rewrite <- !app_assoc in Hk; apply app_inv_head in Hk; discriminate|]).
  done.
Qed.

Lemma file_in_the_way_besides_log (home : path) (self : Simulator) (d : path) f content :
  work_dir self = home // "Documents" // "BankWork" ->
  temp_dir self = home // "Downloads" // "temp_banking" ->
  In d (directories self) ->
  file_in_the_way (<[home // "banking_simulation.log" := File content]> f) d ->
  file_in_the_way f d.
Proof.
  intros Hw Ht Hin (q & c & Hq & Hf). exists q, c. split; [done|].
  rewrite lookup_insert_ne in Hf; [done|].
  intros <-. exact (log_file_not_in_the_way home self d Hw Ht Hin Hq).
Qed.

Lemma setup_workspace_flag self w r w' :
  setup_workspace self w = (r, w') -> is_running w' = is_running w.
Proof.
  rewrite setup_workspace_unfold.
  destruct (for_each (directories self) mkdir_parents_exist_ok w) as [[[]|e] w1] eqn:E;
    intros H; injection H as <- <-;
    destruct (for_each_mkdir _ _ _ _ E) as (Hw & _); rewrite Hw; by destruct w.
Qed.

Lemma new_simulator_raises name dept w e w' :
  new_simulator name dept w = (Raise e, w') ->
  is_Exception e = true /\ is_running w' = false /\ trace w' = trace w /\
  (open_error (fs w) (env_home w // "banking_simulation.log") = Some e \/
   exists d, (e = FileExistsError d \/ e = NotADirectoryError d) /\
             file_in_the_way (fs w) d).
Proof.
  destruct w as [c dr cu f tr ir pe eh].
  unfold new_simulator. run_py. unfold bind, open_append. run_py.
  destruct (open_error f _) as [e0|] eqn:Eopen.
  - intros H. injection H as <- <-.
    split; [by eapply open_error_is_Exception|]. auto.
  - match goal with
    | |- context [setup_workspace ?s ?w0] =>
        destruct (setup_workspace s w0) as [[[]|e1] w1] eqn:E
    end; intros H; [discriminate|]. injection H as <- <-.
    destruct (setup_workspace_raises _ _ _ _ E) as (Htr & d & Hin & He & Hway).
    cbn [fs set_fs set_is_running trace] in Htr, Hway.
    split; [by destruct He as [->| ->]|].
    split; [by apply setup_workspace_flag in E|]. split; [done|].
    right. exists d. split; [done|].
    eapply (file_in_the_way_besides_log eh); [| |exact Hin|exact Hway]; reflexivity.
Qed.




Lemma new_simulator_identity name dept w self w' :
  new_simulator name dept w = (Ok self, w') ->
  employee_name self = name /\ department self = dept /\ home_dir self = env_home w.
Proof.
  destruct w as [c dr cu f tr ir pe eh].
  unfold new_simulator. run_py. unfold bind, open_append. run_py.
  destruct (open_error f _) as [e0|]; [discriminate|].
  match goal with
  | |- context [setup_workspace ?s ?w0] =>
      destruct (setup_workspace s w0) as [[[]|e1] w1]
  end; intros H; [|discriminate]. by injection H as <- <-.
Qed.

(** [main] up to the constructor, and what it makes of its outcome. *)
Lemma main_setup_unfold w :
  exists name dept,
    In (name, dept) employees /\
    let w0 := set_cursor (S (cursor w))
                (emit (EvPrint [Text (str_mul "=" 50)])
                   (emit (EvPrint [Text "Banking Employee Behavior Simulator for macOS"]) w)) in
    main_setup w =
    match new_simulator name dept w0 with
    | (Ok simulator, w1) =>
        (Ok simulator,
         emit (EvPrint [Text (str_mul "-" 50)])
           (emit (EvPrint [Text "Press Ctrl+C to stop the simulation"])
              (emit (EvPrint [Text ("Simulating behavior for: " +:+ name +:+
                                    " (" +:+ dept +:+ ")")]) w1)))
    | (Raise e, w1) => (Raise e, w1)
    end.
Proof.
  destruct w as [c dr cu f tr ir pe eh].
  unfold main_setup, random_choice, employees. run_py.
  match goal with
  | |- context [nth _ (?x :: ?l) _] => pose proof (nth_mod_In x l (dr cu)) as Hin
  end.
  revert Hin. cbn [length].
  match goal with
  | |- In ?x _ -> _ => destruct x as [name dept] eqn:Echoice
  end.
  intros Hin. exists name, dept. split; [exact Hin|]. cbv zeta. run_py.
  unfold bind at 1.
  by destruct (new_simulator name dept _) as [[simulator|e] w1].
Qed.



(** ** Units of work that only log and dwell *)

(** [logger.info(msg); time.sleep(random.uniform(a, b))], the common tail
    of the units of work. *)
Lemma log_dwell_spec msg (a b : Q) w r w' :
  (0 <= a)%Q -> (a <= b)%Q ->
  (logger_info msg ;; d <- random_uniform a b ;; time_sleep d) w = (r, w') ->
  (r = Ok tt \/ r = Raise KeyboardInterrupt) /\ fs w' = fs w /\
  exists d rest, (a <= d)%Q /\ (d <= b)%Q /\
    trace w' = trace w ++ (clock w, EvLog INFO msg) :: (clock w, EvSleep d) :: rest /\
    (pending w = [] -> r = Ok tt /\ rest = [] /\ clock w' = (clock w + d)%Q).
Proof.
  intros Ha Hab. rewrite bind_unfold. cbn [logger_info modify]. rewrite bind_unfold.
  destruct (random_uniform_spec a b (emit (EvLog INFO msg) w) Hab) as (d & -> & Hd1 & Hd2).
  assert (Hd0 : (0 <= d)%Q) by (by eapply Qle_trans).
  intros H. split.
  { destruct r as [[]|e]; [by left|right]. f_equal.
    eapply time_sleep_raises; [|exact H]. by apply Qle_bool_iff. }
  split; [by rewrite (time_sleep_fs_eq _ _ _ _ H)|].
  destruct (time_sleep_trace _ _ _ _ Hd0 H) as [rest Hrest].
  exists d, rest. split; [done|]. split; [done|]. split.
  - rewrite Hrest. destruct w. simpl. by rewrite <- app_assoc.
  - intros Hp. rewrite time_sleep_calm' in H by (done || by destruct w).
    injection H as <- <-. split; [done|]. split; [|by destruct w].
    revert Hrest. destruct w. simpl. rewrite <- !app_assoc. simpl.
    intros Hrest. apply app_inv_head in Hrest.
    injection Hrest as Hrest. by destruct rest.
Qed.

(** X13: [simulate_application_usage] changes no entry of the file
    system, the logger's own file [banking_simulation.log] apart (its
    records are kept in the trace), and no error of its [try] body leaves
    it: it returns, or the interrupt leaves it.  When it returns, it has
    logged which application is used and dwelt for a time that depends on
    the kind of application: 3 to 8 seconds for an Office application, 5 to
    15 for a browser, 1 to 3 for the terminal, 2 to 5 otherwise.  Two edge
    cases: with no application to choose from, the [IndexError] of
    [random.choice] does leave the method (the choice is made outside the
    [try]); with a browser and no web site to choose from,
    the error is logged as an ERROR record and the method returns at once,
    without dwelling. *)
Theorem application_usage_outcome (self : Simulator) (w : World) (r : Result unit)
    (w' : World) :
  simulate_application_usage self w = (r, w') ->
  (forall p, p <> home_dir self // "banking_simulation.log" -> fs w' !! p = fs w !! p) /\
  match applications self with
  | [] => r = Raise (IndexError "Cannot choose from an empty sequence") /\
          trace w' = trace w
  | _ =>
      (r = Ok tt \/ r = Raise KeyboardInterrupt) /\
      (r = Ok tt ->
       exists app, In app (applications self) /\
        let logged_and_dwelt (msg : string) (lo hi : Q) :=
          exists d rest, (lo <= d)%Q /\ (d <= hi)%Q /\
            trace w' = trace w ++
              (clock w, EvLog INFO msg) :: (clock w, EvSleep d) :: rest in
        if str_in app ["Microsoft Excel"; "Microsoft Word"; "Microsoft Outlook"] then
          logged_and_dwelt ("Opening " +:+ app +:+ " for banking work") 3%Q 8%Q
        else if str_in app ["Safari"; "Chrome"] then
          match banking_websites self with
          | [] =>
              r = Ok tt /\ clock w' = clock w /\
              trace w' = trace w ++
                [(clock w, EvLog ERROR ("Error simulating " +:+ app +:+
                                        ": Cannot choose from an empty sequence"))]
          | _ =>
              exists website, In website (banking_websites self) /\
                logged_and_dwelt ("Accessing " +:+ website +:+ " via " +:+ app) 5%Q 15%Q
          end
        else if String.eqb app "Terminal" then
          exists cmd,
            In cmd ["ls -la ~/Documents/BankWork"; "du -sh ~/Documents/BankWork/*";
                    "find . -name '*.xlsx' -mtime -1";
                    "grep -r 'CONFIDENTIAL' ~/Documents/BankWork/"] /\
            logged_and_dwelt ("Executing terminal command: " +:+ cmd) 1%Q 3%Q
        else
          logged_and_dwelt ("Using " +:+ app +:+ " for banking operations") 2%Q 5%Q)
  end.
Proof.
  unfold simulate_application_usage. rewrite bind_unfold.
  destruct (applications self) as [|app0 apps] eqn:Eapps.
  { simpl. intros H. by injection H as <- <-. }
  destruct (random_choice (app0 :: apps) w) as [[app|e] w0] eqn:Echoice;
    [|discriminate].
  pose proof (random_choice_In _ _ _ _ Echoice) as Hin.
  assert (Hw0 : w0 = set_cursor (S (cursor w)) w) by (by injection Echoice as _ <-).
  assert (Hfs0 : fs w0 = fs w) by (rewrite Hw0; by destruct w).
  assert (Htr0 : trace w0 = trace w) by (rewrite Hw0; by destruct w).
  assert (Hcl0 : clock w0 = clock w) by (rewrite Hw0; by destruct w).
  clear Echoice Hw0. intros H.
  match goal with
  | |- _ /\ _ /\ (_ -> exists a, _ /\ @?P a) =>
      cut (fs w' = fs w /\ (r = Ok tt \/ r = Raise KeyboardInterrupt) /\ P app);
      [intros (H1 & H2 & H3); split; [intros p _; by rewrite H1|]; split; [done|];
       intros _; exists app; by split|]
  end.
  revert H. cbv beta zeta. unfold try_except, application_usage_body.
  assert (Hdwell : forall msg (lo hi : Q) w1, (0 <= lo)%Q -> (lo <= hi)%Q ->
            fs w1 = fs w -> trace w1 = trace w -> clock w1 = clock w ->
            match (logger_info msg ;; d <- random_uniform lo hi ;; time_sleep d) w1 with
            | (Ok a, w2) => (Ok a, w2)
            | (Raise e, w2) =>
                match (if is_Exception e
                       then Some (logger_error ("Error simulating " +:+ app +:+ ": " +:+
                                                str_exn e))
                       else None) with
                | Some h => h w2
                | None => (Raise e, w2)
                end
            end = (r, w') ->
            fs w' = fs w /\ (r = Ok tt \/ r = Raise KeyboardInterrupt) /\
            exists d rest, (lo <= d)%Q /\ (d <= hi)%Q /\
              trace w' = trace w ++
                (clock w, EvLog INFO msg) :: (clock w, EvSleep d) :: rest).
  { intros msg lo hi w1 Hlo Hhi Hf Ht Hc.
    destruct ((logger_info msg ;; d <- random_uniform lo hi ;; time_sleep d) w1)
      as [r1 w2] eqn:E.
    destruct (log_dwell_spec _ _ _ _ _ _ Hlo Hhi E) as (Hr & Hfs & d & rest & H1 & H2 & Htr & _).
    rewrite Hf in Hfs. rewrite Ht, Hc in Htr.
    destruct Hr as [-> | ->]; simpl; intros H; injection H as <- <-;
      (split; [done|]); (split; [by auto|]); by exists d, rest. }
  destruct (str_in app ["Microsoft Excel"; "Microsoft Word"; "Microsoft Outlook"]).
  { intros H. destruct (Hdwell _ 3%Q 8%Q w0 ltac:(done) ltac:(done) Hfs0 Htr0 Hcl0 H)
      as (Hf & Hr & Hd). done. }
  destruct (str_in app ["Safari"; "Chrome"]).
  { destruct (banking_websites self) as [|site0 sites] eqn:Esites.
    - simpl. intros H. injection H as <- <-.
      split; [by destruct w0|]. split; [by left|].
      split; [done|]. split; [by destruct w0|]. rewrite <- Htr0, <- Hcl0. by destruct w0.
    - rewrite bind_unfold.
      destruct (random_choice (site0 :: sites) w0) as [[website|e] w1] eqn:Esite;
        [|discriminate].
      pose proof (random_choice_In _ _ _ _ Esite) as Hin'.
      assert (Hw1 : w1 = set_cursor (S (cursor w0)) w0) by (by injection Esite as _ <-).
      intros H.
      destruct (Hdwell _ 5%Q 15%Q w1 ltac:(done) ltac:(done)
                  ltac:(rewrite Hw1, <- Hfs0; by destruct w0)
                  ltac:(rewrite Hw1, <- Htr0; by destruct w0)
                  ltac:(rewrite Hw1, <- Hcl0; by destruct w0) H) as (Hf & Hr & Hd).
      split; [done|]. split; [done|]. eauto. }
  destruct (String.eqb app "Terminal").
  { rewrite bind_unfold.
    match goal with
    | |- context [random_choice ?l w0] =>
        destruct (random_choice l w0) as [[cmd|e] w1] eqn:Ecmd; [|discriminate]
    end.
    pose proof (random_choice_In _ _ _ _ Ecmd) as Hin'.
    assert (Hw1 : w1 = set_cursor (S (cursor w0)) w0) by (by injection Ecmd as _ <-).
    intros H.
    destruct (Hdwell _ 1%Q 3%Q w1 ltac:(done) ltac:(done)
                ltac:(rewrite Hw1, <- Hfs0; by destruct w0)
                ltac:(rewrite Hw1, <- Htr0; by destruct w0)
                ltac:(rewrite Hw1, <- Hcl0; by destruct w0) H) as (Hf & Hr & Hd).
    split; [done|]. split; [done|]. eauto. }
  intros H. destruct (Hdwell _ 2%Q 5%Q w0 ltac:(done) ltac:(done) Hfs0 Htr0 Hcl0 H)
    as (Hf & Hr & Hd). done.
Qed.

Lemma application_usage_outcome_witness :
  let w := Scenario.started Scenario.ten_am in
  let run := simulate_application_usage Scenario.sarah w in
  simulate_application_usage Scenario.sarah w = (fst run, snd run) /\
  forall p, p <> home_dir Scenario.sarah // "banking_simulation.log" ->
            fs (snd run) !! p = fs w !! p.
Proof.
  cbv zeta. split; [apply surjective_pairing|].
  exact (proj1 (application_usage_outcome Scenario.sarah (Scenario.started Scenario.ten_am)
                  _ _ (surjective_pairing _))).
Defined.

(** X14: [simulate_network_activity] raises nothing but the interrupt,
    and it changes no entry of the file system, the logger's own file
    [banking_simulation.log] apart (its records are kept in the trace).
    When it returns, it has logged one of its six activities and dwelt 1 to
    5 seconds; left undisturbed it does return, after exactly its dwell. *)
Theorem network_activity_outcome (w : World) (r : Result unit) (w' : World) :
  simulate_network_activity w = (r, w') ->
  (forall p, last p <> Some "banking_simulation.log" -> fs w' !! p = fs w !! p) /\
  (r = Ok tt \/ r = Raise KeyboardInterrupt) /\
  (pending w = [] -> r = Ok tt) /\
  (r = Ok tt ->
   exists activity d rest,
     In activity ["VPN connection check"; "Internal banking portal access";
                  "Email server synchronization"; "Database query execution";
                  "File server backup"; "Regulatory reporting upload"] /\
     (1 <= d)%Q /\ (d <= 5)%Q /\
     trace w' = trace w ++
       (clock w, EvLog INFO ("Network activity: " +:+ activity)) ::
       (clock w, EvSleep d) :: rest /\
     (pending w = [] -> rest = [] /\ clock w' = (clock w + d)%Q)).
Proof.
  unfold simulate_network_activity. rewrite bind_unfold.
  match goal with
  | |- context [random_choice ?l w] =>
      destruct (random_choice l w) as [[activity|e] w0] eqn:Echoice; [|discriminate]
  end.
  pose proof (random_choice_In _ _ _ _ Echoice) as Hin.
  assert (Hw0 : w0 = set_cursor (S (cursor w)) w) by (by injection Echoice as _ <-).
  intros H.
  destruct (log_dwell_spec _ 1 5 _ _ _ ltac:(done) ltac:(done) H)
    as (Hr & Hfs & d & rest & H1 & H2 & Htr & Hq).
  rewrite Hw0 in Hfs, Htr, Hq.
  split; [intros p _; rewrite Hfs; by destruct w|]. split; [done|].
  split; [intros Hp; destruct w; by apply Hq|]. intros _.
  exists activity, d, rest. split; [done|]. split; [done|]. split; [done|].
  split; [by destruct w|]. intros Hp. destruct w. by apply Hq.
Qed.

Lemma network_activity_outcome_witness :
  let w := Scenario.started Scenario.ten_am in
  let run := simulate_network_activity w in
  simulate_network_activity w = (fst run, snd run) /\
  forall p, last p <> Some "banking_simulation.log" -> fs (snd run) !! p = fs w !! p.
Proof.
  cbv zeta. split; [apply surjective_pairing|].
  exact (proj1 (network_activity_outcome (Scenario.started Scenario.ten_am)
                  _ _ (surjective_pairing _))).
Defined.

(** ** Weighted selection *)

Lemma Qlt_bool_proper (x y x' y' : Q) :
  (x == x')%Q -> (y == y')%Q -> Qlt_bool x y = Qlt_bool x' y'.
Proof.
  intros Hx Hy. unfold Qlt_bool. f_equal. apply eq_true_iff_eq.
  rewrite !Qle_bool_iff, Hx, Hy. tauto.
Qed.

(** X15: during work hours the unit of work is drawn by one variate [u]
    of [random.random()], and the weights 0.4, 0.3, 0.2 and 0.1 of the
    catalog are the widths of the four intervals of [u]: file operations
    below 0.4, application usage between 0.4 and 0.7, network activity
    between 0.7 and 0.9 and security actions above 0.9.  The bounds are
    the partial sums of the weights, which the code adds up, and scales the
    variate by, in floating point (0.4, 0.7, 0.8999999999999999 and the
    total 0.9999999999999999) and which are exact rationals here: the
    statement leaves out the variates within [10^-15] of a bound, where the
    two may choose differently.  The pacing sleep of 30 to 300 seconds
    follows the unit. *)
Theorem selection_follows_the_weights (self : Simulator) (w : World) :
  let u := variate w 0 in
  let margin := (1 # 1000000000000000)%Q in
  let run :=
    work_hours_branch (map fst (work_activities self)) (map snd (work_activities self)) w in
  let then_paced (unit_of_work : M unit) :=
    (unit_of_work ;; pause_time <- random_uniform 30 300 ;; time_sleep pause_time)
      (set_cursor (S (cursor w)) w) in
  ((u < (4 # 10) - margin)%Q -> run = then_paced (simulate_file_operations self)) /\
  (((4 # 10) + margin <= u)%Q -> (u < (7 # 10) - margin)%Q ->
   run = then_paced (simulate_application_usage self)) /\
  (((7 # 10) + margin <= u)%Q -> (u < (9 # 10) - margin)%Q ->
   run = then_paced simulate_network_activity) /\
  (((9 # 10) + margin <= u)%Q -> run = then_paced (simulate_security_actions self)).
Proof.
  cbv zeta.
  assert (Hlt : forall x y : Q, (x < y)%Q -> Qlt_bool x y = true).
  { intros x y Hxy. unfold Qlt_bool. apply negb_true_iff, not_true_iff_false.
    rewrite Qle_bool_iff. lra. }
  assert (Hge : forall x y : Q, (y <= x)%Q -> Qlt_bool x y = false).
  { intros x y Hxy. unfold Qlt_bool. apply negb_false_iff. by apply Qle_bool_iff. }
  unfold work_hours_branch, random_choices, work_activities.
  cbn [map fst snd length accumulate accumulate_from].
  rewrite bind_unfold.
  change (negb (4 =? 4)%nat) with false. cbn [last].
  replace (Qle_bool ((4 # 10) + (3 # 10) + (2 # 10) + (1 # 10))%Q 0) with false by reflexivity.
  unfold random_random, next_draw. run_py.
  unfold variate. rewrite Nat.add_0_r.
  set (u := (Z.of_N (draws w (cursor w)) `mod` Z.pos two53 # two53)%Q) in *.
  assert (E1 : Qlt_bool (u * ((4 # 10) + (3 # 10) + (2 # 10) + (1 # 10)))%Q (4 # 10)%Q
               = Qlt_bool u (4 # 10)%Q) by (apply Qlt_bool_proper; [ring|reflexivity]).
  assert (E2 : Qlt_bool (u * ((4 # 10) + (3 # 10) + (2 # 10) + (1 # 10)))%Q
                 ((4 # 10) + (3 # 10))%Q
               = Qlt_bool u (7 # 10)%Q) by (apply Qlt_bool_proper; [ring|reflexivity]).
  assert (E3 : Qlt_bool (u * ((4 # 10) + (3 # 10) + (2 # 10) + (1 # 10)))%Q
                 ((4 # 10) + (3 # 10) + (2 # 10))%Q
               = Qlt_bool u (9 # 10)%Q) by (apply Qlt_bool_proper; [ring|reflexivity]).
  unfold bisect.
  change (4 - 1)%nat with 3%nat.
  cbn [bisect_loop Nat.ltb Nat.leb Nat.add Nat.div Nat.divmod fst nth].
  rewrite E2.
  assert (Hm : (0 < 1 # 1000000000000000)%Q) by reflexivity.
  split; [|split; [|split]].
  - intros H4. rewrite (Hlt u (7 # 10)%Q) by lra.
    cbn [bisect_loop Nat.ltb Nat.leb Nat.add Nat.div Nat.divmod fst nth].
    rewrite E1, (Hlt u (4 # 10)%Q) by lra. reflexivity.
  - intros H4 H7. rewrite (Hlt u (7 # 10)%Q) by lra.
    cbn [bisect_loop Nat.ltb Nat.leb Nat.add Nat.div Nat.divmod fst nth].
    rewrite E1, (Hge u (4 # 10)%Q) by lra. reflexivity.
  - intros H7 H9. rewrite (Hge u (7 # 10)%Q) by lra.
    cbn [bisect_loop Nat.ltb Nat.leb Nat.add Nat.div Nat.divmod fst nth].
    rewrite E3, (Hlt u (9 # 10)%Q) by lra. reflexivity.
  - intros H9. rewrite (Hge u (7 # 10)%Q) by lra.
    cbn [bisect_loop Nat.ltb Nat.leb Nat.add Nat.div Nat.divmod fst nth].
    rewrite E3, (Hge u (9 # 10)%Q) by lra. reflexivity.
Qed.

Lemma selection_follows_the_weights_witness :
  let w := Scenario.started Scenario.ten_am in
  (variate w 0 < (4 # 10) - (1 # 1000000000000000))%Q /\
  work_hours_branch (map fst (work_activities Scenario.sarah))
    (map snd (work_activities Scenario.sarah)) w
  = (simulate_file_operations Scenario.sarah ;;
     pause_time <- random_uniform 30 300 ;; time_sleep pause_time)
      (set_cursor (S (cursor w)) w).
Proof.
  cbv zeta.
  assert (Hu : (variate (Scenario.started Scenario.ten_am) 0
                < (4 # 10) - (1 # 1000000000000000))%Q) by reflexivity.
  split; [exact Hu|].
  exact (proj1 (selection_follows_the_weights Scenario.sarah
                  (Scenario.started Scenario.ten_am)) Hu).
Defined.

(** ** The log is chronological *)

Lemma in_order_le lo tr hi : in_order lo tr hi -> (lo <= hi)%Q.
Proof.
  revert lo. induction tr as [|[t ev] tr IH]; intros lo; simpl; [done|].
  intros [H1 H2]. apply IH in H2. lra.
Qed.

Lemma in_order_app lo tr1 mid tr2 hi :
  in_order lo tr1 mid -> in_order mid tr2 hi -> in_order lo (tr1 ++ tr2) hi.
Proof.
  revert lo. induction tr1 as [|[t ev] tr1 IH]; intros lo; simpl.
  - intros H1 H2. destruct tr2 as [|[t2 ev2] tr2]; simpl in *; [lra|].
    split; [lra|tauto].
  - intros [H1 H2] H3. split; [done|]. by apply IH.
Qed.

Lemma flag_told_same b added : flag_told b b added.
Proof. by left. Qed.

Lemma flag_told_app b1 b2 b3 added1 added2 :
  flag_told b1 b2 added1 -> flag_told b2 b3 added2 -> flag_told b1 b3 (added1 ++ added2).
Proof.
  intros [->|[-> [t Ht]]] [->|[-> [t' Ht']]].
  - by left.
  - right. split; [done|]. exists t'. apply in_or_app. by right.
  - right. split; [done|]. exists t. apply in_or_app. by left.
  - right. split; [done|]. exists t. apply in_or_app. by left.
Qed.

(** Computations that neither log, take time nor touch the flag. *)
Lemma orderly_frame {A} (c : M A) :
  (forall w r w', c w = (r, w') ->
     trace w' = trace w /\ clock w' = clock w /\ is_running w' = is_running w) ->
  orderly c.
Proof.
  intros H w r w' E. destruct (H _ _ _ E) as (H1 & H2 & H3).
  exists []. rewrite H1, H2, H3, app_nil_r. split; [done|].
  split; [apply Qle_refl|apply flag_told_same].
Qed.

(** Putting two runs one after the other. *)
Lemma orderly_seq (w w1 w2 : World) (tr1 tr2 : list (Q * event)) :
  trace w1 = trace w ++ tr1 -> in_order (clock w) tr1 (clock w1) ->
  flag_told (is_running w) (is_running w1) tr1 ->
  trace w2 = trace w1 ++ tr2 -> in_order (clock w1) tr2 (clock w2) ->
  flag_told (is_running w1) (is_running w2) tr2 ->
  trace w2 = trace w ++ (tr1 ++ tr2) /\ in_order (clock w) (tr1 ++ tr2) (clock w2) /\
  flag_told (is_running w) (is_running w2) (tr1 ++ tr2).
Proof.
  intros H1 O1 F1 H2 O2 F2. split; [by rewrite H2, H1, app_assoc|].
  split; [by eapply in_order_app|by eapply flag_told_app].
Qed.

Ltac orderly_by_cases H :=
  apply orderly_frame; intros w r w' H.

Lemma orderly_ret {A} (a : A) : orderly (ret a).
Proof. orderly_by_cases H. by injection H as <- <-. Qed.

Lemma orderly_raise {A} e : orderly (@raise A e).
Proof. orderly_by_cases H. by injection H as <- <-. Qed.

Lemma orderly_get {A} (f : World -> A) : orderly (get f).
Proof. orderly_by_cases H. by injection H as <- <-. Qed.

Lemma orderly_emit ev : orderly (modify (emit ev)).
Proof.
  intros w r w' H. injection H as <- <-. exists [(clock w, ev)].
  split; [by destruct w|]. destruct w; simpl.
  split; [split; apply Qle_refl|apply flag_told_same].
Qed.

Lemma orderly_logger_info msg : orderly (logger_info msg).
Proof. apply orderly_emit. Qed.

Lemma orderly_logger_error msg : orderly (logger_error msg).
Proof. apply orderly_emit. Qed.

Lemma orderly_print out : orderly (print out).
Proof. apply orderly_emit. Qed.

Lemma orderly_random_random : orderly random_random.
Proof. orderly_by_cases H. by injection H as <- <-. Qed.

Lemma orderly_random_uniform a b : orderly (random_uniform a b).
Proof. orderly_by_cases H. by injection H as <- <-. Qed.

Lemma orderly_random_randint a b : orderly (random_randint a b).
Proof.
  orderly_by_cases H. unfold random_randint in H.
  destruct (b <? a); by injection H as <- <-.
Qed.

Lemma orderly_random_choice {A} (seq : list A) : orderly (random_choice seq).
Proof. orderly_by_cases H. destruct seq; by injection H as <- <-. Qed.

Lemma orderly_random_choices {A} (population : list A) weights :
  orderly (random_choices population weights).
Proof.
  orderly_by_cases H. unfold random_choices in H.
  destruct (negb _); [by injection H as <- <-|].
  destruct (last _); [|by injection H as <- <-].
  destruct population; [by injection H as <- <-|].
  destruct (Qle_bool _ _); by injection H as <- <-.
Qed.

Lemma orderly_item0 {A} (l : list A) : orderly (item0 l).
Proof. orderly_by_cases H. destruct l; by injection H as <- <-. Qed.

Lemma orderly_open_write p content : orderly (open_write p content).
Proof.
  orderly_by_cases H. unfold open_write in H.
  destruct (open_error _ _); by injection H as <- <-.
Qed.

Lemma orderly_open_append p content : orderly (open_append p content).
Proof.
  orderly_by_cases H. unfold open_append in H.
  destruct (open_error _ _); by injection H as <- <-.
Qed.

Lemma orderly_mkdir p : orderly (mkdir_parents_exist_ok p).
Proof.
  orderly_by_cases H. unfold mkdir_parents_exist_ok in H.
  destruct (mkdir_from p [] p (fs w)) as [r1 f1]. by injection H as <- <-.
Qed.

Lemma orderly_iterdir p : orderly (iterdir p).
Proof.
  orderly_by_cases H. unfold iterdir in H.
  destruct (is_dir _ _); [by injection H as <- <-|].
  destruct (is_file _ _); by injection H as <- <-.
Qed.

Lemma q_max_ge a b : (a <= q_max a b)%Q /\ (b <= q_max a b)%Q.
Proof.
  unfold q_max. destruct (Qle_bool a b) eqn:E.
  - apply Qle_bool_iff in E. split; [done|apply Qle_refl].
  - split; [apply Qle_refl|].
    destruct (Qlt_le_dec a b) as [Hlt|Hle]; [|done].
    apply Qlt_le_weak, Qle_bool_iff in Hlt. congruence.
Qed.

Lemma q_max_le a b c : (a <= c)%Q -> (b <= c)%Q -> (q_max a b <= c)%Q.
Proof. intros Ha Hb. unfold q_max. by destruct (Qle_bool a b). Qed.

(** A sleep stamps the stops that reach it in order, and ends no earlier
    than it began. *)
Lemma sleep_until_in_order t evs : forall w r w',
  (clock w <= t)%Q ->
  sleep_until t evs w = (r, w') ->
  exists added, trace w' = trace w ++ added /\
    in_order (clock w) added (clock w') /\
    flag_told (is_running w) (is_running w') added.
Proof.
  induction evs as [|[s ev] more IH]; intros w r w' Ht H; simpl in H.
  - injection H as <- <-. exists []. rewrite app_nil_r.
    split; [by destruct w|]. split; [by destruct w|]. destruct w. apply flag_told_same.
  - destruct (Qle_bool s t) eqn:Es.
    2:{ injection H as <- <-. exists []. rewrite app_nil_r.
        split; [by destruct w|]. split; [by destruct w|]. destruct w. apply flag_told_same. }
    apply Qle_bool_iff in Es.
    destruct (q_max_ge (clock w) s) as [Hm1 Hm2].
    pose proof (q_max_le _ _ _ Ht Es) as Hm3.
    destruct ev.
    + apply IH in H; [|by destruct w].
      destruct H as (added & Htr & Hord & Hflag).
      exists ((q_max (clock w) s, EvLog INFO "Banking employee simulation stopped") :: added).
      split; [rewrite Htr; destruct w; simpl; by rewrite <- app_assoc|].
      split; [simpl; split; [done|]; revert Hord; by destruct w|].
      right. split.
      * destruct Hflag as [Hf|[Hf _]]; [|done]. rewrite Hf. by destruct w.
      * eexists. by left.
    + injection H as <- <-. exists []. rewrite app_nil_r.
      split; [by destruct w|]. split; [simpl; by destruct w|].
      destruct w. apply flag_told_same.
Qed.

Lemma orderly_time_sleep d : orderly (time_sleep d).
Proof.
  intros w r w' H. unfold time_sleep in H.
  destruct (Qle_bool 0 d) eqn:Hd.
  - apply Qle_bool_iff in Hd.
    apply sleep_until_in_order in H; [|destruct w; simpl; lra].
    destruct H as (added & Htr & Hord & Hflag).
    exists ((clock w, EvSleep d) :: added).
    split; [rewrite Htr; destruct w; simpl; by rewrite <- app_assoc|].
    split; [simpl; split; [apply Qle_refl|]; revert Hord; by destruct w|].
    destruct Hflag as [Hf|[Hf [t Hin]]].
    + left. rewrite Hf. by destruct w.
    + right. split; [done|]. exists t. by right.
  - injection H as <- <-. exists []. rewrite app_nil_r.
    split; [done|]. split; [apply Qle_refl|apply flag_told_same].
Qed.

Lemma orderly_stop_simulation : orderly stop_simulation.
Proof.
  intros w r w' H. rewrite stop_simulation_unfold in H. injection H as <- <-.
  exists [(clock w, EvLog INFO "Banking employee simulation stopped")].
  split; [by destruct w|]. destruct w; simpl.
  split; [split; apply Qle_refl|]. right. split; [done|]. eexists. by left.
Qed.

Lemma orderly_bind {A B} (c : M A) (k : A -> M B) :
  orderly c -> (forall a, orderly (k a)) -> orderly (bind c k).
Proof.
  intros Hc Hk w r w' H. rewrite bind_unfold in H.
  destruct (c w) as [[a|e] w1] eqn:E.
  - destruct (Hc _ _ _ E) as (tr1 & H1 & O1 & F1).
    destruct (Hk _ _ _ _ H) as (tr2 & H2 & O2 & F2).
    exists (tr1 ++ tr2). by eapply orderly_seq.
  - injection H as <- <-. by eapply Hc.
Qed.

Lemma orderly_bind_post {A B} (c : M A) (k : A -> M B) (P : A -> Prop) :
  orderly c ->
  (forall w a w', c w = (Ok a, w') -> P a) ->
  (forall a, P a -> orderly (k a)) ->
  orderly (bind c k).
Proof.
  intros Hc HP Hk w r w' H. rewrite bind_unfold in H.
  destruct (c w) as [[a|e] w1] eqn:E.
  - destruct (Hc _ _ _ E) as (tr1 & H1 & O1 & F1).
    destruct (Hk _ (HP _ _ _ E) _ _ _ H) as (tr2 & H2 & O2 & F2).
    exists (tr1 ++ tr2). by eapply orderly_seq.
  - injection H as <- <-. by eapply Hc.
Qed.

Lemma orderly_for_each {A} (xs : list A) (body : A -> M unit) :
  (forall x, orderly (body x)) -> orderly (for_each xs body).
Proof.
  intros Hb. induction xs as [|x xs IH]; simpl.
  - apply orderly_ret.
  - apply orderly_bind; auto.
Qed.

Lemma orderly_try_except {A} (body : M A) (handler : exn -> option (M A)) :
  orderly body -> (forall e h, handler e = Some h -> orderly h) ->
  orderly (try_except body handler).
Proof.
  intros Hb Hh w r w' H. unfold try_except in H.
  destruct (body w) as [[a|e] w1] eqn:E.
  - injection H as <- <-. by eapply Hb.
  - destruct (Hb _ _ _ E) as (tr1 & H1 & O1 & F1).
    destruct (handler e) as [h|] eqn:Eh.
    + destruct (Hh _ _ Eh _ _ _ H) as (tr2 & H2 & O2 & F2).
      exists (tr1 ++ tr2). by eapply orderly_seq.
    + injection H as <- <-. eauto.
Qed.

Lemma orderly_choose (seq : list (M unit)) :
  Forall orderly seq -> orderly (operation <- random_choice seq ;; operation).
Proof.
  intros Hseq. apply (orderly_bind_post _ _ (fun a => In a seq)).
  - apply orderly_random_choice.
  - intros w a w'. apply random_choice_In.
  - intros a Ha. rewrite Forall_forall in Hseq. apply Hseq. by apply list_elem_of_In.
Qed.

Create HintDb orderly_db discriminated.

#[local] Hint Resolve orderly_ret orderly_raise orderly_get orderly_logger_info
  orderly_logger_error orderly_print
  orderly_random_random orderly_random_uniform orderly_random_randint
  orderly_random_choice orderly_random_choices orderly_item0 orderly_open_write
  orderly_open_append orderly_mkdir orderly_iterdir orderly_time_sleep
  orderly_stop_simulation : orderly_db.

Ltac orderly_chain :=
  repeat first
    [ apply orderly_bind; [solve [unfold datetime_now; auto with orderly_db] | intros ?]
    | solve [unfold datetime_now; auto with orderly_db] ].

Section UnitsOrderly.
Variable self : Simulator.

Lemma orderly_setup_workspace : orderly (setup_workspace self).
Proof.
  unfold setup_workspace. apply orderly_bind; [|intros _; orderly_chain].
  apply orderly_for_each. intros d. auto with orderly_db.
Qed.

Lemma orderly_backup_files : orderly (backup_files self).
Proof.
  unfold backup_files.
  apply orderly_bind; [unfold datetime_now; auto with orderly_db|]. intros now.
  apply orderly_bind; [auto with orderly_db|]. intros _.
  apply orderly_bind; [|intros _; orderly_chain].
  apply orderly_for_each. intros source_dir.
  apply orderly_bind; [auto with orderly_db|]. intros [|]; [|auto with orderly_db].
  apply orderly_bind; [auto with orderly_db|]. intros files.
  apply orderly_for_each. intros file_path. unfold backup_one.
  apply orderly_bind; [auto with orderly_db|]. intros [|]; auto with orderly_db.
Qed.

Lemma orderly_simulate_file_operations : orderly (simulate_file_operations self).
Proof.
  unfold simulate_file_operations. apply orderly_choose.
  constructor; [unfold create_financial_report; orderly_chain|].
  constructor; [unfold update_client_data; orderly_chain|].
  constructor; [unfold create_compliance_document; orderly_chain|].
  constructor; [unfold generate_risk_analysis; orderly_chain|].
  constructor; [apply orderly_backup_files|].
  constructor; [unfold access_regulatory_docs; orderly_chain|].
  constructor.
Qed.

Lemma orderly_simulate_application_usage : orderly (simulate_application_usage self).
Proof.
  unfold simulate_application_usage.
  apply orderly_bind; [auto with orderly_db|]. intros app.
  apply orderly_try_except.
  - unfold application_usage_body.
    destruct (str_in app _); [orderly_chain|].
    destruct (str_in app _); [orderly_chain|].
    destruct (String.eqb app "Terminal"); orderly_chain.
  - intros e h Hh. destruct (is_Exception e); [|discriminate].
    injection Hh as <-. auto with orderly_db.
Qed.

Lemma orderly_simulate_network_activity : orderly simulate_network_activity.
Proof. unfold simulate_network_activity. orderly_chain. Qed.

Lemma orderly_simulate_security_actions : orderly (simulate_security_actions self).
Proof. unfold simulate_security_actions. orderly_chain. Qed.

Lemma orderly_work_activities : Forall orderly (map fst (work_activities self)).
Proof.
  constructor; [apply orderly_simulate_file_operations|].
  constructor; [apply orderly_simulate_application_usage|].
  constructor; [apply orderly_simulate_network_activity|].
  constructor; [apply orderly_simulate_security_actions|].
  constructor.
Qed.

Lemma orderly_generate_daily_report : orderly (generate_daily_report self).
Proof. unfold generate_daily_report. orderly_chain. Qed.

Variable acts : list (M unit).
Variable ws : list Q.
Hypothesis acts_orderly : Forall orderly acts.

Lemma orderly_try_body : orderly (try_body self acts ws).
Proof.
  intros w r w'. rewrite try_body_unfold.
  pose proof acts_orderly as Hacts. rewrite Forall_forall in Hacts.
  destruct (regime_for _); revert w r w'.
  - unfold work_hours_branch.
    apply (orderly_bind_post _ _ (fun chosen => exists a, chosen = [a] /\ In a acts));
      [auto with orderly_db|intros w a w'; apply random_choices_In|].
    intros chosen (a & -> & Ha). cbn [item0].
    apply (orderly_bind_post _ _ (fun b => b = a));
      [auto with orderly_db | by intros w b w' [= <-] |].
    intros activity ->.
    apply orderly_bind; [apply Hacts; by apply list_elem_of_In|]. intros _. orderly_chain.
  - unfold after_hours_branch.
    apply orderly_bind; [auto with orderly_db|]. intros u.
    apply orderly_bind; [|intros _; orderly_chain].
    destruct (Qlt_bool u (1 # 10));
      [apply orderly_simulate_security_actions|auto with orderly_db].
Qed.

Lemma orderly_loop_iteration : orderly (loop_iteration self acts ws).
Proof.
  unfold loop_iteration. apply orderly_try_except.
  - apply orderly_bind; [apply orderly_try_body|]. intros _. auto with orderly_db.
  - intros e h Hh. destruct e; injection Hh as <-; orderly_chain.
Qed.

End UnitsOrderly.


Lemma loop_iteration_break self acts ws w w' :
  loop_iteration self acts ws w = (Ok Break, w') ->
  exists w1, try_body self acts ws w = (Raise KeyboardInterrupt, w1) /\
             w' = emit (EvLog INFO "Simulation interrupted by user") w1.
Proof.
  rewrite loop_iteration_unfold.
  destruct (try_body self acts ws w) as [[[]|e] w1]; [discriminate|].
  destruct e; try (intros H; injection H as <-; by eauto);
    match goal with
    | |- context [time_sleep 60 ?w0] => by destruct (time_sleep 60 w0) as [[[]|e2] w2]
    end.
Qed.

Section LoopOrderly.
Variable self : Simulator.
Variable acts : list (M unit).
Variable ws : list Q.
Hypothesis acts_orderly : Forall orderly acts.

(** The loop only adds records, in order; it clears the flag only with a
    record of it; and it ends only with the flag cleared or right after
    the record of an interrupt. *)
Lemma while_running_account fuel : forall w r w',
  while_running fuel (loop_iteration self acts ws) w = Some (r, w') ->
  exists added, trace w' = trace w ++ added /\
    in_order (clock w) added (clock w') /\
    flag_told (is_running w) (is_running w') added /\
    match r with
    | Ok _ => is_running w' = false \/
              exists t, last added = Some (t, EvLog INFO "Simulation interrupted by user")
    | Raise e => e = KeyboardInterrupt
    end.
Proof.
  induction fuel as [|fuel IH]; intros w r w'; simpl; [discriminate|].
  destruct (is_running w) eqn:Hrun.
  2:{ intros H. injection H as <- <-. exists []. rewrite app_nil_r, Hrun.
      split; [done|]. split; [apply Qle_refl|]. split; [apply flag_told_same|by left]. }
  destruct (loop_iteration self acts ws w) as [[[]|e] w1] eqn:E; intros H.
  - destruct (orderly_loop_iteration self acts ws acts_orderly _ _ _ E)
      as (tr1 & H1 & O1 & F1).
    destruct (IH _ _ _ H) as (tr2 & H2 & O2 & F2 & Hend).
    exists (tr1 ++ tr2). rewrite Hrun in F1.
    destruct (orderly_seq w w1 w' tr1 tr2) as (H3 & O3 & F3); try done.
    { by rewrite Hrun. }
    rewrite Hrun in F3. repeat split; try done.
    destruct r as [[]|e]; [|done].
    destruct Hend as [Hend|[t Hend]]; [by left|right].
    exists t. by rewrite last_app, Hend.
  - injection H as <- <-.
    destruct (orderly_loop_iteration self acts ws acts_orderly _ _ _ E)
      as (tr1 & H1 & O1 & F1).
    rewrite Hrun in F1. exists tr1. repeat split; try done. right.
    destruct (loop_iteration_break _ _ _ _ _ E) as (w0 & Ebody & ->).
    destruct (orderly_try_body self acts ws acts_orderly _ _ _ Ebody) as (tr0 & H0 & _).
    assert (Htr : tr1 = tr0 ++ [(clock w0, EvLog INFO "Simulation interrupted by user")]).
    { apply (app_inv_head (trace w)). rewrite <- H1, app_assoc, <- H0. by destruct w0. }
    exists (clock w0). by rewrite Htr, last_snoc.
  - injection H as <- <-.
    destruct (orderly_loop_iteration self acts ws acts_orderly _ _ _ E)
      as (tr1 & H1 & O1 & F1).
    rewrite Hrun in F1. exists tr1. repeat split; try done.
    by eapply loop_iteration_raises.
Qed.

End LoopOrderly.

(** X16: the log tells the run.  Whenever [start_simulation] has returned
    normally, the trace has only grown since the call: first the record of
    the start, then records stamped in chronological order, none before the
    call and none after the return; and the log has said why the simulation
    ended: the flag is cleared and a record [Banking employee simulation
    stopped] was logged, or the last record is [Simulation interrupted by
    user].  In a run in which no interrupt is sent (requests to stop may
    come), [start_simulation] does not end otherwise: no exception leaves
    it. *)
Theorem log_tells_the_run (self : Simulator) (fuel : nat) (w : World) (r : Result unit)
    (w' : World) :
  start_simulation self fuel w = Some (r, w') ->
  (stops_only (pending w) = true -> r = Ok tt) /\
  (r = Ok tt ->
   exists added,
     trace w' = trace w ++
       (clock w, EvLog INFO ("Starting banking employee simulation for " +:+
                             employee_name self)) :: added /\
     in_order (clock w) added (clock w') /\
     ((is_running w' = false /\
       exists t, In (t, EvLog INFO "Banking employee simulation stopped") added) \/
      (exists t, last added = Some (t, EvLog INFO "Simulation interrupted by user")))).
Proof.
  intros H. split; [intros _; by eapply start_simulation_returns|]. intros _.
  revert H. unfold start_simulation. run_py.
  unfold simulate_work_day.
  match goal with
  | |- context [while_running fuel ?b ?w0] =>
      destruct (while_running fuel b w0) as [[r1 w1]|] eqn:E; [|discriminate]
  end.
  destruct (while_running_account self _ _ (orderly_work_activities self) _ _ _ _ E)
    as (added & Htr & Hord & Hflag & Hend).
  destruct w as [c dr cu f tr ir pe eh].
  cbn [trace clock is_running emit set_trace set_is_running] in Htr, Hord, Hflag.
  destruct r1 as [[]|e].
  - intros H. injection H as <- <-. exists added.
    split; [by rewrite Htr, <- app_assoc|]. split; [done|].
    destruct Hend as [Hend|Hend]; [left|by right].
    split; [done|]. destruct Hflag as [Hf|[_ Hf]]; [congruence|done].
  - subst e. rewrite stop_simulation_unfold. intros H. injection H as <- <-.
    exists (added ++ [(clock w1, EvLog INFO "Banking employee simulation stopped")]).
    split; [destruct w1; simpl in *; by rewrite Htr, <- !app_assoc|].
    split.
    + destruct w1. simpl in *. eapply in_order_app; [exact Hord|].
      simpl. split; apply Qle_refl.
    + left. split; [by destruct w1|]. exists (clock w1). apply in_or_app. right. by left.
Qed.

Lemma log_tells_the_run_witness :
  let w := set_pending [((Scenario.ten_am + 3)%Q, ExtStop)]
             (Scenario.started Scenario.ten_am) in
  let run := ended (Ok tt, w) (start_simulation Scenario.sarah 2 w) in
  start_simulation Scenario.sarah 2 w = Some (fst run, snd run) /\
  stops_only (pending w) = true /\
  fst run = Ok tt.
Proof.
  cbv zeta.
  assert (E : has_ended (start_simulation Scenario.sarah 2
                           (set_pending [((Scenario.ten_am + 3)%Q, ExtStop)]
                              (Scenario.started Scenario.ten_am))) = true)
    by (vm_compute; reflexivity).
  pose proof (ended_Some (Ok tt, set_pending [((Scenario.ten_am + 3)%Q, ExtStop)]
                                   (Scenario.started Scenario.ten_am)) _ E) as H.
  assert (Hq : stops_only (pending (set_pending [((Scenario.ten_am + 3)%Q, ExtStop)]
                                       (Scenario.started Scenario.ten_am))) = true)
    by reflexivity.
  exact (conj H (conj Hq (proj1 (log_tells_the_run Scenario.sarah 2 _ _ _ H) Hq))).
Defined.

(** ** A workspace in which no unit of work can fail *)

Lemma removelast_div (p : path) (c : string) : removelast (p // c) = p.
Proof. unfold div_path. apply removelast_last. Qed.

Lemma div_path_nonempty (p : path) (c : string) : p // c <> [].
Proof. unfold div_path. by destruct p. Qed.

Lemma div_path_inj (p q : path) (a b : string) : p // a = q // b -> p = q /\ a = b.
Proof. unfold div_path. intros H. by apply app_inj_tail in H. Qed.

Lemma child_of_div (dir : path) (c : string) : child_of dir (dir // c) = true.
Proof.
  unfold child_of. apply bool_decide_eq_true. split; [apply div_path_nonempty|].
  apply removelast_div.
Qed.

Lemma child_of_true (dir p : path) : child_of dir p = true -> exists c, p = dir // c.
Proof.
  unfold child_of. intros H. apply bool_decide_eq_true in H as [Hne <-].
  exists (List.last p ""). unfold div_path. by apply app_removelast_last.
Qed.

Lemma is_dir_div (f : gmap path node) (p : path) (c : string) :
  is_dir f (p // c) = true <-> f !! (p // c) = Some Dir.
Proof.
  unfold is_dir. pose proof (div_path_nonempty p c) as Hne.
  destruct (p // c) as [|x l]; [done|].
  destruct (f !! (x :: l)) as [[|content]|]; split; (done || discriminate).
Qed.

(** Every place on the way is a directory. *)
Lemma dirs_from_lookup f rest : forall pre k,
  dirs_from f pre rest = true -> k `prefix_of` rest -> k <> [] ->
  f !! (pre ++ k) = Some Dir.
Proof.
  induction rest as [|c rest IH]; intros pre k H [k' Hk] Hne.
  - by destruct k.
  - destruct k as [|c' k]; [done|]. injection Hk as <- Hk.
    simpl in H. apply andb_true_iff in H as [H1 H2].
    destruct k as [|c2 k].
    + by apply is_dir_div in H1.
    + replace (pre ++ c :: c2 :: k) with ((pre // c) ++ c2 :: k)
        by (unfold div_path; by rewrite <- app_assoc).
      apply IH; [done|by exists k'|done].
Qed.

Lemma dirs_down_lookup f p k :
  dirs_down f p = true -> k `prefix_of` p -> k <> [] -> f !! k = Some Dir.
Proof. intros H Hk Hne. by apply (dirs_from_lookup f p [] k). Qed.

Lemma dirs_from_kept f g rest : forall pre,
  (forall q, f !! q = Some Dir -> g !! q = Some Dir) ->
  dirs_from f pre rest = true -> dirs_from g pre rest = true.
Proof.
  induction rest as [|c rest IH]; intros pre Hsub; simpl; [done|].
  intros H. apply andb_true_iff in H as [H1 H2]. apply andb_true_iff. split.
  - by eapply is_dir_kept.
  - by apply IH.
Qed.

(** A file can be opened for writing below a directory that exists, unless
    a directory has its name. *)
Lemma open_error_from_none target f name rest : forall pre,
  dirs_from f pre rest = true ->
  f !! ((pre ++ rest) // name) <> Some Dir ->
  open_error_from target pre (rest ++ [name]) f = None.
Proof.
  induction rest as [|c rest IH]; intros pre Hd Hn.
  - rewrite app_nil_r in Hn. simpl.
    destruct (is_dir f (pre // name)) eqn:E; [|done].
    by apply is_dir_div in E.
  - simpl in Hd. apply andb_true_iff in Hd as [H1 H2].
    apply is_dir_div in H1.
    assert (Hstep : open_error_from target pre ((c :: rest) ++ [name]) f
                    = open_error_from target (pre // c) (rest ++ [name]) f).
    { simpl. destruct (rest ++ [name]) as [|x l] eqn:E; [by destruct rest|].
      by rewrite H1. }
    rewrite Hstep. apply IH; [done|].
    unfold div_path in *.
    by replace ((pre ++ [c]) ++ rest) with (pre ++ c :: rest) by (by rewrite <- app_assoc).
Qed.

Lemma open_error_none f dir name :
  dirs_down f dir = true -> f !! (dir // name) <> Some Dir ->
  open_error f (dir // name) = None.
Proof.
  intros Hd Hn.
  assert (H : open_error_from (dir // name) [] (dir ++ [name]) f = None)
    by (by apply open_error_from_none).
  revert H. unfold open_error, div_path. by destruct dir.
Qed.

(** [mkdir] succeeds where no file is in its way. *)
Lemma mkdir_from_succeeds target rest : forall pre f,
  (forall k content, k `prefix_of` rest -> k <> [] ->
                     f !! (pre ++ k) <> Some (File content)) ->
  exists f', mkdir_from target pre rest f = (Ok tt, f').
Proof.
  induction rest as [|c rest IH]; intros pre f Hfree; simpl; [eauto|].
  assert (Hk : forall k, (pre // c) ++ k = pre ++ c :: k).
  { intros k. unfold div_path. by rewrite <- app_assoc. }
  destruct (f !! (pre // c)) as [[|content]|] eqn:E.
  - apply IH. intros k content [k' ->] Hne. rewrite Hk.
    apply Hfree; [by exists k'|done].
  - exfalso. apply (Hfree [c] content); [by exists rest|done|done].
  - apply IH. intros k content [k' ->] Hne. rewrite Hk.
    rewrite lookup_insert_ne.
    + apply Hfree; [by exists k'|done].
    + unfold div_path. intros H. apply app_inv_head in H. by destruct k.
Qed.

Lemma prefix_of_two (root p : path) (a b : string) :
  p `prefix_of` (root // a // b) ->
  p `prefix_of` root \/ p = root // a \/ p = root // a // b.
Proof.
  rewrite below2. intros Hp.
  destruct (prefix_of_below root p [a; b] Hp) as [[k ->]|H]; [|by left].
  apply prefix_app_inv in Hp.
  destruct k as [|x [|y [|z k]]].
  - left. by rewrite app_nil_r.
  - right. left. destruct Hp as [k' Hk']. by injection Hk' as <- _.
  - right. right. destruct Hp as [k' Hk']. by injection Hk' as <- <- _.
  - destruct Hp as [k' Hk']. discriminate.
Qed.

Section Healthy.
Variable self : Simulator.
Hypothesis sink_outside :
  ~ work_dir self `prefix_of` (home_dir self // "security_events.log").

Lemma healthy_writable f sub name :
  healthy self f -> In sub written_subdirs ->
  open_error f (work_dir self // sub // name) = None.
Proof.
  intros (Hd & Hh & Hok) Hin. apply open_error_none.
  - rewrite Forall_forall in Hd. apply Hd. by apply list_elem_of_In.
  - intros E. specialize (Hok _ _ E). cbn [entry_ok] in Hok.
    apply andb_true_iff in Hok as [_ Hok].
    rewrite forallb_forall in Hok. specialize (Hok sub Hin).
    by rewrite child_of_div in Hok.
Qed.

Lemma healthy_sink_writable f :
  healthy self f -> open_error f (home_dir self // "security_events.log") = None.
Proof.
  intros (Hd & Hh & Hok). apply open_error_none; [done|].
  intros E. specialize (Hok _ _ E). cbn [entry_ok] in Hok.
  apply andb_true_iff in Hok as [Hok _].
  by rewrite bool_decide_eq_true_2 in Hok.
Qed.

Lemma healthy_insert_file f p content :
  healthy self f -> f !! p <> Some Dir ->
  entry_ok (home_dir self) (work_dir self) p (File content) = true ->
  healthy self (<[p := File content]> f).
Proof.
  intros (Hd & Hh & Hok) Hp Hentry.
  assert (Hkept : forall q, f !! q = Some Dir -> <[p := File content]> f !! q = Some Dir).
  { intros q Hq. rewrite lookup_insert_ne; [done|]. by intros ->. }
  split; [|split].
  - eapply Forall_impl; [exact Hd|]. intros sub. by apply dirs_from_kept.
  - by eapply dirs_from_kept.
  - by apply map_Forall_insert_2.
Qed.

Lemma not_written_Backups : ~ In "Backups" written_subdirs.
Proof. unfold written_subdirs. simpl. intros H. repeat destruct H as [H|H]; done. Qed.

Lemma entry_ok_written sub name content :
  In sub written_subdirs ->
  entry_ok (home_dir self) (work_dir self) (work_dir self // sub // name) (File content)
  = true.
Proof.
  intros Hin. cbn [entry_ok]. apply andb_true_iff. split; apply negb_true_iff.
  - apply bool_decide_eq_false. intros H. apply div_path_inj in H as [H _].
    apply (f_equal length) in H. rewrite length_div_path in H. lia.
  - destruct (child_of _ _) eqn:E; [|done].
    apply child_of_true in E as [c E]. apply div_path_inj in E as [E _].
    apply div_path_inj in E as [_ ->]. by apply not_written_Backups in Hin.
Qed.

Lemma entry_ok_sink content :
  entry_ok (home_dir self) (work_dir self) (home_dir self // "security_events.log")
    (File content) = true.
Proof.
  cbn [entry_ok]. apply andb_true_iff. split; apply negb_true_iff.
  - apply bool_decide_eq_false. intros H. apply sink_outside. rewrite H.
    by exists ["Backups"].
  - destruct (child_of _ _) eqn:E; [|done].
    apply child_of_true in E as [c E]. exfalso. apply sink_outside. rewrite E.
    exists ["Backups"; c]. by rewrite below2.
Qed.

(** The directories of a backup are no one's way. *)
Lemma entry_ok_backup_dirs f p date :
  healthy self f -> f !! p = None ->
  p `prefix_of` (work_dir self // "Backups" // date) ->
  entry_ok (home_dir self) (work_dir self) p Dir = true.
Proof.
  intros (Hd & Hh & Hok) Hnone Hp.
  assert (Hwork : forall q, q `prefix_of` work_dir self -> q <> [] -> f !! q = Some Dir).
  { intros q Hq Hne. apply Forall_cons in Hd as [Hd _].
    eapply dirs_down_lookup; [exact Hd| |done].
    unfold div_path. by apply prefix_app_r. }
  assert (Hbelow : p = [] \/ work_dir self // "Backups" `prefix_of` p).
  { destruct (prefix_of_two _ _ _ _ Hp) as [H|[->| ->]].
    - left. destruct p as [|x l]; [done|].
      rewrite Hwork in Hnone; [done|done|done].
    - by right.
    - right. by exists [date]. }
  cbn [entry_ok]. apply andb_true_iff. split.
  - apply negb_true_iff, bool_decide_eq_false. intros ->.
    destruct Hbelow as [H|H]; [by apply div_path_nonempty in H|].
    apply sink_outside. etrans; [|exact H]. by exists ["Backups"].
  - apply forallb_forall. intros sub Hin. apply negb_true_iff.
    destruct (child_of _ _) eqn:E; [|done].
    apply child_of_true in E as [c ->].
    destruct Hbelow as [H|H]; [by apply div_path_nonempty in H|].
    destruct (prefix_of_two _ _ _ _ Hp) as [H1|[H1|H1]].
    + exfalso. rewrite Hwork in Hnone; [done|done|apply div_path_nonempty].
    + apply div_path_inj in H1 as [H1 _].
      apply (f_equal length) in H1. rewrite length_div_path in H1. lia.
    + apply div_path_inj in H1 as [H1 _]. apply div_path_inj in H1 as [_ ->].
      by apply not_written_Backups in Hin.
Qed.

Lemma healthy_mkdir_backups f date r f' :
  healthy self f ->
  mkdir_from (work_dir self // "Backups" // date) [] (work_dir self // "Backups" // date) f
  = (r, f') ->
  r = Ok tt /\ healthy self f'.
Proof.
  intros Hh H. pose proof Hh as (Hd & Hhome & Hok).
  assert (Hr : r = Ok tt).
  { destruct (mkdir_from_succeeds (work_dir self // "Backups" // date)
                (work_dir self // "Backups" // date) [] f) as [f1 Hf1].
    - intros k content Hk Hne E. simpl in E.
      specialize (Hok _ _ E). cbn [entry_ok] in Hok. apply andb_true_iff in Hok as [Hok1 Hok2].
      destruct (prefix_of_two _ _ _ _ Hk) as [H1|[->| ->]].
      + apply Forall_cons in Hd as [Hd _].
        rewrite (dirs_down_lookup f _ k Hd) in E; [done| |done].
        unfold div_path. by apply prefix_app_r.
      + by rewrite bool_decide_eq_true_2 in Hok1.
      + by rewrite child_of_div in Hok2.
    - rewrite Hf1 in H. by injection H as <- _. }
  split; [done|].
  assert (Hkept : forall q, f !! q = Some Dir -> f' !! q = Some Dir).
  { intros q. by eapply mkdir_from_keeps_dirs. }
  split; [|split].
  - eapply Forall_impl; [exact Hd|]. intros sub. by apply dirs_from_kept.
  - by eapply dirs_from_kept.
  - intros p n Hp.
    destruct (mkdir_from_changes _ _ _ _ _ _ H p) as [Heq|(Hnone & Hdir & Hpre)].
    + rewrite Heq in Hp. by apply Hok.
    + rewrite Hdir in Hp. injection Hp as <-.
      by eapply entry_ok_backup_dirs.
Qed.

(** *** Safe computations *)

Lemma safe_keeps {A} (c : M A) : keeps_fs c -> only_interrupt c -> safe self c.
Proof.
  intros Hk Ho w r w' Hh H. split; [by rewrite (Hk _ _ _ H)|].
  intros e ->. by eapply Ho.
Qed.

Lemma safe_pure {A} (c : M A) :
  (forall w, exists a w', c w = (Ok a, w') /\ fs w' = fs w) -> safe self c.
Proof.
  intros Hc w r w' Hh H. destruct (Hc w) as (a & w1 & E & Hfs).
  rewrite E in H. injection H as <- <-. by rewrite Hfs.
Qed.

Lemma safe_ret {A} (a : A) : safe self (ret a).
Proof. apply safe_pure. intros w. by exists a, w. Qed.

Lemma safe_get {A} (g : World -> A) : safe self (get g).
Proof. apply safe_pure. intros w. by exists (g w), w. Qed.

Lemma safe_logger_info msg : safe self (logger_info msg).
Proof. apply safe_pure. intros w. eexists _, _. split; [reflexivity|by destruct w]. Qed.

Lemma safe_random_random : safe self random_random.
Proof. apply safe_pure. intros w. eexists _, _. split; [reflexivity|by destruct w]. Qed.

Lemma safe_random_uniform a b : safe self (random_uniform a b).
Proof. apply safe_pure. intros w. eexists _, _. split; [reflexivity|by destruct w]. Qed.

Lemma safe_random_randint a b : a <= b -> safe self (random_randint a b).
Proof.
  intros Hab. apply safe_pure. intros w. unfold random_randint.
  replace (b <? a) with false by (symmetry; apply Z.ltb_ge; lia).
  eexists _, _. split; [reflexivity|by destruct w].
Qed.

Lemma safe_random_choice {A} (seq : list A) : seq <> [] -> safe self (random_choice seq).
Proof.
  intros Hne. apply safe_pure. intros w. destruct seq as [|x l]; [done|].
  eexists _, _. split; [reflexivity|by destruct w].
Qed.

Lemma safe_time_sleep d : (0 <= d)%Q -> safe self (time_sleep d).
Proof.
  intros Hd. apply safe_keeps; [apply keeps_fs_time_sleep|].
  intros w e w' H. eapply time_sleep_raises; [|exact H]. by apply Qle_bool_iff.
Qed.

Lemma safe_bind {A B} (c : M A) (k : A -> M B) :
  safe self c -> (forall a, safe self (k a)) -> safe self (bind c k).
Proof.
  intros Hc Hk w r w' Hh H. rewrite bind_unfold in H.
  destruct (c w) as [[a|e] w1] eqn:E.
  - destruct (Hc _ _ _ Hh E) as [Hh1 _]. by eapply Hk.
  - injection H as <- <-. destruct (Hc _ _ _ Hh E) as [Hh1 He].
    split; [done|]. intros e0 [= <-]. by apply He.
Qed.

Lemma safe_bind_post {A B} (c : M A) (k : A -> M B) (P : A -> Prop) :
  safe self c ->
  (forall w a w', c w = (Ok a, w') -> P a) ->
  (forall a, P a -> safe self (k a)) ->
  safe self (bind c k).
Proof.
  intros Hc HP Hk w r w' Hh H. rewrite bind_unfold in H.
  destruct (c w) as [[a|e] w1] eqn:E.
  - destruct (Hc _ _ _ Hh E) as [Hh1 _]. by eapply (Hk _ (HP _ _ _ E)).
  - injection H as <- <-. destruct (Hc _ _ _ Hh E) as [Hh1 He].
    split; [done|]. intros e0 [= <-]. by apply He.
Qed.

Lemma safe_dwell (a b : Q) :
  (0 <= a)%Q -> (a <= b)%Q -> safe self (d <- random_uniform a b ;; time_sleep d).
Proof.
  intros Ha Hab. apply safe_keeps.
  - apply keeps_fs_bind; [apply keeps_fs_random_uniform|]. intros d.
    apply keeps_fs_time_sleep.
  - by apply only_interrupt_dwell.
Qed.

Lemma safe_for_each {A} (xs : list A) (body : A -> M unit) :
  (forall x, safe self (body x)) -> safe self (for_each xs body).
Proof.
  intros Hb. induction xs as [|x xs IH]; simpl.
  - apply safe_ret.
  - apply safe_bind; auto.
Qed.

Lemma safe_choose (seq : list (M unit)) :
  seq <> [] -> Forall (safe self) seq ->
  safe self (operation <- random_choice seq ;; operation).
Proof.
  intros Hne Hseq. apply (safe_bind_post _ _ (fun a => In a seq)).
  - by apply safe_random_choice.
  - intros w a w'. apply random_choice_In.
  - intros a Ha. rewrite Forall_forall in Hseq. apply Hseq. by apply list_elem_of_In.
Qed.

Lemma safe_open_write sub name content :
  In sub written_subdirs ->
  safe self (open_write (work_dir self // sub // name) content).
Proof.
  intros Hin w r w' Hh H. unfold open_write in H.
  pose proof (healthy_writable _ sub name Hh Hin) as Hopen.
  rewrite Hopen in H. injection H as <- <-. split; [|done]. simpl.
  apply healthy_insert_file; [done| |by apply entry_ok_written].
  by apply open_error_not_dir.
Qed.

Lemma safe_open_sink content :
  safe self (open_append (home_dir self // "security_events.log") content).
Proof.
  intros w r w' Hh H. unfold open_append in H.
  pose proof (healthy_sink_writable _ Hh) as Hopen.
  rewrite Hopen in H. injection H as <- <-. split; [|done]. simpl.
  apply healthy_insert_file; [done| |by apply entry_ok_sink].
  by apply open_error_not_dir.
Qed.

Lemma safe_mkdir_backups date :
  safe self (mkdir_parents_exist_ok (work_dir self // "Backups" // date)).
Proof.
  intros w r w' Hh H. unfold mkdir_parents_exist_ok in H.
  destruct (mkdir_from _ _ _ _) as [r1 f1] eqn:E. injection H as <- <-.
  destruct (healthy_mkdir_backups _ _ _ _ Hh E) as [-> Hh1]. by split.
Qed.

Lemma safe_iterdir sub :
  In sub written_subdirs -> safe self (iterdir (work_dir self // sub)).
Proof.
  intros Hin w r w' Hh H. unfold iterdir in H.
  destruct Hh as (Hd & Hhome & Hok).
  assert (Hdir : is_dir (fs w) (work_dir self // sub) = true).
  { apply is_dir_div. rewrite Forall_forall in Hd.
    apply (dirs_down_lookup _ (work_dir self // sub)); [|done|apply div_path_nonempty].
    apply Hd. by apply list_elem_of_In. }
  rewrite Hdir in H. by injection H as <- <-.
Qed.

Ltac safe_step :=
  first
    [ apply safe_ret | apply safe_get | apply safe_logger_info
    | apply safe_random_random | apply safe_random_uniform
    | apply safe_random_randint; lia
    | apply safe_random_choice; discriminate
    | apply safe_open_write; simpl; tauto
    | apply safe_open_sink | apply safe_mkdir_backups
    | apply safe_time_sleep; done ].

(** Walks down a chain of binds that ends in a dwell. *)
Ltac safe_chain :=
  unfold datetime_now;
  repeat first
    [ apply safe_dwell; done
    | apply safe_bind; [solve [safe_step] | intros ?]
    | solve [safe_step] ].

Lemma safe_create_financial_report : safe self (create_financial_report self).
Proof. unfold create_financial_report. safe_chain. Qed.

Lemma safe_update_client_data : safe self (update_client_data self).
Proof. unfold update_client_data. safe_chain. Qed.

Lemma safe_create_compliance_document : safe self (create_compliance_document self).
Proof. unfold create_compliance_document. safe_chain. Qed.

Lemma safe_generate_risk_analysis : safe self (generate_risk_analysis self).
Proof. unfold generate_risk_analysis. safe_chain. Qed.

Lemma safe_access_regulatory_docs : safe self (access_regulatory_docs self).
Proof. unfold access_regulatory_docs. safe_chain. Qed.

Lemma safe_backup_one bd q : safe self (backup_one bd q).
Proof.
  unfold backup_one. apply safe_bind; [apply safe_get|].
  intros [|]; [by apply safe_time_sleep|apply safe_ret].
Qed.

Lemma safe_backup_source bd sub :
  In sub written_subdirs ->
  safe self (ex <- get (fun w => path_exists (fs w) (work_dir self // sub)) ;;
             if ex : bool then
               files <- iterdir (work_dir self // sub) ;;
               for_each files (backup_one bd)
             else ret tt).
Proof.
  intros Hin. apply safe_bind; [apply safe_get|]. intros [|]; [|apply safe_ret].
  apply safe_bind; [by apply safe_iterdir|]. intros files.
  apply safe_for_each. intros q. apply safe_backup_one.
Qed.

Lemma safe_backup_files : safe self (backup_files self).
Proof.
  unfold backup_files, datetime_now.
  apply safe_bind; [apply safe_get|]. intros now.
  apply safe_bind; [apply safe_mkdir_backups|]. intros _.
  apply safe_bind; [|intros _; safe_chain].
  cbn [for_each].
  apply safe_bind; [apply safe_backup_source; simpl; tauto|]. intros _.
  apply safe_bind; [apply safe_backup_source; simpl; tauto|]. intros _.
  apply safe_ret.
Qed.

Lemma safe_simulate_file_operations : safe self (simulate_file_operations self).
Proof.
  unfold simulate_file_operations. apply safe_choose; [done|].
  constructor; [apply safe_create_financial_report|].
  constructor; [apply safe_update_client_data|].
  constructor; [apply safe_create_compliance_document|].
  constructor; [apply safe_generate_risk_analysis|].
  constructor; [apply safe_backup_files|].
  constructor; [apply safe_access_regulatory_docs|].
  constructor.
Qed.

Lemma safe_simulate_network_activity : safe self simulate_network_activity.
Proof. unfold simulate_network_activity. safe_chain. Qed.

Lemma safe_simulate_security_actions : safe self (simulate_security_actions self).
Proof. unfold simulate_security_actions, security_actions. safe_chain. Qed.

Hypothesis some_application : applications self <> [].
Hypothesis some_website : banking_websites self <> [].

Lemma safe_simulate_application_usage : safe self (simulate_application_usage self).
Proof.
  apply safe_keeps.
  - intros w r w' H. symmetry.
    eapply (fs_moves_application_usage eq); [done|intros; congruence|exact H].
  - intros w e w' H. rewrite application_usage_swallows_nothing in H by done.
    revert H. apply only_interrupt_bind; [by apply only_interrupt_random_choice|].
    intros app. by apply application_usage_body_only_interrupt.
Qed.

Lemma safe_work_activities : Forall (safe self) (map fst (work_activities self)).
Proof.
  constructor; [apply safe_simulate_file_operations|].
  constructor; [apply safe_simulate_application_usage|].
  constructor; [apply safe_simulate_network_activity|].
  constructor; [apply safe_simulate_security_actions|].
  constructor.
Qed.

Lemma safe_try_body :
  safe self (try_body self (map fst (work_activities self))
                           (map snd (work_activities self))).
Proof.
  intros w r w'. rewrite try_body_unfold.
  pose proof safe_work_activities as Hacts. rewrite Forall_forall in Hacts.
  destruct (regime_for _); revert w r w'.
  - unfold work_hours_branch.
    apply (safe_bind_post _ _
             (fun chosen => exists a, chosen = [a] /\
                                      In a (map fst (work_activities self)))).
    + intros w r w' Hh H.
      destruct (random_choices_work_activities self w) as (a & Ha & E).
      rewrite E in H. injection H as <- <-. split; [by destruct w|done].
    + intros w a w'. apply random_choices_In.
    + intros chosen (a & -> & Ha). cbn [item0].
      apply (safe_bind_post _ _ (fun b => b = a));
        [apply safe_ret | by intros w b w' [= <-] |].
      intros activity ->.
      apply safe_bind; [apply Hacts; by apply list_elem_of_In|]. intros _. safe_chain.
  - unfold after_hours_branch.
    apply safe_bind; [apply safe_random_random|]. intros u.
    apply safe_bind; [|intros _; safe_chain].
    destruct (Qlt_bool u (1 # 10)); [apply safe_simulate_security_actions|apply safe_ret].
Qed.

(** In a workspace in order, an iteration of the loop logs no ERROR record
    and leaves the workspace in order. *)
Lemma loop_iteration_clean w r w' :
  healthy self (fs w) ->
  loop_iteration self (map fst (work_activities self)) (map snd (work_activities self)) w
  = (r, w') ->
  healthy self (fs w') /\ error_records (trace w') = error_records (trace w) /\
  (r = Ok Continue \/ r = Ok Break).
Proof.
  intros Hh. rewrite loop_iteration_unfold.
  destruct (try_body self _ _ w) as [[[]|e] w1] eqn:E;
    destruct (safe_try_body _ _ _ Hh E) as [Hh1 He];
    pose proof (logs_no_error_try_body self some_website _ _ _ E) as Hlog.
  - intros H. injection H as <- <-. auto.
  - rewrite (He e eq_refl). intros H. injection H as <- <-.
    split; [by destruct w1|]. split; [|by right].
    rewrite <- Hlog. destruct w1. simpl. unfold error_records.
    by rewrite filter_app, length_app.
Qed.

Lemma while_running_clean fuel : forall w r w',
  healthy self (fs w) ->
  while_running fuel (loop_iteration self (map fst (work_activities self))
                                          (map snd (work_activities self))) w
  = Some (r, w') ->
  healthy self (fs w') /\ error_records (trace w') = error_records (trace w) /\ r = Ok tt.
Proof.
  induction fuel as [|fuel IH]; intros w r w' Hh; simpl; [discriminate|].
  destruct (is_running w); [|intros H; by injection H as <- <-].
  destruct (loop_iteration self _ _ w) as [r1 w1] eqn:E.
  destruct (loop_iteration_clean _ _ _ Hh E) as (Hh1 & Hlog & [-> | ->]).
  - intros H. destruct (IH _ _ _ Hh1 H) as (Hh2 & Hlog2 & Hr).
    split; [done|]. split; [congruence|done].
  - intros H. by injection H as <- <-.
Qed.

End Healthy.



(** ** From an empty home directory *)

Lemma mkdir_from_dirs_from target rest : forall pre f f',
  mkdir_from target pre rest f = (Ok tt, f') -> dirs_from f' pre rest = true.
Proof.
  induction rest as [|c rest IH]; intros pre f f' H; simpl in *; [done|].
  apply andb_true_iff.
  destruct (f !! (pre // c)) as [[|content]|] eqn:E; [| discriminate |].
  - split; [|by eapply IH]. apply is_dir_div. by eapply mkdir_from_keeps_dirs.
  - split; [|by eapply IH]. apply is_dir_div.
    eapply mkdir_from_keeps_dirs; [exact H|]. apply lookup_insert_eq.
Qed.

(** The loop of [setup_workspace], where no file is in the way: it
    succeeds, and creates nothing but directories on the way to its
    arguments, which all exist afterwards with their ancestors. *)
Lemma for_each_mkdir_succeeds ds : forall w,
  (forall d k content, In d ds -> k `prefix_of` d -> k <> [] ->
                       fs w !! k <> Some (File content)) ->
  exists w',
    for_each ds mkdir_parents_exist_ok w = (Ok tt, w') /\
    w' = set_fs (fs w') w /\
    Forall (fun d => dirs_down (fs w') d = true) ds /\
    (forall p, fs w !! p = Some Dir -> fs w' !! p = Some Dir) /\
    (forall p, fs w' !! p = fs w !! p \/
               (fs w !! p = None /\ fs w' !! p = Some Dir /\
                exists d, In d ds /\ p `prefix_of` d)).
Proof.
  induction ds as [|d ds IH]; intros w Hfree.
  - exists w. simpl. rewrite set_fs_same. repeat split; auto.
  - simpl. rewrite bind_unfold. unfold mkdir_parents_exist_ok at 1.
    destruct (mkdir_from_succeeds d d [] (fs w)) as [f1 E].
    { intros k content Hk Hne. apply (Hfree d); [by left|done|done]. }
    rewrite E.
    destruct (IH (set_fs f1 w)) as (w' & Hrun & Hw & Hall & Hkept & Hchanges).
    { intros d' k content Hin Hk Hne. cbn [fs set_fs].
      rewrite (mkdir_from_files _ _ _ _ _ _ k content E).
      apply (Hfree d'); [by right|done|done]. }
    cbn [fs set_fs] in Hkept, Hchanges.
    exists w'. split; [exact Hrun|]. split; [rewrite Hw; by destruct w|].
    assert (Hkept1 : forall p, fs w !! p = Some Dir -> f1 !! p = Some Dir).
    { intros p. by eapply mkdir_from_keeps_dirs. }
    split; [|split].
    + constructor; [|done].
      eapply dirs_from_kept; [exact Hkept|]. by eapply mkdir_from_dirs_from.
    + intros p Hp. by apply Hkept, Hkept1.
    + intros p.
      destruct (Hchanges p) as [H2|(H2 & H3 & d' & Hin & Hpre)];
        destruct (mkdir_from_changes _ _ _ _ _ _ E p) as [H1|(H1 & H4 & Hpre1)].
      * left. congruence.
      * right. split; [done|]. split; [congruence|]. exists d. split; [by left|done].
      * right. split; [congruence|]. split; [done|]. exists d'. split; [by right|done].
      * congruence.
Qed.

Lemma name_not_above_directories (home : path) (self : Simulator) (d : path)
    (name : string) :
  work_dir self = home // "Documents" // "BankWork" ->
  temp_dir self = home // "Downloads" // "temp_banking" ->
  name <> "Documents" -> name <> "Downloads" ->
  In d (directories self) ->
  ~ (home // name) `prefix_of` d.
Proof.
  intros Hw Ht Hn1 Hn2 Hin [k Hk]. unfold directories in Hin. rewrite Hw, Ht in Hin.
  unfold div_path in *. simpl in Hin.
  repeat (destruct Hin as [<-|Hin];
          [rewrite <- !app_assoc in Hk; apply app_inv_head in Hk;
           injection Hk as Hk _; congruence|]).
  done.
Qed.

Lemma directories_length (home : path) (self : Simulator) (d : path) :
  work_dir self = home // "Documents" // "BankWork" ->
  temp_dir self = home // "Downloads" // "temp_banking" ->
  In d (directories self) -> (length d <= length home + 3)%nat.
Proof.
  intros Hw Ht Hin. unfold directories in Hin. rewrite Hw, Ht in Hin. simpl in Hin.
  repeat (destruct Hin as [<-|Hin]; [rewrite !length_div_path; lia|]). done.
Qed.

Lemma directories_below_home (home : path) (self : Simulator) (d : path) :
  work_dir self = home // "Documents" // "BankWork" ->
  temp_dir self = home // "Downloads" // "temp_banking" ->
  In d (directories self) -> exists rest, d = home ++ rest.
Proof.
  intros Hw Ht Hin. unfold directories in Hin. rewrite Hw, Ht in Hin.
  unfold div_path in Hin. simpl in Hin.
  repeat (destruct Hin as [<-|Hin]; [rewrite <- !app_assoc; by eexists|]). done.
Qed.

(** What lies outside the home directory is in nobody's way. *)
Lemma entry_ok_outside (home p : path) (n : node) :
  ~ (home `prefix_of` p /\ p <> home) ->
  entry_ok home (home // "Documents" // "BankWork") p n = true.
Proof.
  intros Hout.
  assert (Hbelow : forall k, k <> [] -> p <> home ++ k).
  { intros k Hk ->. apply Hout. split; [by apply prefix_app_r|].
    intros H. apply (f_equal length) in H. rewrite length_app in H.
    destruct k; [done|]. simpl in H. lia. }
  assert (Hchild : forall dir, home `prefix_of` dir -> child_of dir p = false).
  { intros dir [k ->]. destruct (child_of _ _) eqn:E; [|done].
    apply child_of_true in E as [c ->]. exfalso.
    apply (Hbelow (k ++ [c])); [by destruct k|]. unfold div_path. by rewrite <- app_assoc. }
  destruct n as [|content]; cbn [entry_ok]; apply andb_true_iff; split.
  - apply negb_true_iff, bool_decide_eq_false. by apply Hbelow.
  - apply forallb_forall. intros sub _. apply negb_true_iff, Hchild.
    exists ["Documents"; "BankWork"; sub]. unfold div_path. by rewrite <- !app_assoc.
  - apply negb_true_iff, bool_decide_eq_false. rewrite !below2.
    unfold div_path. rewrite <- app_assoc. by apply Hbelow.
  - apply negb_true_iff, Hchild.
    exists ["Documents"; "BankWork"; "Backups"]. unfold div_path. by rewrite <- !app_assoc.
Qed.

(** On a machine whose home directory is empty the constructor succeeds
    and leaves a workspace in order. *)
Lemma new_simulator_on_empty_home name dept w :
  empty_home (env_home w) (fs w) ->
  exists self w1,
    new_simulator name dept w = (Ok self, w1) /\
    healthy self (fs w1) /\
    applications self <> [] /\ banking_websites self <> [] /\
    ~ work_dir self `prefix_of` (home_dir self // "security_events.log") /\
    error_records (trace w1) = error_records (trace w).
Proof.
  destruct w as [c dr cu f tr ir pe eh]. cbn [env_home fs]. intros [Hhome Hempty].
  assert (Hnone : forall k, k <> [] -> f !! (eh ++ k) = None).
  { intros k Hk. destruct (f !! (eh ++ k)) as [n|] eqn:E; [|done]. exfalso.
    apply (Hempty _ _ E). split; [by apply prefix_app_r|].
    intros H. apply (f_equal length) in H. rewrite length_app in H.
    destruct k; [done|]. simpl in H. lia. }
  unfold new_simulator. run_py. unfold bind, open_append. run_py.
  assert (Hlog : f !! (eh // "banking_simulation.log") = None) by (by apply Hnone).
  rewrite (open_error_none f eh "banking_simulation.log" Hhome) by (by rewrite Hlog).
  rewrite Hlog. cbn [app].
  set (self := mkSimulator name dept eh _ _ _ _).
  set (f1 := <[eh // "banking_simulation.log" := File []]> f).
  assert (Hkept1 : forall q, f !! q = Some Dir -> f1 !! q = Some Dir).
  { intros q Hq. unfold f1. rewrite lookup_insert_ne; [done|]. intros <-. congruence. }
  rewrite setup_workspace_unfold.
  match goal with
  | |- context [for_each _ _ ?w0] =>
      destruct (for_each_mkdir_succeeds (directories self) w0)
        as (w2 & -> & Hw2 & Hall & Hkept & Hchanges)
  end.
  { cbn [fs set_fs set_is_running]. intros d k content Hin Hk Hne.
    fold f1. unfold f1. rewrite lookup_insert_ne.
    2:{ intros <-. revert Hk.
        by apply (name_not_above_directories eh self d "banking_simulation.log"). }
    destruct (directories_below_home eh self d eq_refl eq_refl Hin) as [rest ->].
    destruct (prefix_of_below eh k rest Hk) as [[k' ->]|Hk'].
    - destruct k' as [|x k'].
      + rewrite app_nil_r in *. by rewrite (dirs_down_lookup f eh eh).
      + by rewrite Hnone.
    - by rewrite (dirs_down_lookup f eh k). }
  cbn [fs set_fs set_is_running] in Hkept, Hchanges. fold f1 in Hkept, Hchanges.
  eexists _, _. split; [reflexivity|].
  split; [|split; [done|split; [done|split]]].
  - split; [|split].
    + rewrite Forall_forall in Hall. apply Forall_forall. intros sub Hsub.
      apply Hall. apply list_elem_of_In. apply list_elem_of_In in Hsub.
      unfold written_subdirs in Hsub. unfold directories. simpl in *.
      repeat (destruct Hsub as [<-|Hsub]; [tauto|]). done.
    + cbn [fs emit set_trace home_dir self].
      eapply dirs_from_kept; [|exact Hhome]. intros q Hq. by apply Hkept, Hkept1.
    + cbn [fs emit set_trace home_dir work_dir self]. intros p n Hp.
      destruct (Hchanges p) as [Hsame|(Hnew & Hdir & d & Hin & Hpre)].
      * rewrite Hsame in Hp. unfold f1 in Hp.
        destruct (decide (p = eh // "banking_simulation.log")) as [->|Hne].
        -- rewrite lookup_insert_eq in Hp. injection Hp as <-.
           cbn [entry_ok]. apply andb_true_iff. split; apply negb_true_iff.
           ++ apply bool_decide_eq_false. intros H. apply (f_equal length) in H.
              rewrite !length_div_path in H. lia.
           ++ destruct (child_of _ _) eqn:E; [|done].
              apply child_of_true in E as [x E]. apply (f_equal length) in E.
              rewrite !length_div_path in E. lia.
        -- rewrite lookup_insert_ne in Hp by done.
           apply entry_ok_outside. by eapply Hempty.
      * rewrite Hdir in Hp. injection Hp as <-.
        pose proof (prefix_length _ _ Hpre) as Hlen.
        pose proof (directories_length eh self d eq_refl eq_refl Hin) as Hd.
        cbn [entry_ok]. apply andb_true_iff. split.
        -- apply negb_true_iff, bool_decide_eq_false. intros ->. revert Hpre.
           by apply (name_not_above_directories eh self d "security_events.log").
        -- apply forallb_forall. intros sub _. apply negb_true_iff.
           destruct (child_of _ _) eqn:E; [|done].
           apply child_of_true in E as [x ->]. rewrite !length_div_path in Hlen. lia.
  - cbn [home_dir work_dir self]. intros Hpre. apply prefix_length in Hpre.
    rewrite !length_div_path in Hpre. lia.
  - rewrite Hw2. cbn [trace emit set_trace set_fs set_is_running].
    rewrite error_records_snoc. simpl. lia.
Qed.


